(** * Cloi agentic debugger: hybrid retrieval, error evolution, tool layer
      and orchestrator, embedded from the JavaScript sources.

    Conventions of the embedding.
    - JavaScript strings are [string]s of bytes; the character classes of the
      regular expressions used by the sources ([\w], [\b], [[a-zA-Z0-9_-]])
      are ASCII classes, so they read bytes the way the sources read code
      units.
    - Scores and weights are JavaScript numbers.  Where a property reads of
      a score its place in the order only (which documents come out, how
      many, in which order among given scores), scores are exact rationals
      ([Qc], module [Retrieval]); where it reads the value of a computed
      score, they are binary64 numbers, the primitive floats of the kernel
      (module [Retrieval64]).  Counts and step numbers are integers.
    - A call that can throw returns a [completion]: [Returned v] or
      [Thrown msg]. *)

From Stdlib Require Import Floats ZArith QArith Qcanon Ascii String List Lia Bool Field Sorted.
From stdpp Require Import base numbers list strings gmap pretty.

Open Scope Z_scope.
Open Scope string_scope.
Open Scope list_scope.

(** ** Completions: normal return or a thrown exception *)

Inductive completion (A : Type) : Type :=
| Returned (v : A)
| Thrown (msg : string).
Arguments Returned {A} v.
Arguments Thrown {A} msg.

Definition cbind {A B} (c : completion A) (f : A -> completion B) : completion B :=
  match c with
  | Returned v => f v
  | Thrown m => Thrown m
  end.

Notation "'try!' x <- c ; k" := (cbind c (fun x => k))
  (at level 60, x name, c at next level, right associativity).

(** ** String primitives of the JavaScript runtime used by the sources *)

Module JS.

Definition chars (s : string) : list ascii := list_ascii_of_string s.
Definition str (l : list ascii) : string := string_of_list_ascii l.

Definition code (c : ascii) : nat := nat_of_ascii c.

Definition between (lo hi : nat) (c : ascii) : bool :=
  (lo <=? code c)%nat && (code c <=? hi)%nat.

Definition is_upper (c : ascii) : bool := between 65 90 c.
Definition is_lower (c : ascii) : bool := between 97 122 c.
Definition is_digit (c : ascii) : bool := between 48 57 c.

(** [\w] *)
Definition is_word (c : ascii) : bool :=
  is_upper c || is_lower c || is_digit c || Ascii.eqb c "_"%char.

(** [[a-zA-Z0-9_-]] *)
Definition is_fname (c : ascii) : bool :=
  is_word c || Ascii.eqb c "-"%char.

(** [\s] restricted to bytes: space, tab, line feed, vertical tab, form feed,
    carriage return. *)
Definition is_space (c : ascii) : bool :=
  (code c =? 32)%nat || between 9 13 c.

Definition lower (c : ascii) : ascii :=
  if is_upper c then ascii_of_nat (code c + 32) else c.

Definition toLowerCase (s : string) : string := str (map lower (chars s)).

Fixpoint ceqb (a b : list ascii) : bool :=
  match a, b with
  | [], [] => true
  | x :: a', y :: b' => Ascii.eqb x y && ceqb a' b'
  | _, _ => false
  end.

(** [p] is a prefix of [s], characters compared with [eqc]. *)
Fixpoint prefix_by (eqc : ascii -> ascii -> bool) (p s : list ascii) : bool :=
  match p, s with
  | [], _ => true
  | x :: p', y :: s' => eqc x y && prefix_by eqc p' s'
  | _ :: _, [] => false
  end.

Definition starts_with (p s : list ascii) : bool := prefix_by Ascii.eqb p s.

(** [s.includes(sub)] *)
Fixpoint includes_chars (sub s : list ascii) : bool :=
  starts_with sub s ||
  match s with
  | [] => false
  | _ :: s' => includes_chars sub s'
  end.

Definition includes (s sub : string) : bool := includes_chars (chars sub) (chars s).

(** The longest prefix of [s] whose characters satisfy [p], and the rest. *)
Fixpoint span (p : ascii -> bool) (s : list ascii) : list ascii * list ascii :=
  match s with
  | [] => ([], [])
  | c :: s' =>
      if p c then let '(a, b) := span p s' in (c :: a, b) else ([], s)
  end.

Fixpoint drop_while (p : ascii -> bool) (s : list ascii) : list ascii :=
  match s with
  | [] => []
  | c :: s' => if p c then drop_while p s' else s
  end.

(** [s.trim()] *)
Definition trim (s : string) : string :=
  str (rev (drop_while is_space (rev (drop_while is_space (chars s))))).

(** [s.split(sep)] for a one-character separator. *)
Fixpoint split_chars (sep : ascii) (cur : list ascii) (s : list ascii) : list (list ascii) :=
  match s with
  | [] => [rev cur]
  | c :: s' =>
      if Ascii.eqb c sep then rev cur :: split_chars sep [] s'
      else split_chars sep (c :: cur) s'
  end.

Definition split (sep : ascii) (s : string) : list string :=
  map str (split_chars sep [] (chars s)).

(** [a.join(sep)] *)
Fixpoint join (sep : string) (l : list string) : string :=
  match l with
  | [] => ""
  | [x] => x
  | x :: l' => x +:+ sep +:+ join sep l'
  end.

(** [s.split('/').pop()] *)
Definition basename (s : string) : string := List.last (split "/"%char s) "".

(** [arr.includes(x)] on strings *)
Definition mem (x : string) (l : list string) : bool :=
  existsb (String.eqb x) l.

(** [[...new Set(l)]]: the first occurrences of the elements of [l] that
    are not in [seen], in order. *)
Fixpoint uniq {A} (eqb : A -> A -> bool) (seen l : list A) : list A :=
  match l with
  | [] => []
  | x :: l' =>
      if existsb (eqb x) seen then uniq eqb seen l'
      else x :: uniq eqb (x :: seen) l'
  end.

End JS.

(** ** Hybrid retrieval core ([src/rag/hybridSearch.js]) *)

Module Retrieval.

Local Open Scope Qc_scope.

(** The [metadata] of a document; a missing field reads as the empty string,
    which is how the sources read it ([metadata?.fileName || '']). *)
Record doc_metadata := {
  filePath : string;
  fileName : string;
  content : string
}.

(** One item of a per-modality ranking: [{id, score, metadata}]. *)
Record hit := {
  hit_id : string;
  hit_score : Qc;
  hit_metadata : option doc_metadata
}.

(** One fused result: [{id, metadata, bm25Score, vectorScore, combinedScore}]. *)
Record entry := {
  id : string;
  metadata : option doc_metadata;
  bm25Score : Qc;
  vectorScore : Qc;
  combinedScore : Qc
}.

Definition DEFAULT_BM25_WEIGHT : Qc := Q2Qc (3 # 10).
Definition DEFAULT_VECTOR_WEIGHT : Qc := Q2Qc (7 # 10).
Definition DEFAULT_TOP_K : nat := 5.

(** *** [mergeResults]

    [combinedScores] is a JavaScript [Map]: it is embedded as the list of its
    values in insertion order, keyed by [id]. *)

Definition has (m : list entry) (i : string) : bool :=
  existsb (fun e => String.eqb (id e) i) m.

Definition fresh_entry (i : string) (md : option doc_metadata) : entry :=
  {| id := i; metadata := md; bm25Score := 0; vectorScore := 0; combinedScore := 0 |}.

(** [combinedScores.get(i)] followed by an update of the entry found. *)
Fixpoint update (i : string) (f : entry -> entry) (m : list entry) : list entry :=
  match m with
  | [] => []
  | e :: m' => if String.eqb (id e) i then f e :: m' else e :: update i f m'
  end.

Definition set_bm25 (h : hit) (e : entry) : entry :=
  {| id := id e; metadata := hit_metadata h; bm25Score := hit_score h;
     vectorScore := vectorScore e; combinedScore := combinedScore e |}.

(** [entry.metadata = metadata || entry.metadata] *)
Definition set_vector (h : hit) (e : entry) : entry :=
  {| id := id e;
     metadata := match hit_metadata h with Some md => Some md | None => metadata e end;
     bm25Score := bm25Score e; vectorScore := hit_score h;
     combinedScore := combinedScore e |}.

Definition process (setter : hit -> entry -> entry) (m : list entry) (h : hit) : list entry :=
  let m1 := if has m (hit_id h) then m else m ++ [fresh_entry (hit_id h) (hit_metadata h)] in
  update (hit_id h) (setter h) m1.

Definition set_combined (bm25Weight vectorWeight : Qc) (e : entry) : entry :=
  {| id := id e; metadata := metadata e; bm25Score := bm25Score e;
     vectorScore := vectorScore e;
     combinedScore := bm25Score e * bm25Weight + vectorScore e * vectorWeight |}.

(** [Array.prototype.sort] is stable; with the comparator
    [(a, b) => key b - key a] it orders by decreasing key and keeps the
    incoming order of equal keys.  It is embedded as a stable insertion sort:
    [insert_desc x l] puts [x], which precedes every element of [l] in the
    incoming order, in front of the first element that is not strictly
    greater. *)
Section Sort.
Context {A : Type} (key : A -> Qc).

Fixpoint insert_desc (x : A) (l : list A) : list A :=
  match l with
  | [] => [x]
  | y :: l' =>
      if Qclt_le_dec (key x) (key y) then y :: insert_desc x l' else x :: l
  end.

Fixpoint sort_desc (l : list A) : list A :=
  match l with
  | [] => []
  | x :: l' => insert_desc x (sort_desc l')
  end.
End Sort.

Definition insertion_order (bm25Results vectorResults : list hit) : list entry :=
  fold_left (process set_vector) vectorResults
    (fold_left (process set_bm25) bm25Results []).

Definition mergeResults (bm25Results vectorResults : list hit)
    (bm25Weight vectorWeight : Qc) : list entry :=
  sort_desc combinedScore
    (map (set_combined bm25Weight vectorWeight)
       (insertion_order bm25Results vectorResults)).

(** *** [hybridSearch]

    The two indices, the embedding generator and the two searches are
    collaborators outside the module ([./vectorStore.js], [./bm25.js],
    [./embeddings.js]); they are parameters.  [vector_size] reads
    [vectorIndex.size || 0] and [document_count] reads
    [bm25Index.documentCount || 0]. *)

Record options := {
  bm25Weight_opt : option Qc;
  vectorWeight_opt : option Qc;
  k_opt : option nat;
  expandedK_opt : option nat
}.

Definition opt_k (o : options) : nat := default DEFAULT_TOP_K (k_opt o).
Definition opt_expandedK (o : options) : nat :=
  default (opt_k o * 3)%nat (expandedK_opt o).
Definition opt_bm25Weight (o : options) : Qc := default DEFAULT_BM25_WEIGHT (bm25Weight_opt o).
Definition opt_vectorWeight (o : options) : Qc := default DEFAULT_VECTOR_WEIGHT (vectorWeight_opt o).

(** [arr.slice(0, n)] *)
Definition slice0 {A} (n : nat) (l : list A) : list A := firstn n l.

Section HybridSearch.
Context {vindex bindex embedding : Type}.
Variable vector_size : vindex -> nat.
Variable document_count : bindex -> nat.
Variable bm25_search : bindex -> string -> nat -> completion (list hit).
Variable generateEmbedding : string -> completion embedding.
Variable searchIndex : vindex -> embedding -> nat -> completion (list hit).

Definition safe_k (vectorIndex : vindex) (bm25Index : bindex) (o : options) : nat :=
  Nat.min (opt_k o) (Nat.max (vector_size vectorIndex) (document_count bm25Index)).

Definition safe_expanded_k (vectorIndex : vindex) (bm25Index : bindex) (o : options) : nat :=
  Nat.min (opt_expandedK o) (Nat.max (vector_size vectorIndex) (document_count bm25Index)).

Definition search_body (query : string) (vectorIndex : vindex) (bm25Index : bindex)
    (o : options) : completion (list entry) :=
  let safeExpandedK := safe_expanded_k vectorIndex bm25Index o in
  let safeK := safe_k vectorIndex bm25Index o in
  let totalWeight := opt_bm25Weight o + opt_vectorWeight o in
  let normalizedBM25Weight := opt_bm25Weight o / totalWeight in
  let normalizedVectorWeight := opt_vectorWeight o / totalWeight in
  try! bm25Results <- bm25_search bm25Index query safeExpandedK;
  try! queryEmbedding <- generateEmbedding query;
  try! vectorResults <- searchIndex vectorIndex queryEmbedding safeExpandedK;
  let mergedResults :=
    mergeResults bm25Results vectorResults normalizedBM25Weight normalizedVectorWeight in
  Returned (slice0 safeK mergedResults).

(** The [catch] clause rethrows with a prefixed message. *)
Definition hybridSearch (query : string) (vectorIndex : vindex) (bm25Index : bindex)
    (o : options) : completion (list entry) :=
  match search_body query vectorIndex bm25Index o with
  | Returned r => Returned r
  | Thrown m => Thrown ("Failed to perform hybrid search: " +:+ m)
  end.
End HybridSearch.

(** *** [identifyRootCauseFile] *)

Definition commonWords : list string := [
  "the"; "and"; "that"; "have"; "for"; "not"; "with"; "you"; "this"; "but";
  "his"; "from"; "they"; "she"; "will"; "would"; "there"; "their"; "what";
  "about"; "which"; "when"; "make"; "like"; "time"; "just"; "him"; "know";
  "take"; "people"; "into"; "year"; "your"; "good"; "some"; "could"; "them";
  "see"; "other"; "than"; "then"; "now"; "look"; "only"; "come"; "its"; "over";
  "think"; "also"; "back"; "after"; "use"; "two"; "how"; "our"; "work"; "first";
  "well"; "way"; "even"; "new"; "want"; "because"; "any"; "these"; "give"; "day";
  "most"; "cant"; "cant"; "using"; "does"; "where"; "been"; "should"; "those"
].

(** The alternatives of [filePathPattern], in the order the pattern lists
    them: the first one that matches is taken. *)
Definition path_extensions : list string := [
  "js"; "py"; "java"; "rb"; "go"; "cpp"; "c"; "h"; "ts"; "tsx"; "jsx";
  "php"; "html"; "css"
].

Definition first_extension (s : list ascii) : option (list ascii) :=
  List.find (fun e => JS.starts_with e s) (map JS.chars path_extensions).

(** A match of [/([a-zA-Z0-9_-]+\.(?:js|py|...))/] that starts at the head of
    [s]: the longest run of name characters, a dot, the first alternative. *)
Definition file_match_at (s : list ascii) : option (list ascii) :=
  let '(run, rest) := JS.span JS.is_fname s in
  match run, rest with
  | _ :: _, "."%char :: rest' =>
      match first_extension rest' with
      | Some e => Some (run ++ "."%char :: e)
      | None => None
      end
  | _, _ => None
  end.

(** [errorLog.matchAll(filePathPattern)]: leftmost matches, each search
    resuming where the previous match ended ([skip] characters ahead). *)
Fixpoint scan_files (skip : nat) (s : list ascii) : list string :=
  match s with
  | [] => []
  | _ :: s' =>
      match skip with
      | S n => scan_files n s'
      | O =>
          match file_match_at s with
          | Some m => JS.str m :: scan_files (length m - 1) s'
          | None => scan_files 0 s'
          end
      end
  end.

Definition mentionedFiles (errorLog : string) : list string :=
  scan_files 0 (JS.chars errorLog).

(** The maximal runs of word characters of [s], in order. *)
Fixpoint word_runs (cur : list ascii) (s : list ascii) : list (list ascii) :=
  match s with
  | [] => match cur with [] => [] | _ => [rev cur] end
  | c :: s' =>
      if JS.is_word c then word_runs (c :: cur) s'
      else match cur with
           | [] => word_runs [] s'
           | _ => rev cur :: word_runs [] s'
           end
  end.

(** [errorLog.match(/\b\w{3,}\b/g) || []] *)
Definition errorTerms (errorLog : string) : list string :=
  map JS.str
    (filter (fun w => (3 <=? length w)%nat) (word_runs [] (JS.chars errorLog))).

Definition eq_nocase (a b : ascii) : bool := Ascii.eqb (JS.lower a) (JS.lower b).

(** [term], compared without case, is a prefix of [s] and ends at a word
    boundary. *)
Definition word_at (term s : list ascii) : bool :=
  JS.prefix_by eq_nocase term s &&
  match drop (length term) s with
  | [] => true
  | c :: _ => negb (JS.is_word c)
  end.

(** [new RegExp(`\\b${term}\\b`, 'i').test(fileContent)] for a [term] made
    of word characters. *)
Fixpoint occurs_word (prev_is_word : bool) (term s : list ascii) : bool :=
  (negb prev_is_word && word_at term s) ||
  match s with
  | [] => false
  | c :: s' => occurs_word (JS.is_word c) term s'
  end.

Definition term_in_content (term fileContent : string) : bool :=
  occurs_word false (JS.chars term) (JS.chars fileContent).

Definition significant (term : string) : bool :=
  (3 <? String.length term)%nat && negb (JS.mem (JS.toLowerCase term) commonWords).

(** One turn of the loop over [errorTerms]. *)
Definition count_term (fileContent : string) (matchCount : nat) (term : string) : nat :=
  if significant term then
    if term_in_content term fileContent then S matchCount else matchCount
  else matchCount.

Definition matchCount_of (fileContent errorLog : string) : nat :=
  fold_left (count_term fileContent) (errorTerms errorLog) 0%nat.

Definition of_nat (n : nat) : Qc := Q2Qc (inject_Z (Z.of_nat n)).

Definition meta_fileName (e : entry) : string :=
  match metadata e with Some md => fileName md | None => "" end.

Definition meta_content (e : entry) : string :=
  match metadata e with Some md => content md | None => "" end.

Definition file_mentioned (mentioned : list string) (e : entry) : bool :=
  negb (String.eqb (meta_fileName e) "") && JS.mem (meta_fileName e) mentioned.

Record scored := {
  result : entry;
  rootCauseScore : Qc
}.

Definition score_result (mentioned : list string) (errorLog : string) (r : entry) : scored :=
  let rootCauseScore0 := combinedScore r in
  let rootCauseScore1 :=
    if file_mentioned mentioned r then rootCauseScore0 * Q2Qc 2 else rootCauseScore0 in
  let matchCount := matchCount_of (meta_content r) errorLog in
  let rootCauseScore2 :=
    if (0 <? matchCount)%nat
    then rootCauseScore1 * (1 + of_nat matchCount * Q2Qc (1 # 10))
    else rootCauseScore1 in
  {| result := r; rootCauseScore := rootCauseScore2 |}.

(** [searchResults] may be missing ([None]); the answer [null] is [None]. *)
Definition identifyRootCauseFile (searchResults : option (list entry)) (errorLog : string)
    : option scored :=
  match searchResults with
  | None => None
  | Some [] => None
  | Some rs =>
      let scoredResults := map (score_result (mentionedFiles errorLog) errorLog) rs in
      head (sort_desc rootCauseScore scoredResults)
  end.

End Retrieval.

(** ** Hybrid retrieval on binary64 scores ([src/rag/hybridSearch.js])

    [Retrieval] reads of a score its place in the order, and its theorems
    are about which documents come out and where.  The claims that depend
    on the value of a computed score (the normalised weights, the boosted
    scores of the root-cause heuristic) are settled here, where the same
    functions compute on binary64 numbers, the primitive floats of the
    kernel: [+], [-], [*], [/] and [<] round and compare as IEEE 754
    prescribes, and a decimal literal is the double nearest to it, as in
    JavaScript. *)

Module Retrieval64.

Import Retrieval.
#[local] Set Warnings "-inexact-float".
#[local] Open Scope float_scope.

(** One item of a per-modality ranking: [{id, score, metadata}]. *)
Record hit := {
  hit_id : string;
  hit_score : float;
  hit_metadata : option doc_metadata
}.

(** One fused result: [{id, metadata, bm25Score, vectorScore, combinedScore}]. *)
Record entry := {
  id : string;
  metadata : option doc_metadata;
  bm25Score : float;
  vectorScore : float;
  combinedScore : float
}.

Definition DEFAULT_BM25_WEIGHT : float := 0.3.
Definition DEFAULT_VECTOR_WEIGHT : float := 0.7.

(** *** [mergeResults] *)

Definition has (m : list entry) (i : string) : bool :=
  existsb (fun e => String.eqb (id e) i) m.

Definition fresh_entry (i : string) (md : option doc_metadata) : entry :=
  {| id := i; metadata := md; bm25Score := 0; vectorScore := 0; combinedScore := 0 |}.

Fixpoint update (i : string) (f : entry -> entry) (m : list entry) : list entry :=
  match m with
  | [] => []
  | e :: m' => if String.eqb (id e) i then f e :: m' else e :: update i f m'
  end.

Definition set_bm25 (h : hit) (e : entry) : entry :=
  {| id := id e; metadata := hit_metadata h; bm25Score := hit_score h;
     vectorScore := vectorScore e; combinedScore := combinedScore e |}.

Definition set_vector (h : hit) (e : entry) : entry :=
  {| id := id e;
     metadata := match hit_metadata h with Some md => Some md | None => metadata e end;
     bm25Score := bm25Score e; vectorScore := hit_score h;
     combinedScore := combinedScore e |}.

Definition process (setter : hit -> entry -> entry) (m : list entry) (h : hit) : list entry :=
  let m1 := if has m (hit_id h) then m else m ++ [fresh_entry (hit_id h) (hit_metadata h)] in
  update (hit_id h) (setter h) m1.

Definition set_combined (bm25Weight vectorWeight : float) (e : entry) : entry :=
  {| id := id e; metadata := metadata e; bm25Score := bm25Score e;
     vectorScore := vectorScore e;
     combinedScore := (bm25Score e * bm25Weight) + (vectorScore e * vectorWeight) |}.

(** [Array.prototype.sort] with the comparator [(a, b) => key b - key a]:
    [b] is moved in front of [a] when the difference is positive.  When no
    key is [NaN] the comparator is consistent and the result is that of
    every stable sort; it is embedded as the stable insertion sort, as in
    [Retrieval]. *)
Section Sort.
Context {A : Type} (key : A -> float).

Definition goes_behind (a b : A) : bool := 0 <? key b - key a.

Fixpoint insert_desc (x : A) (l : list A) : list A :=
  match l with
  | [] => [x]
  | y :: l' => if goes_behind x y then y :: insert_desc x l' else x :: l
  end.

Fixpoint sort_desc (l : list A) : list A :=
  match l with
  | [] => []
  | x :: l' => insert_desc x (sort_desc l')
  end.
End Sort.

Definition insertion_order (bm25Results vectorResults : list hit) : list entry :=
  fold_left (process set_vector) vectorResults
    (fold_left (process set_bm25) bm25Results []).

Definition mergeResults (bm25Results vectorResults : list hit)
    (bm25Weight vectorWeight : float) : list entry :=
  sort_desc combinedScore
    (map (set_combined bm25Weight vectorWeight)
       (insertion_order bm25Results vectorResults)).

(** *** [hybridSearch] *)

Record options := {
  bm25Weight_opt : option float;
  vectorWeight_opt : option float;
  k_opt : option nat;
  expandedK_opt : option nat
}.

Definition opt_k (o : options) : nat := default DEFAULT_TOP_K (k_opt o).
Definition opt_expandedK (o : options) : nat :=
  default (opt_k o * 3)%nat (expandedK_opt o).
Definition opt_bm25Weight (o : options) : float :=
  default DEFAULT_BM25_WEIGHT (bm25Weight_opt o).
Definition opt_vectorWeight (o : options) : float :=
  default DEFAULT_VECTOR_WEIGHT (vectorWeight_opt o).

Section HybridSearch.
Context {vindex bindex embedding : Type}.
Variable vector_size : vindex -> nat.
Variable document_count : bindex -> nat.
Variable bm25_search : bindex -> string -> nat -> completion (list hit).
Variable generateEmbedding : string -> completion embedding.
Variable searchIndex : vindex -> embedding -> nat -> completion (list hit).

Definition search_body (query : string) (vectorIndex : vindex) (bm25Index : bindex)
    (o : options) : completion (list entry) :=
  let maxAvailable := Nat.max (vector_size vectorIndex) (document_count bm25Index) in
  let safeExpandedK := Nat.min (opt_expandedK o) maxAvailable in
  let safeK := Nat.min (opt_k o) maxAvailable in
  let totalWeight := opt_bm25Weight o + opt_vectorWeight o in
  let normalizedBM25Weight := opt_bm25Weight o / totalWeight in
  let normalizedVectorWeight := opt_vectorWeight o / totalWeight in
  try! bm25Results <- bm25_search bm25Index query safeExpandedK;
  try! queryEmbedding <- generateEmbedding query;
  try! vectorResults <- searchIndex vectorIndex queryEmbedding safeExpandedK;
  let mergedResults :=
    mergeResults bm25Results vectorResults normalizedBM25Weight normalizedVectorWeight in
  Returned (slice0 safeK mergedResults).

Definition hybridSearch (query : string) (vectorIndex : vindex) (bm25Index : bindex)
    (o : options) : completion (list entry) :=
  match search_body query vectorIndex bm25Index o with
  | Returned r => Returned r
  | Thrown m => Thrown ("Failed to perform hybrid search: " +:+ m)
  end.
End HybridSearch.

(** *** [identifyRootCauseFile]

    The scans of the error log and of the file content are those of
    [Retrieval]. *)

Definition meta_fileName (e : entry) : string :=
  match metadata e with Some md => fileName md | None => "" end.

Definition meta_content (e : entry) : string :=
  match metadata e with Some md => content md | None => "" end.

Definition file_mentioned (mentioned : list string) (e : entry) : bool :=
  negb (String.eqb (meta_fileName e) "") && JS.mem (meta_fileName e) mentioned.

(** [matchCount] as a number: the count itself, which is a double below
    [2^53] (an error log has fewer terms). *)
Definition of_count (n : nat) : float :=
  SF2Prim (binary_normalize prec emax (Z.of_nat n) 0 false).

Record scored := {
  result : entry;
  rootCauseScore : float
}.

Definition score_result (mentioned : list string) (errorLog : string) (r : entry) : scored :=
  let rootCauseScore0 := combinedScore r in
  let rootCauseScore1 :=
    if file_mentioned mentioned r then rootCauseScore0 * 2.0 else rootCauseScore0 in
  let matchCount := matchCount_of (meta_content r) errorLog in
  let rootCauseScore2 :=
    if (0 <? matchCount)%nat
    then rootCauseScore1 * (1 + (of_count matchCount * 0.1))
    else rootCauseScore1 in
  {| result := r; rootCauseScore := rootCauseScore2 |}.

Definition identifyRootCauseFile (searchResults : option (list entry)) (errorLog : string)
    : option scored :=
  match searchResults with
  | None => None
  | Some [] => None
  | Some rs =>
      let scoredResults := map (score_result (mentionedFiles errorLog) errorLog) rs in
      head (sort_desc rootCauseScore scoredResults)
  end.

End Retrieval64.

(** ** JavaScript values: planner parameters and tool results *)

Module Json.

#[local] Set Warnings "-register-all".

(** Numbers of planner parameters and tool results are step numbers, line
    numbers and counts: integers. *)
Inductive value :=
| VUndefined
| VNull
| VBool (b : bool)
| VNum (n : Z)
| VStr (s : string)
| VArr (items : list value)
| VObj (props : list (string * value)).

Definition truthy (v : value) : bool :=
  match v with
  | VUndefined | VNull => false
  | VBool b => b
  | VNum n => negb (Z.eqb n 0)
  | VStr s => negb (String.eqb s "")
  | VArr _ | VObj _ => true
  end.

Fixpoint assoc {A} (k : string) (props : list (string * A)) : option A :=
  match props with
  | [] => None
  | (k', v) :: props' => if String.eqb k' k then Some v else assoc k props'
  end.

(** [o[k]] for an own property of an object; [undefined] otherwise. *)
Definition get (o : value) (k : string) : value :=
  match o with
  | VObj props => default VUndefined (assoc k props)
  | _ => VUndefined
  end.

(** [const { k, ... } = params], for the first name [k] of the pattern:
    destructuring [null] or [undefined] throws, and the message names the
    variable, which is [params] in every tool. *)
Definition destructure (o : value) (k : string) : completion value :=
  match o with
  | VUndefined => Thrown ("Cannot destructure property '" +:+ k +:+ "' of 'params' as it is undefined.")
  | VNull => Thrown ("Cannot destructure property '" +:+ k +:+ "' of 'params' as it is null.")
  | _ => Returned (get o k)
  end.

(** [o[k] = v] on the property list of an object. *)
Fixpoint set_prop (k : string) (v : value) (props : list (string * value))
    : list (string * value) :=
  match props with
  | [] => [(k, v)]
  | (k', v') :: props' =>
      if String.eqb k' k then (k, v) :: props' else (k', v') :: set_prop k v props'
  end.

Definition dq : ascii := "034"%char.
Definition bs : ascii := "092"%char.

Definition hex_digit (n : nat) : ascii :=
  nth n (JS.chars "0123456789abcdef") "0"%char.

(** [QuoteJSONString], one character. *)
Definition escape_char (c : ascii) : list ascii :=
  if Ascii.eqb c dq then [bs; dq]
  else if Ascii.eqb c bs then [bs; bs]
  else match JS.code c with
       | 8%nat => [bs; "b"%char]
       | 9%nat => [bs; "t"%char]
       | 10%nat => [bs; "n"%char]
       | 12%nat => [bs; "f"%char]
       | 13%nat => [bs; "r"%char]
       | n =>
           if (n <? 32)%nat
           then [bs; "u"%char; "0"%char; "0"%char; hex_digit (n / 16); hex_digit (n mod 16)]
           else [c]
       end.

Definition quote (s : string) : string :=
  JS.str (dq :: flat_map escape_char (JS.chars s) ++ [dq]).

Definition select {A} (ks : list string) (props : list (string * option A))
    : list (string * A) :=
  omap (fun k => match assoc k props with
                 | Some (Some x) => Some (k, x)
                 | _ => None
                 end) ks.

(** [JSON.stringify(v, keys)]: with [Some ks] the property names of every
    object, nested ones too, are filtered and ordered by [ks]; [None] is
    the answer [undefined]. *)
Fixpoint stringify (keys : option (list string)) (v : value) : option string :=
  match v with
  | VUndefined => None
  | VNull => Some "null"
  | VBool true => Some "true"
  | VBool false => Some "false"
  | VNum n => Some (pretty n)
  | VStr s => Some (quote s)
  | VArr items =>
      Some ("[" +:+ JS.join "," (map (fun x => default "null" (stringify keys x)) items) +:+ "]")
  | VObj props =>
      let done := map (fun kv => (fst kv, stringify keys (snd kv))) props in
      let ks := match keys with Some ks => ks | None => map fst props end in
      Some ("{" +:+
            JS.join "," (map (fun ks => quote (fst ks) +:+ ":" +:+ snd ks) (select ks done))
            +:+ "}")
  end.

Fixpoint insert_sorted (k : string) (l : list string) : list string :=
  match l with
  | [] => [k]
  | k' :: l' =>
      if String.ltb k k' then k :: l
      else if String.eqb k k' then l
      else k' :: insert_sorted k l'
  end.

(** [Object.keys(o).sort()] read as the property list of [JSON.stringify]:
    increasing code-unit order, each name once. *)
Definition sorted_keys (props : list (string * value)) : list string :=
  fold_right insert_sorted [] (map fst props).

Definition index_keys {A} (l : list A) : list string :=
  map (fun i : nat => pretty i) (seq 0 (length l)).

(** [{ ...v }]: the own enumerable properties of [v]. *)
Definition spread (v : value) : list (string * value) :=
  match v with
  | VObj props => props
  | VArr items => combine (index_keys items) items
  | VStr s =>
      let cs := JS.chars s in
      combine (index_keys cs) (map (fun c => VStr (String c EmptyString)) cs)
  | _ => []
  end.

(** [s.replace(pat, rep)] for a string pattern: the first occurrence. *)
Fixpoint replace_first (pat rep s : list ascii) : list ascii :=
  if JS.starts_with pat s then rep ++ drop (length pat) s
  else match s with
       | [] => []
       | c :: s' => c :: replace_first pat rep s'
       end.

Definition replace (s pat rep : string) : string :=
  JS.str (replace_first (JS.chars pat) (JS.chars rep) (JS.chars s)).

Definition obj_status (r : value) : option string :=
  match get r "status" with
  | VStr s => Some s
  | _ => None
  end.

(** [a === b] on primitives; two objects or arrays met here are never the
    same reference. *)
Definition strict_eq (a b : value) : bool :=
  match a, b with
  | VUndefined, VUndefined => true
  | VNull, VNull => true
  | VBool x, VBool y => Bool.eqb x y
  | VNum x, VNum y => Z.eqb x y
  | VStr x, VStr y => String.eqb x y
  | _, _ => false
  end.

End Json.

(** ** Agent context, error evolution, tool layer and orchestrator
    ([core/agent_prompt.js], [core/agent_tools.js], [cli/index.js]) *)

Module Agent.

Import Json.

(** *** Records of the agent context *)

(** A parsed error, also in its later lives as the current blocking error
    and as a solved issue; the fields those lives add are optional. *)
Record error_record := {
  type : string;
  message : string;
  raw_output : string;
  file_refs : list string;
  line_refs : list Z;
  timestamp : string;
  first_seen_step : option Z;
  last_seen_step : option Z;
  status : option string;
  resolution_step : option Z;
  resolved_at : option string
}.

Record progression_entry := {
  step : Z;
  error_detected : option error_record;
  previous_error : option error_record;
  recorded_at : string
}.

(** [action_taken] of a step.  The orchestrator's planner path stores
    [{tool_used, tool_to_use, parameters}]; its recovery path stores the
    fallback action [{tool_to_use, tool_parameters}] as it is. *)
Record action := {
  tool_used : option string;
  tool_to_use : option string;
  parameters : option value;
  tool_parameters : option value
}.

Record history_step := {
  step_no : Z;
  thought : string;
  action_taken : action;
  step_result : value
}.

Record recent_action := {
  signature : string;
  action_step : Z;
  tool : option string;
  action_parameters : option value;
  action_result : value
}.

Record file_state_record := {
  discovered_files : list string;
  primary_error_file : option string;
  file_mappings : gmap string string
}.

Record constraints_record := {
  max_session_steps : option Z
}.

(** The fields of the agent context that the embedded functions read or
    write.  [files_read] is [knowledge_base.files_read]: the own properties
    of that object, each with the value stored under it. *)
Record context := {
  current_working_directory : string;
  session_history : list history_step;
  recent_actions : list recent_action;
  solved_issues : list error_record;
  current_blocking_error : option error_record;
  error_progression : list progression_entry;
  files_read : gmap string value;
  file_state : option file_state_record;
  constraints : option constraints_record
}.

Definition with_history (c : context) (h : list history_step) : context :=
  {| current_working_directory := current_working_directory c;
     session_history := h; recent_actions := recent_actions c;
     solved_issues := solved_issues c;
     current_blocking_error := current_blocking_error c;
     error_progression := error_progression c; files_read := files_read c;
     file_state := file_state c; constraints := constraints c |}.

Definition with_recent (c : context) (r : list recent_action) : context :=
  {| current_working_directory := current_working_directory c;
     session_history := session_history c; recent_actions := r;
     solved_issues := solved_issues c;
     current_blocking_error := current_blocking_error c;
     error_progression := error_progression c; files_read := files_read c;
     file_state := file_state c; constraints := constraints c |}.

Definition with_files_read (c : context) (f : gmap string value) : context :=
  {| current_working_directory := current_working_directory c;
     session_history := session_history c; recent_actions := recent_actions c;
     solved_issues := solved_issues c;
     current_blocking_error := current_blocking_error c;
     error_progression := error_progression c; files_read := f;
     file_state := file_state c; constraints := constraints c |}.

Definition with_errors (c : context) (solved : list error_record)
    (current : option error_record) (progression : list progression_entry) : context :=
  {| current_working_directory := current_working_directory c;
     session_history := session_history c; recent_actions := recent_actions c;
     solved_issues := solved;
     current_blocking_error := current;
     error_progression := progression; files_read := files_read c;
     file_state := file_state c; constraints := constraints c |}.

(** *** Error evolution engine *)

Definition is_line_terminator (c : ascii) : bool :=
  (JS.code c =? 10)%nat || (JS.code c =? 13)%nat.

(** A match of [/<prefix>(.+)/] at the head of [s]: the capture runs to the
    end of the line and is not empty. *)
Definition capture_at (prefix s : list ascii) : option (list ascii) :=
  if JS.starts_with prefix s then
    match fst (JS.span (fun c => negb (is_line_terminator c)) (drop (length prefix) s)) with
    | [] => None
    | cap => Some cap
    end
  else None.

(** [output.match(/<prefix>(.+)/)]: the leftmost match. *)
Fixpoint first_capture (prefix s : list ascii) : option (list ascii) :=
  match capture_at prefix s with
  | Some cap => Some cap
  | None =>
      match s with
      | [] => None
      | _ :: s' => first_capture prefix s'
      end
  end.

(** The types of [errorPatterns], in priority order; the pattern of type
    [T] is [/T: (.+)/]. *)
Definition errorPatterns : list string := [
  "ModuleNotFoundError"; "KeyError"; "FileNotFoundError"; "SyntaxError";
  "ImportError"; "AttributeError"; "ValueError"; "TypeError";
  "Error"; "Exception"
].

Fixpoint first_pattern (patterns : list string) (output : list ascii)
    : option (string * string) :=
  match patterns with
  | [] => None
  | t :: rest =>
      match first_capture (JS.chars (t +:+ ": ")) output with
      | Some cap => Some (t, JS.str cap)
      | None => first_pattern rest output
      end
  end.

(** A global scan: [match_at] answers a capture and the length of the match
    at the head of the text; the next search resumes behind the match. *)
Fixpoint scan {A} (match_at : list ascii -> option (A * nat)) (skip : nat)
    (s : list ascii) : list A :=
  match s with
  | [] => []
  | _ :: s' =>
      match skip with
      | S n => scan match_at n s'
      | O =>
          match match_at s with
          | Some (cap, len) => cap :: scan match_at (len - 1) s'
          | None => scan match_at 0 s'
          end
      end
  end.

Definition file_open : list ascii := JS.chars "File " ++ [dq].

(** The pattern [File], a space, a double quote, one or more characters
    other than a double quote, a double quote, at the head of [s]. *)
Definition file_ref_at (s : list ascii) : option (string * nat) :=
  if JS.starts_with file_open s then
    match JS.span (fun c => negb (Ascii.eqb c dq)) (drop (length file_open) s) with
    | (c :: cap, _ :: _) => Some (JS.str (c :: cap), (length file_open + length (c :: cap) + 1)%nat)
    | _ => None
    end
  else None.

Definition extractFileReferences (output : string) : list string :=
  JS.uniq String.eqb [] (scan file_ref_at 0 (JS.chars output)).

(** The natural number that a run of decimal digits writes. *)
Definition numeral_value (digits : list ascii) : Z :=
  fold_left (fun acc c => 10 * acc + Z.of_nat (JS.code c - 48)) digits 0.

(** The double nearest to the natural number [n], ties going to the even
    significand of 53 bits: [n] itself below [2^53].  (From [2^1024 - 2^970]
    on the nearest double is [Infinity], which the embedding of numbers as
    integers does not hold.) *)
Definition to_double (n : Z) : Z :=
  let bits := Z.log2 n + 1 in
  if Z.leb bits 53 then n
  else
    let shift := bits - 53 in
    let q := Z.shiftr n shift in
    let r := n - Z.shiftl q shift in
    let half := Z.shiftl 1 (shift - 1) in
    let q' :=
      if Z.ltb r half then q
      else if Z.ltb half r then q + 1
      else if Z.even q then q else q + 1 in
    Z.shiftl q' shift.

(** [parseInt] of a run of decimal digits: a number, so the double of the
    numeral. *)
Definition parseInt (digits : list ascii) : Z := to_double (numeral_value digits).

(** [/line (\d+)/] at the head of [s]. *)
Definition line_ref_at (s : list ascii) : option (Z * nat) :=
  if JS.starts_with (JS.chars "line ") s then
    match fst (JS.span JS.is_digit (drop 5 s)) with
    | [] => None
    | ds => Some (parseInt ds, (5 + length ds)%nat)
    end
  else None.

Definition extractLineNumbers (output : string) : list Z :=
  JS.uniq Z.eqb [] (scan line_ref_at 0 (JS.chars output)).

Definition parsed (t m output now : string) (files : list string) (lines : list Z)
    : error_record :=
  {| type := t; message := m; raw_output := output; file_refs := files;
     line_refs := lines; timestamp := now; first_seen_step := None;
     last_seen_step := None; status := None; resolution_step := None;
     resolved_at := None |}.

(** [now] is the reading of the clock ([new Date().toISOString()]). *)
Definition parseErrorFromOutput (now : string) (output : string) : option error_record :=
  if String.eqb output "" then None
  else
    match first_pattern errorPatterns (JS.chars output) with
    | Some (t, cap) =>
        Some (parsed t (JS.trim cap) output now
                (extractFileReferences output) (extractLineNumbers output))
    | None =>
        if JS.includes output "command not found" || JS.includes output "not recognized"
        then Some (parsed "CommandNotFound" (JS.trim output) output now [] [])
        else None
    end.

Record comparison_result := {
  is_new_error : bool;
  is_same_error : bool;
  is_progression : bool;
  resolution_status : string
}.

Definition same_files (a b : list string) : bool := bool_decide (a = b).

Definition compareErrors (previousError currentError : option error_record)
    : comparison_result :=
  match previousError, currentError with
  | Some p, Some c =>
      let sameType := String.eqb (type p) (type c) in
      let sameMessage := String.eqb (message p) (message c) in
      let sameFiles := same_files (file_refs p) (file_refs c) in
      {| is_same_error := sameType && sameMessage && sameFiles;
         is_progression := sameFiles && negb sameType;
         is_new_error := negb sameType && negb sameFiles;
         resolution_status :=
           if sameType && sameMessage then "persisted"
           else if sameFiles then "progressed" else "evolved" |}
  | _, _ =>
      {| is_new_error := bool_decide (is_Some currentError) && negb (bool_decide (is_Some previousError));
         is_same_error := false;
         is_progression := false;
         resolution_status :=
           match currentError with Some _ => "new" | None => "resolved" end |}
  end.

(** [{ ...e, resolution_step, status: "resolved", resolved_at }] *)
Definition resolved (e : error_record) (resolutionStep : Z) (now : string) : error_record :=
  {| type := type e; message := message e; raw_output := raw_output e;
     file_refs := file_refs e; line_refs := line_refs e; timestamp := timestamp e;
     first_seen_step := first_seen_step e; last_seen_step := last_seen_step e;
     status := Some "resolved"; resolution_step := Some resolutionStep;
     resolved_at := Some now |}.

(** [{ ...e, first_seen_step, last_seen_step?, status: "active" }] *)
Definition active (e : error_record) (firstSeen : Z) (lastSeen : option Z) : error_record :=
  {| type := type e; message := message e; raw_output := raw_output e;
     file_refs := file_refs e; line_refs := line_refs e; timestamp := timestamp e;
     first_seen_step := Some firstSeen;
     last_seen_step := match lastSeen with Some l => Some l | None => last_seen_step e end;
     status := Some "active"; resolution_step := resolution_step e;
     resolved_at := resolved_at e |}.

(** [x || d] on an optional number: a missing number and zero are falsy. *)
Definition or_else (x : option Z) (d : Z) : Z :=
  match x with
  | Some n => if Z.eqb n 0 then d else n
  | None => d
  end.

Definition updateErrorState (now : string) (ctx : context) (newErrorOutput : string)
    (currentStep : Z) : context :=
  let previousError := current_blocking_error ctx in
  let parsedError := parseErrorFromOutput now newErrorOutput in
  let progression :=
    error_progression ctx ++
    [{| step := currentStep; error_detected := parsedError;
        previous_error := previousError; recorded_at := now |}] in
  match parsedError with
  | None =>
      match previousError with
      | Some p =>
          with_errors ctx (solved_issues ctx ++ [resolved p currentStep now]) None progression
      | None => with_errors ctx (solved_issues ctx) previousError progression
      end
  | Some e =>
      let errorComparison := compareErrors previousError parsedError in
      if is_new_error errorComparison || is_progression errorComparison then
        let solved :=
          match previousError with
          | Some p => solved_issues ctx ++ [resolved p (currentStep - 1) now]
          | None => solved_issues ctx
          end in
        with_errors ctx solved (Some (active e currentStep None)) progression
      else if is_same_error errorComparison then
        let firstSeen :=
          or_else (match previousError with
                   | Some p => first_seen_step p
                   | None => None
                   end) currentStep in
        with_errors ctx (solved_issues ctx)
          (Some (active e firstSeen (Some currentStep))) progression
      else with_errors ctx (solved_issues ctx) previousError progression
  end.

(** *** The environment of a tool invocation

    What the sources obtain from the runtime, the file system, the terminal
    and from modules outside the embedded files is read from a [World]:
    - [process_cwd] is [process.cwd()], [clock] is
      [new Date().toISOString()];
    - [path_resolve], [path_relative] are [path.resolve], [path.relative];
      [path_type_error v] is the message of the [TypeError] that
      [path.resolve] throws for an argument [v] that is not a string, and
      [path_member_error name] is that message for the value that
      [Object.prototype] holds under [name];
    - [existsSync], [readFile] are [fs.existsSync], [fsPromises.readFile];
    - [readFileContext] is the function of that name of
      [utils/traceback.js]; it answers [(content, start, end)];
    - [runCommand] is the function of that name of [utils/cliTools.js]: it
      makes its argument a string, runs it in a subprocess and catches the
      failures of the subprocess itself;
    - [askYesNo], [askInput], [display] are the terminal ([display] is
      [console.log(boxen(...))]);
    - [tool_body name] is the run of the body of the tool [name] for the
      tools whose bodies are walks of the file system or dialogues with the
      user ([list_directory_contents], [propose_code_patch],
      [search_file_content], [get_file_structure] and, in the variant that
      has it, [initial_error_analyzer]): [Returned (ok, payload)] when the
      body reaches one of its [return] statements, all of which carry the
      status [success] ([ok = true]) or [error] ([ok = false]), [Thrown]
      when it throws;
    - [inherited_call name] is the call of the property [name] that the
      table of tool functions inherits from [Object.prototype]. *)
Record World := {
  process_cwd : string;
  clock : string;
  path_resolve : string -> string -> string;
  path_relative : string -> string -> string;
  path_type_error : value -> string;
  path_member_error : string -> string;
  existsSync : string -> bool;
  readFile : string -> completion string;
  readFileContext : string -> value -> option Z -> completion (string * value * value);
  runCommand : value -> bool * string;
  askYesNo : string -> completion bool;
  askInput : string -> completion string;
  display : value -> completion unit;
  tool_body : string -> value -> context -> completion (bool * list (string * value));
  inherited_call : string -> value -> context -> completion value
}.

Definition tool_fn : Type := value -> context -> completion value.

Definition error_result (msg : string) : value :=
  VObj [("status", VStr "error"); ("message", VStr msg)].

(** [try { body } catch (error) { return { status: "error", message:
    `<prefix>${error.message}` } }] *)
Definition catching (prefix : string) (body : completion value) : completion value :=
  match body with
  | Returned r => Returned r
  | Thrown e => Returned (error_result (prefix +:+ e))
  end.

(** [context.current_working_directory || '.'] *)
Definition cwd_or_dot (ctx : context) : string :=
  if String.eqb (current_working_directory ctx) "" then "."
  else current_working_directory ctx.

(** *** Object literals used as dictionaries

    [files_read] and [file_mappings] are object literals indexed by file
    names.  Such an object is embedded as the finite map of its own
    properties.  A name it does not own is looked up on [Object.prototype],
    which answers the names of [object_prototype_names]: functions, and
    under [__proto__] the prototype itself, all of them truthy and none of
    them a string. *)

(** The names every object literal inherits from [Object.prototype]. *)
Definition object_prototype_names : list string := [
  "constructor"; "__proto__"; "hasOwnProperty"; "isPrototypeOf";
  "propertyIsEnumerable"; "toString"; "toLocaleString"; "valueOf";
  "__defineGetter__"; "__defineSetter__"; "__lookupGetter__"; "__lookupSetter__"
].

Inductive property (A : Type) : Type :=
| OwnProperty (v : A)
| PrototypeProperty
| NoProperty.
Arguments OwnProperty {A} v.
Arguments PrototypeProperty {A}.
Arguments NoProperty {A}.

(** [o[k]] *)
Definition read_property {A} (o : gmap string A) (k : string) : property A :=
  match o !! k with
  | Some v => OwnProperty v
  | None => if JS.mem k object_prototype_names then PrototypeProperty else NoProperty
  end.

(** [o[k] = v] for a value [v] of JSON.  Under [__proto__], unless the
    object owns a property of that name, the assignment reaches the setter
    of [Object.prototype], which adds no property: it ignores a value that
    is not an object (with an object it replaces the prototype of [o],
    which the embedding of [o] by its own properties does not hold). *)
Definition write_property {A} (o : gmap string A) (k : string) (v : A) : gmap string A :=
  match o !! k with
  | Some _ => <[k := v]> o
  | None => if String.eqb k "__proto__" then o else <[k := v]> o
  end.

(** *** File-state resolution *)

(** What [resolveFileWithState] answers: a path, or the value that
    [Object.prototype] holds under the requested name, which the table of
    mappings inherits. *)
Inductive resolution :=
| ResolvedPath (p : string)
| PrototypeMember (name : string).

Definition resolveFileWithState (w : World) (requestedPath : string) (ctx : context)
    : resolution :=
  match file_state ctx with
  | None => ResolvedPath requestedPath
  | Some fs =>
      match read_property (file_mappings fs) requestedPath with
      | PrototypeProperty => PrototypeMember requestedPath
      | mapping =>
          let mapped := match mapping with OwnProperty m => m | _ => "" end in
          if negb (String.eqb mapped "") then ResolvedPath mapped
          else if existsSync w (path_resolve w (cwd_or_dot ctx) requestedPath)
          then ResolvedPath requestedPath
          else
            match primary_error_file fs with
            | Some p => if negb (String.eqb p "") then ResolvedPath p
                        else match discovered_files fs with
                             | f :: _ => ResolvedPath f
                             | [] => ResolvedPath requestedPath
                             end
            | None =>
                match discovered_files fs with
                | f :: _ => ResolvedPath f
                | [] => ResolvedPath requestedPath
                end
            end
      end
  end.

(** *** [read_file_content] *)

Definition READ_FILE_CONTENT : string := "read_file_content".

Definition is_tool (name : string) (a : action) : bool :=
  bool_decide (tool_used a = Some name) || bool_decide (tool_to_use a = Some name).

(** [step.action_taken.parameters?.file_path] *)
Definition recorded_file_path (s : history_step) : value :=
  match parameters (action_taken s) with
  | Some p => get p "file_path"
  | None => VUndefined
  end.

(** [session_history.findLast(...)] of the cache test. *)
Definition last_read (ctx : context) (file_path : value) : option history_step :=
  List.find
    (fun s => is_tool READ_FILE_CONTENT (action_taken s) &&
              strict_eq (recorded_file_path s) file_path)
    (rev (session_history ctx)).

Definition history_length (ctx : context) : Z := Z.of_nat (length (session_history ctx)).

Definition line_count (text : string) : Z :=
  Z.of_nat (length (JS.split "010"%char text)).

(** The cache test of [read_file_content]: a full-file read, a truthy
    [files_read[relativePath]], and a last read of the requested path less
    than three steps back.  When it passes, the entry and the step found. *)
Definition property_truthy (p : property value) : bool :=
  match p with
  | OwnProperty v => truthy v
  | PrototypeProperty => true
  | NoProperty => false
  end.

Definition cache_test (ctx : context) (params : value) (file_path : value)
    (relativePath : string) : option (property value * history_step) :=
  let entry := read_property (files_read ctx) relativePath in
  if negb (truthy (get params "start_line")) && negb (truthy (get params "end_line")) &&
     property_truthy entry
  then
    match last_read ctx file_path with
    | Some lastRead =>
        if Z.ltb (history_length ctx - step_no lastRead) 3 then Some (entry, lastRead)
        else None
    | None => None
    end
  else None.

(** The answer built from the entry: it counts the lines with [.split],
    which strings have and no other value of the cache has. *)
Definition cached_answer (relativePath : string) (entry : property value)
    (lastRead : history_step) : completion value :=
  match entry with
  | OwnProperty (VStr cached) =>
      Returned (VObj [("status", VStr "success");
                      ("file_path", VStr relativePath);
                      ("content", VStr cached);
                      ("note", VStr ("Using cached content from step " +:+ pretty (step_no lastRead)));
                      ("cached", VBool true);
                      ("lines_read", VArr [VNum 1; VNum (line_count cached)]);
                      ("total_lines", VNum (line_count cached))])
  | _ => Thrown "context.knowledge_base.files_read[relativePath].split is not a function"
  end.

(** The answer served from [files_read], when the cache test passes. *)
Definition cached_read (ctx : context) (params : value) (file_path : value)
    (relativePath : string) : option (completion value) :=
  option_map (fun hit => cached_answer relativePath (fst hit) (snd hit))
    (cache_test ctx params file_path relativePath).

(** A number operand; anything else makes the arithmetic answer [NaN],
    which is [None]. *)
Definition to_num (v : value) : option Z :=
  match v with
  | VNum n => Some n
  | _ => None
  end.

Definition read_file_body (w : World) (params : value) (ctx : context) : completion value :=
  try! file_path <- destructure params "file_path";
  let start_line := get params "start_line" in
  let end_line := get params "end_line" in
  match file_path with
  | VStr fp =>
      match resolveFileWithState w fp ctx with
      | PrototypeMember name => Thrown (path_member_error w name)
      | ResolvedPath resolvedFilePath =>
      let resolvedPath := path_resolve w (cwd_or_dot ctx) resolvedFilePath in
      let relativePath := path_relative w (cwd_or_dot ctx) resolvedPath in
      match cached_read ctx params file_path relativePath with
      | Some answer => answer
      | None =>
          if negb (existsSync w resolvedPath) then
            Returned (error_result ("File not found: " +:+ fp))
          else if truthy start_line || truthy end_line then
            let first := if truthy start_line then start_line else VNum 1 in
            let count :=
              if truthy end_line
              then match to_num end_line, to_num first with
                   | Some e, Some s => Some (e - s + 1)
                   | _, _ => None
                   end
              else Some 50 in
            try! contextResult <- readFileContext w resolvedPath first count;
            let '(text, first_read, last_read) := contextResult in
            Returned (VObj [("status", VStr "success");
                            ("file_path", VStr relativePath);
                            ("content", VStr text);
                            ("lines_read", VArr [first_read; last_read]);
                            ("total_lines", VNum (line_count text))])
          else
            try! text <- readFile w resolvedPath;
            Returned (VObj [("status", VStr "success");
                            ("file_path", VStr relativePath);
                            ("content", VStr text);
                            ("lines_read", VArr [VNum 1; VNum (line_count text)]);
                            ("total_lines", VNum (line_count text))])
      end
      end
  | _ =>
      (* [path.resolve] throws on a path that is not a string.  (A mapping
         recorded under the string form of such a value would be taken
         first; mappings are recorded under file names.) *)
      Thrown (path_type_error w file_path)
  end.

Definition read_file_content (w : World) : tool_fn :=
  fun params ctx => catching "Failed to read file: " (read_file_body w params ctx).

(** *** The other tools *)

Definition dangerousCommands : list string :=
  ["rm"; "del"; "format"; "mkfs"; "dd"; "mv"; "cp"; ">"; ">>"; "sudo"].

(** A value inside a template literal. *)
Definition template (o : option string) : string := default "undefined" o.

Definition command_result (ok : bool) (output : string) : list (string * value) :=
  [("stdout", VStr output);
   ("stderr", VStr (if ok then "" else output));
   ("exit_code", VNum (if ok then 0 else 1))].

Definition run_diagnostic_body (w : World) (params : value) : completion value :=
  try! command_string <- destructure params "command_string";
  match command_string with
  | VStr cmd =>
      if String.eqb cmd "" then
        Returned (error_result ("Invalid command_string parameter: " +:+
                                template (stringify None command_string)))
      else if existsb (fun d => JS.includes (JS.toLowerCase cmd) d) dangerousCommands then
        Returned (error_result ("Command '" +:+ cmd +:+
                                "' appears to be potentially destructive and is not allowed"))
      else
        let '(ok, output) := runCommand w command_string in
        Returned (VObj (("status", VStr (if ok then "success" else "error")) ::
                        ("command", VStr cmd) :: command_result ok output))
  | _ =>
      Returned (error_result ("Invalid command_string parameter: " +:+
                              template (stringify None command_string)))
  end.

Definition run_diagnostic_command (w : World) : tool_fn :=
  fun params _ => catching "Failed to execute command: " (run_diagnostic_body w params).

Definition propose_fix_body (w : World) (params : value) : completion value :=
  try! command_to_propose <- destructure params "command_to_propose";
  let command_description := get params "command_description" in
  try! _ <- (if truthy command_description then display w command_description
             else Returned tt);
  try! _ <- display w command_to_propose;
  try! confirmed <- askYesNo w "Run this command?";
  if negb confirmed then
    Returned (VObj [("status", VStr "success");
                    ("user_confirmation", VBool false);
                    ("message", VStr "Command was rejected by user")])
  else
    try! _ <- display w command_to_propose;
    let '(ok, output) := runCommand w command_to_propose in
    Returned (VObj [("status", VStr "success");
                    ("user_confirmation", VBool true);
                    ("command_output",
                      VObj (command_result ok output ++ [("success", VBool ok)]));
                    ("message", VStr (if ok then "Command executed successfully"
                                      else "Command failed"))]).

Definition propose_fix_by_command (w : World) : tool_fn :=
  fun params _ => catching "Failed to execute command: " (propose_fix_body w params).

Definition ask_user_body (w : World) (params : value) : completion value :=
  try! question_for_user <- destructure params "question_for_user";
  try! _ <- display w question_for_user;
  try! response <- askInput w "Your response: ";
  Returned (VObj [("status", VStr "success"); ("user_response", VStr (JS.trim response))]).

Definition ask_user_for_clarification (w : World) : tool_fn :=
  fun params _ => catching "Failed to get user response: " (ask_user_body w params).

(** [finish_debugging] has no [catch] of its own: computing the title calls
    [final_status.replace], which throws when [final_status] is not a
    string. *)
Definition finish_debugging (w : World) : tool_fn :=
  fun params _ =>
    try! conclusion_message_for_user <- destructure params "conclusion_message_for_user";
    let final_status := get params "final_status" in
    match final_status with
    | VStr _ =>
        try! _ <- display w conclusion_message_for_user;
        Returned (VObj [("status", VStr "finished");
                        ("final_status", final_status);
                        ("message", conclusion_message_for_user)])
    | VUndefined =>
        Thrown "Cannot read properties of undefined (reading 'replace')"
    | VNull =>
        Thrown "Cannot read properties of null (reading 'replace')"
    | _ => Thrown "final_status.replace is not a function"
    end.

(** A tool whose body is run by the environment, inside the tool's own
    [try]/[catch].  A [tool_fn] gives the answer of the tool; what the tool
    leaves of the parameter object it was given is not part of it (of the
    tools, [search_file_content] in [utils/cliTools.js] changes that
    object: it sorts [params.file_extensions] in place). *)
Definition environment_tool (w : World) (name prefix : string) : tool_fn :=
  fun params ctx =>
    catching prefix
      (try! outcome <- tool_body w name params ctx;
       let '(ok, payload) := outcome in
       Returned (VObj (("status", VStr (if ok : bool then "success" else "error")) :: payload))).

Definition list_directory_contents (w : World) : tool_fn :=
  environment_tool w "list_directory_contents" "Failed to list directory contents: ".
Definition propose_code_patch (w : World) : tool_fn :=
  environment_tool w "propose_code_patch" "Failed to apply patch: ".
Definition search_file_content (w : World) : tool_fn :=
  environment_tool w "search_file_content" "Failed to search files: ".
Definition get_file_structure (w : World) : tool_fn :=
  environment_tool w "get_file_structure" "Failed to get file structure: ".
Definition initial_error_analyzer (w : World) : tool_fn :=
  environment_tool w "initial_error_analyzer" "Failed to analyze error: ".

(** *** Deduplication gate *)

(** The path normalisation of one parameter: [replace] exists on strings
    only. *)
Definition normalize_path (w : World) (k : string) (keyParams : list (string * value))
    : completion (list (string * value)) :=
  let v := default VUndefined (assoc k keyParams) in
  if truthy v then
    match v with
    | VStr s => Returned (set_prop k (VStr (replace s (process_cwd w) ".")) keyParams)
    | _ => Thrown ("keyParams." +:+ k +:+ ".replace is not a function")
    end
  else Returned keyParams.

Definition createActionSignature (w : World) (toolName : string) (params : value)
    : completion string :=
  let keyParams := spread params in
  try! keyParams1 <- normalize_path w "file_path" keyParams;
  try! keyParams2 <- normalize_path w "directory_path" keyParams1;
  Returned (toolName +:+ ":" +:+
            template (stringify (Some (sorted_keys keyParams2)) (VObj keyParams2))).

Record skip_check := {
  should_skip : bool;
  duplicate_step : option Z;
  reason : option string
}.

Definition recentSteps : Z := 3.

Definition is_recent_duplicate (ctx : context) (actionSignature : string)
    (a : recent_action) : bool :=
  String.eqb (signature a) actionSignature &&
  Z.ltb (history_length ctx - recentSteps) (action_step a).

Definition shouldSkipAction (w : World) (toolName : string) (params : value)
    (ctx : context) : completion skip_check :=
  try! actionSignature <- createActionSignature w toolName params;
  let recentDuplicate := List.find (is_recent_duplicate ctx actionSignature) (recent_actions ctx) in
  Returned
    {| should_skip := bool_decide (is_Some recentDuplicate);
       duplicate_step := option_map action_step recentDuplicate;
       reason := option_map
                   (fun d => "Identical action performed in step " +:+ pretty (action_step d))
                   recentDuplicate |}.

(** *** Tool dispatcher *)

Definition optional_num (o : option Z) : value :=
  match o with
  | Some n => VNum n
  | None => VUndefined
  end.

(** [context.recent_actions.find(a => a.step === d)?.result] *)
Definition previous_result (ctx : context) (d : option Z) : value :=
  match d with
  | Some n =>
      match List.find (fun a => Z.eqb (action_step a) n) (recent_actions ctx) with
      | Some a => action_result a
      | None => VUndefined
      end
  | None => VUndefined
  end.

Definition skipped_result (ctx : context) (skipCheck : skip_check) : value :=
  VObj [("status", VStr "skipped");
        ("message", VStr ("Action skipped - " +:+ template (reason skipCheck)));
        ("duplicate_step", optional_num (duplicate_step skipCheck));
        ("previous_result", previous_result ctx (duplicate_step skipCheck))].

(** The own properties of the table [toolFunctions], in the variant that
    seeds the analysis at session start and in the variant that keeps an
    [initial_error_analyzer] tool. *)
Definition toolFunctions_seeded (w : World) : list (string * tool_fn) := [
  ("list_directory_contents", list_directory_contents w);
  ("read_file_content", read_file_content w);
  ("run_diagnostic_command", run_diagnostic_command w);
  ("propose_code_patch", propose_code_patch w);
  ("propose_fix_by_command", propose_fix_by_command w);
  ("ask_user_for_clarification", ask_user_for_clarification w);
  ("search_file_content", search_file_content w);
  ("get_file_structure", get_file_structure w);
  ("finish_debugging", finish_debugging w)
].

Definition toolFunctions_analyzer (w : World) : list (string * tool_fn) :=
  ("initial_error_analyzer", initial_error_analyzer w) :: toolFunctions_seeded w.

Inductive lookup_result :=
| Own (f : tool_fn)
| Inherited
| Missing.

(** [toolFunctions[toolName]] *)
Definition lookup_tool (toolFunctions : list (string * tool_fn)) (toolName : string)
    : lookup_result :=
  match assoc toolName toolFunctions with
  | Some f => Own f
  | None => if JS.mem toolName object_prototype_names then Inherited else Missing
  end.

Definition executeAgentTool (toolFunctions : list (string * tool_fn)) (w : World)
    (toolName : string) (params : value) (ctx : context) : completion value :=
  try! skipCheck <- shouldSkipAction w toolName params ctx;
  if should_skip skipCheck then Returned (skipped_result ctx skipCheck)
  else
    match lookup_tool toolFunctions toolName with
    | Missing => Returned (error_result ("Unknown tool: " +:+ toolName))
    | Own toolFunction =>
        catching "Tool execution failed: " (toolFunction params ctx)
    | Inherited =>
        catching "Tool execution failed: " (inherited_call w toolName params ctx)
    end.

(** *** Context update after a tool ran *)

(** [a || b] on optional strings: a missing string and the empty string are
    falsy. *)
Definition or_string (a b : option string) : option string :=
  match a with
  | Some s => if String.eqb s "" then b else a
  | None => b
  end.

(** [actionTaken.tool_to_use || actionTaken.tool_used] *)
Definition action_tool (a : action) : option string :=
  or_string (tool_to_use a) (tool_used a).

(** [arr.slice(-n)] *)
Definition slice_last {A} (n : nat) (l : list A) : list A :=
  drop (length l - n) l.

Definition recorded_step (stepNo : Z) (thought : string) (actionTaken : action)
    (result : value) : history_step :=
  {| step_no := stepNo; thought := thought; action_taken := actionTaken;
     step_result := result |}.

Definition recorded_recent (stepNo : Z) (actionTaken : action) (result : value)
    (actionSignature : string) : recent_action :=
  {| signature := actionSignature; action_step := stepNo;
     tool := action_tool actionTaken;
     action_parameters := parameters actionTaken;
     action_result := result |}.

(** [result.status] throws on [null] and [undefined].  The answers of
    [read_file_content] name the file by a string, and only such a
    [result.file_path] is taken as the name under which the content is
    stored. *)
Definition updateAgentContext (w : World) (ctx : context) (stepNo : Z) (thought : string)
    (actionTaken : action) (result : value) : completion context :=
  let history := session_history ctx ++ [recorded_step stepNo thought actionTaken result] in
  try! actionSignature <-
    createActionSignature w (template (action_tool actionTaken))
      (default VUndefined (parameters actionTaken));
  let recent :=
    recent_actions ctx ++ [recorded_recent stepNo actionTaken result actionSignature] in
  let recent' := if (10 <? length recent)%nat then slice_last 10 recent else recent in
  match result with
  | VUndefined => Thrown "Cannot read properties of undefined (reading 'status')"
  | VNull => Thrown "Cannot read properties of null (reading 'status')"
  | _ =>
      let files :=
        if strict_eq (get result "status") (VStr "success") &&
           is_tool READ_FILE_CONTENT actionTaken && truthy (get result "content")
        then
          match get result "file_path" with
          | VStr path => write_property (files_read ctx) path (get result "content")
          | _ => files_read ctx
          end
        else files_read ctx in
      Returned (with_files_read (with_recent (with_history ctx history) recent') files)
  end.

(** The pushes of [updateAgentContext] are made on the arrays of its
    argument, which the copy shares.  When the call throws, the caller keeps
    its context with what was pushed by then: the step, and the recent
    action once the signature is computed (the cut to ten entries is
    assigned to the copy only). *)
Definition interrupted_update (w : World) (ctx : context) (stepNo : Z) (thought : string)
    (actionTaken : action) (result : value) : context :=
  let history := session_history ctx ++ [recorded_step stepNo thought actionTaken result] in
  match createActionSignature w (template (action_tool actionTaken))
          (default VUndefined (parameters actionTaken)) with
  | Thrown _ => with_history ctx history
  | Returned actionSignature =>
      with_recent (with_history ctx history)
        (recent_actions ctx ++ [recorded_recent stepNo actionTaken result actionSignature])
  end.

(** *** Termination policy *)

Record termination_check := {
  should_terminate : bool;
  termination_reason : option string
}.

(** [agentContext.constraints?.max_session_steps || 20] *)
Definition maxSteps (ctx : context) : Z :=
  or_else (match constraints ctx with
           | Some c => max_session_steps c
           | None => None
           end) 20.

Definition failed (s : history_step) : bool :=
  strict_eq (get (step_result s) "status") (VStr "error").

Definition shouldTerminateSession (ctx : context) : termination_check :=
  let currentSteps := history_length ctx in
  if Z.leb (maxSteps ctx) currentSteps then
    {| should_terminate := true;
       termination_reason :=
         Some ("Maximum session steps (" +:+ pretty (maxSteps ctx) +:+ ") reached") |}
  else
    let recent := slice_last 3 (session_history ctx) in
    let failedSteps := filter failed recent in
    if (3 <=? length failedSteps)%nat then
      {| should_terminate := true;
         termination_reason := Some "Multiple consecutive failures detected" |}
    else {| should_terminate := false; termination_reason := None |}.

(** *** The orchestrator loop ([debugLoop])

    [planner ctx] is the outcome of [determineNextAgentAction] and of the
    assembly of the prompt shown with the decision: the next action, or the
    exception either raised. *)

Record agent_action := {
  planned_thought : string;
  planned_tool : string;
  planned_parameters : value
}.

(** What one turn of the loop leaves: the context, whether the loop goes
    on, and the calls of the dispatcher it made, in order. *)
Record turn := {
  next_context : context;
  goes_on : bool;
  dispatched : list (string * value)
}.

Definition ASK_USER : string := "ask_user_for_clarification".

(** The [catch] clause of a turn: one recovery attempt through
    [ask_user_for_clarification]. *)
Definition recover (toolFunctions : list (string * tool_fn)) (w : World) (ctx : context)
    (stepCount : Z) (errorMessage : string) (calls : list (string * value)) : turn :=
  let question :=
    VObj [("question_for_user",
           VStr ("I encountered an error: " +:+ errorMessage +:+
                 ". How would you like me to proceed?"))] in
  let fallbackAction :=
    {| tool_used := None; tool_to_use := Some ASK_USER;
       parameters := None; tool_parameters := Some question |} in
  let calls' := calls ++ [(ASK_USER, question)] in
  match executeAgentTool toolFunctions w ASK_USER question ctx with
  | Thrown _ => {| next_context := ctx; goes_on := false; dispatched := calls' |}
  | Returned userGuidance =>
      match updateAgentContext w ctx stepCount
              ("Recovery attempt after error: " +:+ errorMessage)
              fallbackAction userGuidance with
      | Thrown _ =>
          {| next_context :=
               interrupted_update w ctx stepCount
                 ("Recovery attempt after error: " +:+ errorMessage)
                 fallbackAction userGuidance;
             goes_on := false; dispatched := calls' |}
      | Returned ctx' => {| next_context := ctx'; goes_on := true; dispatched := calls' |}
      end
  end.

(** The body of the [while] loop, for the value [stepCount] has after its
    increment. *)
Definition loop_turn (toolFunctions : list (string * tool_fn)) (w : World)
    (planner : context -> completion agent_action) (ctx : context) (stepCount : Z) : turn :=
  if should_terminate (shouldTerminateSession ctx) then
    {| next_context := ctx; goes_on := false; dispatched := [] |}
  else
    match planner ctx with
    | Thrown e => recover toolFunctions w ctx stepCount e []
    | Returned agentAction =>
        let name := planned_tool agentAction in
        let params := planned_parameters agentAction in
        let calls := [(name, params)] in
        match executeAgentTool toolFunctions w name params ctx with
        | Thrown e => recover toolFunctions w ctx stepCount e calls
        | Returned VUndefined =>
            recover toolFunctions w ctx stepCount
              "Cannot read properties of undefined (reading 'status')" calls
        | Returned VNull =>
            recover toolFunctions w ctx stepCount
              "Cannot read properties of null (reading 'status')" calls
        | Returned toolResult =>
            if strict_eq (get toolResult "status") (VStr "finished") then
              {| next_context := ctx; goes_on := false; dispatched := calls |}
            else
              let actionTaken :=
                {| tool_used := Some name; tool_to_use := Some name;
                   parameters := Some params; tool_parameters := None |} in
              match updateAgentContext w ctx stepCount (planned_thought agentAction)
                      actionTaken toolResult with
              | Thrown e =>
                  recover toolFunctions w
                    (interrupted_update w ctx stepCount (planned_thought agentAction)
                       actionTaken toolResult)
                    stepCount e calls
              | Returned ctx1 =>
                  let ctx2 :=
                    match get toolResult "stderr" with
                    | VStr stderr =>
                        if String.eqb name "run_diagnostic_command" &&
                           negb (String.eqb stderr "")
                        then updateErrorState (clock w) ctx1 stderr stepCount
                        else ctx1
                    | _ => ctx1
                    end in
                  {| next_context := ctx2;
                     goes_on := negb (String.eqb name "finish_debugging");
                     dispatched := calls |}
              end
        end
    end.

(** [while (stepCount < maxSteps) { stepCount++; ... }] with
    [maxSteps = 20]: [budget] turns remain, [w] and [planner] give the
    environment and the planner at each step. *)
Fixpoint debugLoop_from (toolFunctions : World -> list (string * tool_fn))
    (w : Z -> World) (planner : Z -> context -> completion agent_action)
    (budget : nat) (stepCount : Z) (ctx : context) : context * list (string * value) :=
  match budget with
  | O => (ctx, [])
  | S budget' =>
      let stepCount' := stepCount + 1 in
      let t := loop_turn (toolFunctions (w stepCount')) (w stepCount')
                 (planner stepCount') ctx stepCount' in
      if goes_on t then
        let '(final, calls) :=
          debugLoop_from toolFunctions w planner budget' stepCount' (next_context t) in
        (final, dispatched t ++ calls)
      else (next_context t, dispatched t)
  end.

Definition debugLoop (toolFunctions : World -> list (string * tool_fn))
    (w : Z -> World) (planner : Z -> context -> completion agent_action)
    (ctx : context) : context * list (string * value) :=
  debugLoop_from toolFunctions w planner 20 0 ctx.

End Agent.

(** ** The object store, and the context optimizer on it

    [optimizeAgentContext] is the one embedded function whose contract is
    about aliasing: it must leave the objects of its argument alone.  Here
    the agent context is a graph of objects in a store, references are
    addresses, and every read, write and allocation of the source is
    explicit. *)

Module Store.

Inductive hval :=
| HUndefined
| HNull
| HBool (b : bool)
| HNum (n : Z)
| HStr (s : string)
| HRef (l : nat).

Inductive obj :=
| Obj (props : list (string * hval))
| Arr (items : list hval).

#[global] Instance hval_eq_dec : EqDecision hval.
Proof. solve_decision. Defined.

#[global] Instance obj_eq_dec : EqDecision obj.
Proof. solve_decision. Defined.

(** Addresses are positions; allocation appends. *)
Notation heap := (list obj).

(** A computation on the store; the store survives a [throw]. *)
Definition M (A : Type) : Type := heap -> heap * completion A.

Definition ret {A} (a : A) : M A := fun h => (h, Returned a).
Definition throw {A} (msg : string) : M A := fun h => (h, Thrown msg).
Definition bind {A B} (m : M A) (f : A -> M B) : M B :=
  fun h =>
    match m h with
    | (h', Returned a) => f a h'
    | (h', Thrown e) => (h', Thrown e)
    end.

Notation "'do!' x <- m ; k" := (bind m (fun x => k))
  (at level 60, x name, m at next level, right associativity).
Notation "'run!' m ; k" := (bind m (fun _ => k))
  (at level 60, m at next level, right associativity).

Definition alloc (o : obj) : M hval :=
  fun h => (h ++ [o], Returned (HRef (length h))).

Definition load (l : nat) : M obj :=
  fun h =>
    match h !! l with
    | Some o => (h, Returned o)
    | None => (h, Thrown "dangling reference")
    end.

Definition store (l : nat) (o : obj) : M unit :=
  fun h => (<[l := o]> h, Returned tt).

Definition truthy (v : hval) : bool :=
  match v with
  | HUndefined | HNull => false
  | HBool b => b
  | HNum n => negb (Z.eqb n 0)
  | HStr s => negb (String.eqb s "")
  | HRef _ => true
  end.

Definition strict_eq_str (v : hval) (s : string) : bool :=
  match v with
  | HStr s' => String.eqb s' s
  | _ => false
  end.

(** [a > b] and [a >= b]; an operand that is not a number makes the
    comparison false here (JavaScript would first convert it). *)
Definition gt (a b : hval) : bool :=
  match a, b with
  | HNum x, HNum y => Z.ltb y x
  | _, _ => false
  end.

Definition ge (a b : hval) : bool :=
  match a, b with
  | HNum x, HNum y => Z.leb y x
  | _, _ => false
  end.

Definition type_error_read (what k : string) : string :=
  "Cannot read properties of " +:+ what +:+ " (reading '" +:+ k +:+ "')".

(** [v.k].  The elements of an array are read by the iteration methods
    below; of its named properties only [length] is represented. *)
Definition get (v : hval) (k : string) : M hval :=
  match v with
  | HUndefined => throw (type_error_read "undefined" k)
  | HNull => throw (type_error_read "null" k)
  | HRef l =>
      do! o <- load l ;
      match o with
      | Obj props => ret (default HUndefined (Json.assoc k props))
      | Arr items =>
          if String.eqb k "length" then ret (HNum (Z.of_nat (length items)))
          else ret HUndefined
      end
  | HStr s =>
      if String.eqb k "length" then ret (HNum (Z.of_nat (String.length s)))
      else ret HUndefined
  | _ => ret HUndefined
  end.

Fixpoint set_prop (k : string) (v : hval) (props : list (string * hval))
    : list (string * hval) :=
  match props with
  | [] => [(k, v)]
  | (k', v') :: props' =>
      if String.eqb k' k then (k, v) :: props' else (k', v') :: set_prop k v props'
  end.

Definition remove_prop (k : string) (props : list (string * hval)) : list (string * hval) :=
  filter (fun kv => negb (String.eqb (fst kv) k)) props.

(** [v.k = x] in strict mode (the sources are modules): it throws on a
    primitive.  A named property written on an array is not kept. *)
Definition set (v : hval) (k : string) (x : hval) : M unit :=
  match v with
  | HRef l =>
      do! o <- load l ;
      match o with
      | Obj props => store l (Obj (set_prop k x props))
      | Arr _ => ret tt
      end
  | HUndefined => throw ("Cannot set properties of undefined (setting '" +:+ k +:+ "')")
  | HNull => throw ("Cannot set properties of null (setting '" +:+ k +:+ "')")
  | _ => throw ("Cannot create property '" +:+ k +:+ "'")
  end.

(** [delete v[k]] *)
Definition delete (v : hval) (k : string) : M unit :=
  match v with
  | HRef l =>
      do! o <- load l ;
      match o with
      | Obj props => store l (Obj (remove_prop k props))
      | Arr _ => ret tt
      end
  | HUndefined => throw "Cannot convert undefined or null to object"
  | HNull => throw "Cannot convert undefined or null to object"
  | _ => ret tt
  end.

(** The elements of the array [v], for a call [v.method(...)] of an array
    method; on anything but an array the call throws here. *)
Definition items_of (v : hval) (method : string) : M (list hval) :=
  match v with
  | HRef l =>
      do! o <- load l ;
      match o with
      | Arr xs => ret xs
      | Obj _ => throw (method +:+ " is not a function")
      end
  | HUndefined => throw (type_error_read "undefined" method)
  | HNull => throw (type_error_read "null" method)
  | _ => throw (method +:+ " is not a function")
  end.

(** [Object.keys(v)] *)
Definition keys_of (v : hval) : M (list string) :=
  match v with
  | HRef l =>
      do! o <- load l ;
      match o with
      | Obj props => ret (map fst props)
      | Arr xs => ret (Json.index_keys xs)
      end
  | HUndefined | HNull => throw "Cannot convert undefined or null to object"
  | HStr s => ret (Json.index_keys (JS.chars s))
  | _ => ret []
  end.

Fixpoint filterM {A} (p : A -> M bool) (l : list A) : M (list A) :=
  match l with
  | [] => ret []
  | x :: l' =>
      do! keep <- p x ;
      do! rest <- filterM p l' ;
      ret (if keep : bool then x :: rest else rest)
  end.

Fixpoint mapM {A B} (f : A -> M B) (l : list A) : M (list B) :=
  match l with
  | [] => ret []
  | x :: l' =>
      do! y <- f x ;
      do! ys <- mapM f l' ;
      ret (y :: ys)
  end.

Fixpoint forEach {A} (f : A -> M unit) (l : list A) : M unit :=
  match l with
  | [] => ret tt
  | x :: l' => run! f x ; forEach f l'
  end.

(** [l.some(p)]: stops at the first element that satisfies [p]. *)
Fixpoint someM {A} (p : A -> M bool) (l : list A) : M bool :=
  match l with
  | [] => ret false
  | x :: l' =>
      do! b <- p x ;
      if b : bool then ret true else someM p l'
  end.

(** [String(v)], as template literals and [join] make it; [depth] bounds
    the nesting of arrays followed. *)
Fixpoint to_string (depth : nat) (h : heap) (v : hval) : string :=
  match v with
  | HUndefined => "undefined"
  | HNull => "null"
  | HBool true => "true"
  | HBool false => "false"
  | HNum n => pretty n
  | HStr s => s
  | HRef l =>
      match h !! l with
      | Some (Obj _) => "[object Object]"
      | Some (Arr xs) =>
          match depth with
          | O => ""
          | S d =>
              JS.join ","
                (map (fun x => match x with
                               | HUndefined | HNull => ""
                               | _ => to_string d h x
                               end) xs)
          end
      | None => ""
      end
  end.

Definition string_of (v : hval) : M string :=
  fun h => (h, Returned (to_string (length h) h v)).

(** [xs.join(sep)] *)
Definition join_items (sep : string) (xs : list hval) : M string :=
  fun h =>
    (h, Returned (JS.join sep
                    (map (fun x => match x with
                                   | HUndefined | HNull => ""
                                   | _ => to_string (length h) h x
                                   end) xs))).

(** *** [JSON.parse(JSON.stringify(v))] *)

Fixpoint mapC {A B} (f : A -> completion B) (l : list A) : completion (list B) :=
  match l with
  | [] => Returned []
  | x :: l' =>
      try! y <- f x;
      try! ys <- mapC f l';
      Returned (y :: ys)
  end.

(** [JSON.stringify], as the tree a parser reads back.  A cycle is a path
    longer than the store has objects: [fuel] runs out on it, and only on
    it when [fuel] exceeds the size of the store. *)
Fixpoint serialize (fuel : nat) (h : heap) (v : hval) : completion (option Json.value) :=
  match fuel with
  | O => Thrown "Converting circular structure to JSON"
  | S fuel' =>
      match v with
      | HUndefined => Returned None
      | HNull => Returned (Some Json.VNull)
      | HBool b => Returned (Some (Json.VBool b))
      | HNum n => Returned (Some (Json.VNum n))
      | HStr s => Returned (Some (Json.VStr s))
      | HRef l =>
          match h !! l with
          | None => Thrown "dangling reference"
          | Some (Arr xs) =>
              try! ys <- mapC (fun x => try! r <- serialize fuel' h x;
                                        Returned (default Json.VNull r)) xs;
              Returned (Some (Json.VArr ys))
          | Some (Obj props) =>
              try! ps <- mapC (fun kv => try! r <- serialize fuel' h (snd kv);
                                         Returned (option_map (pair (fst kv)) r)) props;
              Returned (Some (Json.VObj (omap id ps)))
          end
      end
  end.

(** [JSON.parse]: every object and array of the tree is allocated. *)
Fixpoint materialize (t : Json.value) : M hval :=
  match t with
  | Json.VUndefined => ret HUndefined
  | Json.VNull => ret HNull
  | Json.VBool b => ret (HBool b)
  | Json.VNum n => ret (HNum n)
  | Json.VStr s => ret (HStr s)
  | Json.VArr xs =>
      do! ys <- (fix go (xs : list Json.value) : M (list hval) :=
               match xs with
               | [] => ret []
               | x :: xs' => do! y <- materialize x ; do! ys <- go xs' ; ret (y :: ys)
               end) xs ;
      alloc (Arr ys)
  | Json.VObj props =>
      do! ps <- (fix go (props : list (string * Json.value)) : M (list (string * hval)) :=
               match props with
               | [] => ret []
               | (k, x) :: props' => do! y <- materialize x ; do! ps <- go props' ; ret ((k, y) :: ps)
               end) props ;
      alloc (Obj ps)
  end.

Definition json_clone (v : hval) : M hval :=
  fun h =>
    match serialize (S (length h)) h v with
    | Thrown e => (h, Thrown e)
    | Returned None => (h, Thrown "undefined is not valid JSON")
    | Returned (Some t) => materialize t h
    end.

(** *** [optimizeAgentContext]

    Arrays that do not outlive the call (the operands of [map] and [join],
    a [filter] result that is dropped) are not allocated. *)

(** [v.slice(-n)]: a new array, or a string when [v] is one. *)
Definition slice_last_of (n : nat) (v : hval) : M hval :=
  match v with
  | HStr s => ret (HStr (JS.str (Agent.slice_last n (JS.chars s))))
  | _ =>
      do! xs <- items_of v "slice";
      alloc (Arr (Agent.slice_last n xs))
  end.

(** [step.action_taken.tool_used === name ||
     step.action_taken.tool_to_use === name] *)
Definition uses_tool (name : string) (step : hval) : M bool :=
  do! taken <- get step "action_taken";
  do! used <- get taken "tool_used";
  if strict_eq_str used name then ret true
  else
    do! taken' <- get step "action_taken";
    do! to_use <- get taken' "tool_to_use";
    ret (strict_eq_str to_use name).

(** The predicate of the focus-mode [filter]; [len] is
    [context.session_history.length]. *)
Definition focus_keep (len : Z) (step : hval) : M bool :=
  do! s <- get step "step";
  if gt s (HNum (len - 5)) then ret true
  else
    do! patch <- uses_tool "propose_code_patch" step;
    if patch : bool then ret true
    else uses_tool "propose_fix_by_command" step.

(** [relevantFiles.some(ref => path.includes(ref) ||
     ref.includes(path.split('/').pop()))] *)
Definition is_relevant (path : string) (relevantFiles : hval) : M bool :=
  do! refs <- items_of relevantFiles "some";
  someM (fun ref =>
           do! shown <- string_of ref;
           if JS.includes path shown then ret true
           else match ref with
                | HStr r => ret (JS.includes r (JS.basename path))
                | _ => throw "ref.includes is not a function"
                end) refs.

Definition files_read_of (context : hval) : M hval :=
  do! kb <- get context "knowledge_base";
  get kb "files_read".

Definition focus_mode (context blocking : hval) : M unit :=
  do! history <- get context "session_history";
  do! steps <- items_of history "filter";
  do! relevantSteps <- filterM (focus_keep (Z.of_nat (length steps))) steps;
  do! kept <-
    (if (length relevantSteps <? 3)%nat && (3 <=? length steps)%nat
     then slice_last_of 3 history
     else alloc (Arr relevantSteps));
  run! set context "session_history" kept;
  do! refs <- get blocking "file_refs";
  do! relevantFiles <- (if truthy refs then ret refs else alloc (Arr []));
  do! count <- get relevantFiles "length";
  run! (if gt count (HNum 0) then
          do! files <- files_read_of context;
          do! paths <- keys_of files;
          forEach (fun path =>
                     do! relevant <- is_relevant path relevantFiles;
                     if relevant : bool then ret tt
                     else
                       do! files' <- files_read_of context;
                       delete files' path) paths
        else ret tt);
  do! recent <- get context "recent_actions";
  do! n <- get recent "length";
  if gt n (HNum 5) then
    do! last5 <- slice_last_of 5 recent;
    set context "recent_actions" last5
  else ret tt.

(** One item of the drift-mode summary. *)
Definition summary_item (step : hval) : M string :=
  do! s <- get step "step";
  do! shown_step <- string_of s;
  do! taken <- get step "action_taken";
  do! used <- get taken "tool_used";
  do! name <- (if truthy used then ret used
               else do! taken' <- get step "action_taken"; get taken' "tool_to_use");
  do! shown_name <- string_of name;
  do! result <- get step "result";
  do! status <- get result "status";
  do! shown_status <- string_of status;
  ret ("Step " +:+ shown_step +:+ ": " +:+ shown_name +:+ " - " +:+ shown_status).

Definition drift_mode (context : hval) : M unit :=
  do! history <- get context "session_history";
  do! n <- get history "length";
  if gt n (HNum 5) then
    do! steps <- items_of history "map";
    let recent := Agent.slice_last 3 steps in
    let older := take (length steps - 3) steps in
    do! items <- mapM summary_item older;
    let summary :=
      "Previous " +:+ pretty (length older) +:+ " steps: " +:+ JS.join ", " items in
    do! taken <- alloc (Obj [("tool_used", HStr "summary")]);
    do! result <- alloc (Obj [("status", HStr "summarized")]);
    do! first <- alloc (Obj [("step", HStr "summary"); ("summary", HStr summary);
                             ("action_taken", taken); ("result", result)]);
    do! summarized <- alloc (Arr (first :: recent));
    set context "session_history" summarized
  else ret tt.

Definition truncation_marker : string :=
  String "010"%char "... [content truncated] ..." +:+ String "010"%char "".

Definition truncate_content (text : string) : string :=
  substring 0 1000 text +:+ truncation_marker +:+
  substring (String.length text - 1000) 1000 text.

Definition truncate_files (context : hval) : M unit :=
  do! files <- files_read_of context;
  do! paths <- keys_of files;
  forEach (fun path =>
             do! files' <- files_read_of context;
             do! content <- get files' path;
             match content with
             | HStr text =>
                 if (2000 <? String.length text)%nat then
                   do! files'' <- files_read_of context;
                   set files'' path (HStr (truncate_content text))
                 else ret tt
             | HRef _ =>
                 do! n <- get content "length";
                 if gt n (HNum 2000) then throw "content.substring is not a function"
                 else ret tt
             | _ => ret tt
             end) paths.

Definition consolidate_notes (context : hval) : M unit :=
  do! kb <- get context "knowledge_base";
  do! notes <- get kb "error_analysis_notes";
  do! n <- get notes "length";
  if gt n (HNum 3) then
    do! xs <- items_of notes "join";
    do! consolidated <- join_items (String "010"%char (String "010"%char "")) xs;
    let text :=
      "Consolidated analysis: " +:+ substring 0 1500 consolidated +:+
      (if (1500 <? String.length consolidated)%nat then "..." else "") in
    do! replaced <- alloc (Arr [HStr text]);
    do! kb' <- get context "knowledge_base";
    set kb' "error_analysis_notes" replaced
  else ret tt.

Definition cap_progression (context : hval) : M unit :=
  do! progression <- get context "error_progression";
  if truthy progression then
    do! n <- get progression "length";
    if gt n (HNum 10) then
      do! last10 <- slice_last_of 10 progression;
      set context "error_progression" last10
    else ret tt
  else ret tt.

Definition copy_tools (context : hval) : M unit :=
  do! tools <- get context "available_tools";
  do! xs <- items_of tools "map";
  do! copies <-
    mapM (fun tool =>
            do! name <- get tool "name";
            do! description <- get tool "description";
            do! params <- get tool "parameters";
            alloc (Obj [("name", name); ("description", description);
                        ("parameters", params)])) xs;
  do! copied <- alloc (Arr copies);
  set context "available_tools" copied.

Definition optimizeAgentContext (agentContext : hval) : M hval :=
  do! context <- json_clone agentContext;
  do! blocking <- get context "current_blocking_error";
  run! (if truthy blocking then focus_mode context blocking else drift_mode context);
  run! truncate_files context;
  run! consolidate_notes context;
  run! cap_progression context;
  run! copy_tools context;
  ret context.

(** *** The first lines of [updateAgentContext], on the store

    [const updatedContext = { ...context }] copies the properties of the
    context, not what they refer to; the [push] that follows writes into
    the array both contexts share. *)
Definition push (arr x : hval) : M unit :=
  match arr with
  | HRef l =>
      do! o <- load l;
      match o with
      | Arr xs => store l (Arr (xs ++ [x]))
      | Obj _ => throw "push is not a function"
      end
  | HUndefined => throw (type_error_read "undefined" "push")
  | HNull => throw (type_error_read "null" "push")
  | _ => throw "push is not a function"
  end.

Definition spread_copy (v : hval) : M hval :=
  match v with
  | HRef l =>
      do! o <- load l;
      match o with
      | Obj props => alloc (Obj props)
      | Arr xs => alloc (Obj (combine (Json.index_keys xs) xs))
      end
  | _ => alloc (Obj [])
  end.

Definition record_step (context entry : hval) : M hval :=
  do! updatedContext <- spread_copy context;
  do! history <- get updatedContext "session_history";
  run! push history entry;
  ret updatedContext.

End Store.

(** ** Grouping of search results by file ([src/rag/hybridSearch.js]) *)

Module Grouping.
Import Retrieval.
Local Open Scope Qc_scope.

(** One group of [groupResultsByFile]:
    [{filePath, fileName, chunks, maxScore, totalScore}]. *)
Record group := {
  group_filePath : string;
  group_fileName : string;
  chunks : list entry;
  maxScore : Qc;
  totalScore : Qc
}.

(** [Math.max] *)
Definition max (a b : Qc) : Qc := if Qclt_le_dec a b then b else a.

(** The file path a result is grouped under; [None] when the loop skips the
    result ([!metadata || !metadata.filePath]). *)
Definition path_of (result : entry) : option string :=
  match metadata result with
  | Some md => if String.eqb (filePath md) "" then None else Some (filePath md)
  | None => None
  end.

Definition has_group (groupedResults : list group) (path : string) : bool :=
  existsb (fun g => String.eqb (group_filePath g) path) groupedResults.

Definition new_group (path : string) (result : entry) : group :=
  {| group_filePath := path;
     group_fileName := meta_fileName result;
     chunks := []; maxScore := 0; totalScore := 0 |}.

Definition add_chunk (result : entry) (g : group) : group :=
  {| group_filePath := group_filePath g;
     group_fileName := group_fileName g;
     chunks := chunks g ++ [result];
     maxScore := max (maxScore g) (combinedScore result);
     totalScore := totalScore g + combinedScore result |}.

(** [groupedResults.get(path)] followed by the update of the group found. *)
Fixpoint update_group (path : string) (f : group -> group) (m : list group) : list group :=
  match m with
  | [] => []
  | g :: m' =>
      if String.eqb (group_filePath g) path then f g :: m' else g :: update_group path f m'
  end.

Definition group_step (groupedResults : list group) (result : entry) : list group :=
  match path_of result with
  | None => groupedResults
  | Some path =>
      let m := if has_group groupedResults path then groupedResults
               else groupedResults ++ [new_group path result] in
      update_group path (add_chunk result) m
  end.

Definition groupResultsByFile (searchResults : list entry) : list group :=
  sort_desc maxScore (fold_left group_step searchResults []).

End Grouping.

(** ** Validation of planner output and session summary ([core/agent_prompt.js]) *)

Module Validation.
Import Json Agent.

(** [AVAILABLE_TOOLS.map(t => t.name)] *)
Definition availableToolNames : list string := [
  "list_directory_contents"; "read_file_content"; "run_diagnostic_command";
  "propose_code_patch"; "propose_fix_by_command"; "ask_user_for_clarification";
  "search_file_content"; "get_file_structure"; "finish_debugging"
].

Definition typeof (v : value) : string :=
  match v with
  | VUndefined => "undefined"
  | VNull => "object"
  | VBool _ => "boolean"
  | VNum _ => "number"
  | VStr _ => "string"
  | VArr _ | VObj _ => "object"
  end.

(** [field in action], for the three field names the validator asks for:
    an own property of an object; an array has none of them. *)
Definition has_field (field : string) (action : value) : bool :=
  match action with
  | VObj props => bool_decide (is_Some (assoc field props))
  | _ => false
  end.

(** [v.k]: reading a property of [null] or [undefined] throws. *)
Definition member (v : value) (k : string) : completion value :=
  match v with
  | VNull => Thrown ("Cannot read properties of null (reading '" +:+ k +:+ "')")
  | VUndefined => Thrown ("Cannot read properties of undefined (reading '" +:+ k +:+ "')")
  | _ => Returned (get v k)
  end.

(** [x.includes(needle)], where [x] is the variable [name]: the substring
    test of a string, the membership test of an array; other values have no
    such method. *)
Definition includes_of (name : string) (x : value) (needle : string) : completion bool :=
  match x with
  | VStr s => Returned (JS.includes s needle)
  | VArr items => Returned (existsb (fun item => strict_eq item (VStr needle)) items)
  | _ => Thrown (name +:+ ".includes is not a function")
  end.

(** [needles.some(needle => x.includes(needle))], also the chain
    [x.includes(a) || x.includes(b)]: left to right, stopping at the first
    hit. *)
Fixpoint includes_some (name : string) (x : value) (needles : list string)
    : completion bool :=
  match needles with
  | [] => Returned false
  | needle :: rest =>
      try! hit <- includes_of name x needle;
      if hit : bool then Returned true else includes_some name x rest
  end.

Definition invalidPaths : list string :=
  ["path/to/data"; "path/to/file"; "file.csv"; "data.csv"].

Definition requiredFields : list string := ["thought"; "tool_to_use"; "tool_parameters"].

(** The messages the validator prints before it rejects a placeholder path
    are left out. *)
Definition validateAgentAction (action : value) : completion bool :=
  if negb (truthy action) || negb (String.eqb (typeof action) "object") then Returned false
  else if negb (forallb (fun field => has_field field action) requiredFields)
  then Returned false
  else if negb (String.eqb (typeof (get action "thought")) "string") ||
          negb (String.eqb (typeof (get action "tool_to_use")) "string") ||
          negb (String.eqb (typeof (get action "tool_parameters")) "object")
  then Returned false
  else
    match get action "tool_to_use" with
    | VStr tool_to_use =>
        if negb (JS.mem tool_to_use availableToolNames) then Returned false
        else
          try! rejected_file <-
            (if String.eqb tool_to_use "read_file_content" then
               try! filePath <- member (get action "tool_parameters") "file_path";
               if truthy filePath then includes_some "filePath" filePath invalidPaths
               else Returned false
             else Returned false);
          if rejected_file : bool then Returned false
          else
            try! rejected_dir <-
              (if String.eqb tool_to_use "list_directory_contents" then
                 try! dirPath <- member (get action "tool_parameters") "directory_path";
                 if truthy dirPath
                 then includes_some "dirPath" dirPath ["path/to/data"; "path/to/file"]
                 else Returned false
               else Returned false);
            Returned (negb rejected_dir)
    | _ => Returned false
    end.

(** [createSessionSummary]: [{steps_taken, tools_used, files_analyzed,
    current_status}]. *)
Record session_summary := {
  steps_taken : nat;
  tools_used : list (option string);
  files_analyzed : nat;
  current_status : string
}.

Definition option_eqb (a b : option string) : bool :=
  match a, b with
  | Some x, Some y => String.eqb x y
  | None, None => true
  | _, _ => false
  end.

(** [step.action_taken.tool_used || step.action_taken.tool_to_use] *)
Definition step_tool (s : history_step) : option string :=
  or_string (tool_used (action_taken s)) (tool_to_use (action_taken s)).

Definition createSessionSummary (agentContext : context) : session_summary :=
  let stepCount := length (session_history agentContext) in
  {| steps_taken := stepCount;
     tools_used := JS.uniq option_eqb [] (map step_tool (session_history agentContext));
     files_analyzed := size (files_read agentContext);
     current_status := if (stepCount =? 0)%nat then "starting" else "investigating" |}.

End Validation.

(** ** Helpers of the tool layer ([core/agent_tools.js]) *)

Module ToolHelpers.

(** *** [extractKeyErrorMessages] *)

Definition is_key_error_line (line : string) : bool :=
  JS.includes line "Error:" ||
  JS.includes line "Exception:" ||
  JS.includes line "error:" ||
  JS.includes line "ERROR:" ||
  JS.includes line "FAILED:".

Definition extractKeyErrorMessages (stderr : string) : list string :=
  map JS.trim (List.filter is_key_error_line (JS.split "010"%char stderr)).

(** *** [createFileMappings] *)

(** [fileName.replace(/\.[^.]*$/, '')]: the name without its last dot and
    what follows it. *)
Definition without_extension (fileName : string) : string :=
  let reversed := rev (JS.chars fileName) in
  match snd (JS.span (fun c => negb (Ascii.eqb c "."%char)) reversed) with
  | [] => fileName
  | _ :: stem => JS.str (rev stem)
  end.

(** [discoveredFiles.find(f => f === fileName || f.includes(stem))] *)
Definition find_match (fileName : string) (discoveredFiles : list string) : option string :=
  List.find (fun f => String.eqb f fileName || JS.includes f (without_extension fileName))
    discoveredFiles.

(** One turn of the loop over the keys of [tracebackFiles].  An assignment
    to the property [__proto__] of an object literal does not create a
    property. *)
Definition map_file (discoveredFiles : list string) (mappings : gmap string string)
    (tracebackFile : string) : gmap string string :=
  let fileName := JS.basename tracebackFile in
  match find_match fileName discoveredFiles with
  | Some found =>
      if negb (String.eqb found "") && negb (String.eqb fileName found) then
        if String.eqb fileName "__proto__" then mappings
        else <[fileName := found]> mappings
      else mappings
  | None => mappings
  end.

(** [tracebackFiles] is a [Map]; the loop reads its keys, in insertion
    order. *)
Definition createFileMappings (tracebackFiles discoveredFiles : list string)
    : gmap string string :=
  fold_left (map_file discoveredFiles) tracebackFiles ∅.

End ToolHelpers.

(** ** Port extraction of the web agent module *)

Module Web.

(** [url.match(/:([0-9]+)/)]: the run of digits behind the first colon that
    a digit follows. *)
Fixpoint port_digits (url : list ascii) : option (list ascii) :=
  match url with
  | [] => None
  | c :: rest =>
      if Ascii.eqb c ":"%char then
        match fst (JS.span JS.is_digit rest) with
        | [] => port_digits rest
        | digits => Some digits
        end
      else port_digits rest
  end.

(** The answer [null] is [None]. *)
Definition extractPortFromUrl (url : string) : option Z :=
  if String.eqb url "" then None
  else option_map Agent.parseInt (port_digits (JS.chars url)).

End Web.

(** ** Concrete inputs used by the examples and counterexamples *)

Module Scenarios.
Import Retrieval.

Definition doc (i : string) (score : Qc) : hit :=
  {| hit_id := i; hit_score := score; hit_metadata := None |}.

(** A stand-in for the two indices: an index is the list of its documents,
    already ranked, and a search answers its first [k] documents. *)
Definition ranked_search (index : list hit) (query : string) (k : nat)
    : completion (list hit) :=
  Returned (take k index).

Definition echo_embedding (query : string) : completion string := Returned query.

Definition ranked_vector_search (index : list hit) (embedding : string) (k : nat)
    : completion (list hit) :=
  Returned (take k index).

Definition five_vectors : list hit :=
  [doc "v1" (Q2Qc (9 # 10)); doc "v2" (Q2Qc (8 # 10)); doc "v3" (Q2Qc (7 # 10));
   doc "v4" (Q2Qc (6 # 10)); doc "v5" (Q2Qc (5 # 10))].

Definition one_document : list hit := [doc "b1" (Q2Qc 1)].

Definition top3 : options :=
  {| bm25Weight_opt := None; vectorWeight_opt := None; k_opt := Some 3%nat;
     expandedK_opt := None |}.

Definition weighted (w1 w2 : Qc) : options :=
  {| bm25Weight_opt := Some w1; vectorWeight_opt := Some w2; k_opt := None;
     expandedK_opt := None |}.

Definition file_result (i : string) (score : Qc) (name text : string) : entry :=
  {| id := i;
     metadata := Some {| filePath := name; fileName := name; content := text |};
     bm25Score := 0%Qc; vectorScore := 0%Qc; combinedScore := score |}.

End Scenarios.

Module Scenarios64.
Import Retrieval64.
#[local] Set Warnings "-inexact-float".

Definition doc (i : string) (score : float) : hit :=
  {| hit_id := i; hit_score := score; hit_metadata := None |}.

(** A stand-in for the two indices, as in [Scenarios]: an index is the list
    of its documents, already ranked, and a search answers its first [k]
    documents. *)
Definition ranked_search (index : list hit) (query : string) (k : nat)
    : completion (list hit) :=
  Returned (take k index).

Definition weighted (w1 w2 : float) : options :=
  {| bm25Weight_opt := Some w1; vectorWeight_opt := Some w2; k_opt := None;
     expandedK_opt := None |}.

Definition search (bm25Index vectorIndex : list hit) (w1 w2 : float)
    : completion (list entry) :=
  hybridSearch (@length hit) (@length hit) ranked_search Scenarios.echo_embedding
    ranked_search "KeyError" vectorIndex bm25Index (weighted w1 w2).

Definition file_result (i : string) (score : float) (name text : string) : entry :=
  {| id := i;
     metadata := Some {| Retrieval.filePath := name; Retrieval.fileName := name;
                         Retrieval.content := text |};
     bm25Score := 0; vectorScore := 0; combinedScore := score |}.

End Scenarios64.

Module AgentScenarios.
Import Json Agent.

Definition empty_context : context :=
  {| current_working_directory := "/home/u/proj"; session_history := [];
     recent_actions := []; solved_issues := []; current_blocking_error := None;
     error_progression := []; files_read := ∅; file_state := None;
     constraints := Some {| max_session_steps := Some 20 |} |}.

(** A stand-in environment: [files] are the files on disk, by absolute
    path; the user answers [answer] to every question and [confirms] every
    proposal; every command succeeds with an empty output. *)
Definition world_with (files : list (string * string)) (answer : string) (confirms : bool)
    : World :=
  {| process_cwd := "/home/u/proj";
     clock := "2025-01-01T00:00:00.000Z";
     path_resolve := fun base p =>
       if JS.starts_with (JS.chars "/") (JS.chars p) then p else base +:+ "/" +:+ p;
     path_relative := fun base p => replace p (base +:+ "/") "";
     path_type_error := fun _ => "The path argument must be of type string";
     path_member_error := fun _ => "The path argument must be of type string";
     existsSync := fun p => bool_decide (is_Some (assoc p files));
     readFile := fun p =>
       match assoc p files with
       | Some text => Returned text
       | None => Thrown ("ENOENT: no such file or directory, open '" +:+ p +:+ "'")
       end;
     readFileContext := fun p _ _ =>
       match assoc p files with
       | Some text => Returned (text, VNum 1, VNum (line_count text))
       | None => Thrown ("ENOENT: no such file or directory, open '" +:+ p +:+ "'")
       end;
     runCommand := fun _ => (true, "");
     askYesNo := fun _ => Returned confirms;
     askInput := fun _ => Returned answer;
     display := fun _ => Returned tt;
     tool_body := fun _ _ _ => Returned (true, []);
     inherited_call := fun _ _ _ => Thrown "toolFunction is not a function" |}.

Definition planned (toolName : string) (params : value) : agent_action :=
  {| planned_thought := "next"; planned_tool := toolName; planned_parameters := params |}.

Definition recorded (n : Z) (toolName : string) (params result : value) : history_step :=
  {| step_no := n; thought := "next";
     action_taken := {| tool_used := Some toolName; tool_to_use := Some toolName;
                        parameters := Some params; tool_parameters := None |};
     step_result := result |}.

Definition first_error : string := "KeyError: 'customer_id'".
Definition second_error : string := "KeyError: 'order_id'".

Definition failing_step (n : Z) : history_step :=
  recorded n "read_file_content" (VObj [("file_path", VStr "missing.py")])
    (error_result "File not found: missing.py").

Definition three_failures : context :=
  with_history empty_context [failing_step 1; failing_step 2; failing_step 3].

Definition missing_file_params : value := VObj [("file_path", VStr "missing.py")].
Definition cached_file_params : value := VObj [("file_path", VStr "etl.py")].


Definition first_read : history_step :=
  recorded 1 "read_file_content" cached_file_params
    (VObj [("status", VStr "success"); ("file_path", VStr "etl.py");
           ("content", VStr "print(1)")]).

Definition finish_params : value :=
  VObj [("conclusion_message_for_user", VStr "The import is fixed.");
        ("final_status", VStr "resolved")].

(** An unknown tool planned twice in a row. *)
Definition plans_unknown_tool : context -> completion agent_action :=
  fun _ => Returned (planned "frobnicate" (VObj [])).

Definition after_unknown_tool : context :=
  next_context
    (loop_turn (toolFunctions_seeded (world_with [] "" true))
       (world_with [] "" true) plans_unknown_tool
       empty_context 1).

(** The recovery path: the planner fails at two steps in a row. *)
Definition planner_down : Z -> context -> completion agent_action :=
  fun _ _ => Thrown "connect ECONNREFUSED 127.0.0.1:11434".

Definition two_recoveries : context * list (string * value) :=
  debugLoop_from toolFunctions_seeded (fun _ => world_with [] "retry" true)
    planner_down 2 0 empty_context.

End AgentScenarios.

Module StoreScenarios.
Import Json.

Definition step_of (n : nat) : value :=
  VObj [("step", VNum (Z.of_nat n)); ("thought", VStr "next");
        ("action_taken",
          VObj [("tool_used", VStr (if (n =? 2)%nat then "propose_code_patch"
                                    else "read_file_content"));
                ("parameters", VObj [])]);
        ("result", VObj [("status", VStr "success")])].

(** A session of eight steps with a blocking error. *)
Definition session : value :=
  VObj [("session_history", VArr (map step_of (seq 1 8)));
        ("recent_actions", VArr []);
        ("current_blocking_error",
          VObj [("type", VStr "KeyError"); ("file_refs", VArr [VStr "etl.py"])]);
        ("error_progression", VArr []);
        ("knowledge_base",
          VObj [("files_read", VObj [("etl.py", VStr "print(1)")]);
                ("error_analysis_notes", VArr [])]);
        ("available_tools", VArr [])].

Definition session_store : list Store.obj := fst (Store.materialize session []).

Definition session_root : Store.hval :=
  match snd (Store.materialize session []) with
  | Returned root => root
  | Thrown _ => Store.HUndefined
  end.

(** The [step] fields of the steps of [context.session_history], when each
    of them is a step object. *)
Definition history_steps (h : list Store.obj) (context : Store.hval)
    : option (list Store.hval) :=
  match Store.get context "session_history" h with
  | (_, Returned history) =>
      match Store.items_of history "map" h with
      | (_, Returned steps) =>
          match Store.mapM (fun s => Store.get s "step") steps h with
          | (_, Returned numbers) => Some numbers
          | _ => None
          end
      | _ => None
      end
  | _ => None
  end.

End StoreScenarios.

(** * Theorems *)

Module RetrievalTheory.
Import Retrieval.
Local Open Scope Qc_scope.

Section Bound.
Context {vindex bindex embedding : Type}.
Variable vector_size : vindex -> nat.
Variable document_count : bindex -> nat.
Variable bm25_search : bindex -> string -> nat -> completion (list hit).
Variable generateEmbedding : string -> completion embedding.
Variable searchIndex : vindex -> embedding -> nat -> completion (list hit).

Let search := hybridSearch vector_size document_count bm25_search generateEmbedding searchIndex.

Lemma slice0_length {A} (n : nat) (l : list A) : (length (slice0 n l) <= n)%nat.
Proof. unfold slice0. rewrite length_take. lia. Qed.

(** C3 (as amended).  When hybrid search returns, it returns at most
    [min(k, max(|vector_index|, |bm25_index|))] results; when it throws, one
    of its three collaborators threw, and the message is the collaborator's
    behind the prefix of the [catch] clause. *)
Theorem hybridSearch_bound (query : string) (vectorIndex : vindex) (bm25Index : bindex)
    (o : options) :
  match search query vectorIndex bm25Index o with
  | Returned results =>
      (length results <=
         Nat.min (opt_k o) (Nat.max (vector_size vectorIndex) (document_count bm25Index)))%nat
  | Thrown msg =>
      exists e, msg = "Failed to perform hybrid search: " +:+ e /\
        let n := safe_expanded_k vector_size document_count vectorIndex bm25Index o in
        (bm25_search bm25Index query n = Thrown e \/
         generateEmbedding query = Thrown e \/
         exists emb, generateEmbedding query = Returned emb /\
                     searchIndex vectorIndex emb n = Thrown e)
  end.
Proof.
  unfold search, hybridSearch, search_body.
  destruct (bm25_search bm25Index query _) as [b|e] eqn:Hb; simpl.
  2: { exists e. auto. }
  destruct (generateEmbedding query) as [emb|e] eqn:He; simpl.
  2: { exists e. auto. }
  destruct (searchIndex vectorIndex emb _) as [v|e] eqn:Hv; simpl.
  2: { exists e. split; [reflexivity|]. right. right. exists emb. auto. }
  apply slice0_length.
Qed.
End Bound.

Lemma normalized_scale (a w1 w2 : Qc) :
  0 < a -> (a * w1) / (a * w1 + a * w2) = w1 / (w1 + w2).
Proof.
  intros Ha.
  assert (Hne : a <> 0).
  { intros ->. apply (Qcle_not_lt 0 0); [apply Qcle_refl | exact Ha]. }
  destruct (Qc_eq_dec (w1 + w2) 0) as [Hz|Hnz].
  - replace (a * w1 + a * w2) with (a * (w1 + w2)) by ring.
    rewrite Hz. replace (a * 0) with 0 by ring.
    unfold Qcdiv. replace (/ 0) with 0 by reflexivity. ring.
  - field. split; [exact Hnz|].
    replace (a * w1 + a * w2) with (a * (w1 + w2)) by ring.
    intros H. apply Qcmult_integral in H. tauto.
Qed.


(** Stable insertion sort *)
Section SortFacts.
Context {A : Type} (key : A -> Qc).

Lemma filter_insert_desc (s : Qc) (x : A) (l : list A) :
  filter (fun y => key y = s) (insert_desc key x l) =
  filter (fun y => key y = s) (x :: l).
Proof.
  induction l as [|y l IH]; [reflexivity|].
  simpl insert_desc. destruct (Qclt_le_dec (key x) (key y)) as [Hlt|Hle]; [|reflexivity].
  rewrite filter_cons, IH, !filter_cons.
  destruct (decide (key y = s)) as [Hy|Hy]; destruct (decide (key x = s)) as [Hx|Hx]; try reflexivity.
  exfalso. subst s. rewrite Hx in Hlt.
  apply (Qcle_not_lt (key x) (key x)); [apply Qcle_refl|]. congruence.
Qed.

Lemma filter_sort_desc (s : Qc) (l : list A) :
  filter (fun y => key y = s) (sort_desc key l) =
  filter (fun y => key y = s) l.
Proof.
  induction l as [|x l IH]; [reflexivity|].
  simpl sort_desc. rewrite filter_insert_desc, !filter_cons, IH. reflexivity.
Qed.

Lemma elem_of_insert_desc (x y : A) (l : list A) :
  y ∈ insert_desc key x l <-> y = x \/ y ∈ l.
Proof.
  induction l as [|z l IH]; simpl.
  - rewrite list_elem_of_singleton. split; [auto|]. intros [H|H]; [done|]. inversion H.
  - destruct (Qclt_le_dec (key x) (key z)).
    + rewrite !elem_of_cons, IH. tauto.
    + rewrite !elem_of_cons. tauto.
Qed.

Lemma elem_of_sort_desc (y : A) (l : list A) : y ∈ sort_desc key l <-> y ∈ l.
Proof.
  induction l as [|x l IH]; simpl; [reflexivity|].
  rewrite elem_of_insert_desc, elem_of_cons, IH. reflexivity.
Qed.

Lemma sorted_insert_desc (x : A) (l : list A) :
  StronglySorted (fun a b => key b <= key a) l ->
  StronglySorted (fun a b => key b <= key a) (insert_desc key x l).
Proof.
  induction 1 as [|z l Hs IH Hz]; simpl.
  - repeat constructor.
  - destruct (Qclt_le_dec (key x) (key z)) as [Hlt|Hle].
    + constructor; [exact IH|].
      rewrite Forall_forall. intros y Hy. apply elem_of_insert_desc in Hy as [->|Hy].
      * apply Qclt_le_weak, Hlt.
      * rewrite Forall_forall in Hz. auto.
    + constructor; [constructor; assumption|].
      constructor; [exact Hle|].
      rewrite Forall_forall in Hz |- *. intros y Hy.
      eapply Qcle_trans; [apply Hz, Hy | exact Hle].
Qed.

Lemma sorted_sort_desc (l : list A) :
  StronglySorted (fun a b => key b <= key a) (sort_desc key l).
Proof.
  induction l; simpl; [constructor | apply sorted_insert_desc; assumption].
Qed.

Lemma head_sort_desc_max (l : list A) (best : A) :
  head (sort_desc key l) = Some best ->
  best ∈ l /\ forall y, y ∈ l -> key y <= key best.
Proof.
  intros Hh. pose proof (sorted_sort_desc l) as Hs.
  destruct (sort_desc key l) as [|b rest] eqn:E; [discriminate|].
  simpl in Hh. injection Hh as ->.
  split.
  - apply elem_of_sort_desc. rewrite E. left.
  - intros y Hy. apply elem_of_sort_desc in Hy. rewrite E in Hy.
    apply elem_of_cons in Hy as [->|Hy]; [apply Qcle_refl|].
    apply StronglySorted_inv in Hs as [_ Hall]. rewrite Forall_forall in Hall. auto.
Qed.
End SortFacts.


(** Insertion order of the map of fused entries *)

Lemma existsb_eqb_elem (x : string) (l : list string) :
  existsb (String.eqb x) l = bool_decide (x ∈ l).
Proof.
  induction l as [|y l IH]; simpl; [reflexivity|].
  rewrite IH. destruct (String.eqb_spec x y) as [->|Hne]; simpl.
  - symmetry. apply bool_decide_eq_true. left.
  - apply bool_decide_ext. rewrite elem_of_cons. tauto.
Qed.

Lemma uniq_seen_ext (s1 s2 l : list string) :
  (forall x, x ∈ s1 <-> x ∈ s2) ->
  JS.uniq String.eqb s1 l = JS.uniq String.eqb s2 l.
Proof.
  revert s1 s2. induction l as [|x l IH]; intros s1 s2 H; simpl; [reflexivity|].
  rewrite !existsb_eqb_elem. rewrite (bool_decide_ext _ _ (H x)).
  destruct (bool_decide (x ∈ s2)); [apply IH, H|].
  f_equal. apply IH. intros y. rewrite !elem_of_cons, H. reflexivity.
Qed.

Lemma elem_of_uniq (seen l : list string) (x : string) :
  x ∈ JS.uniq String.eqb seen l <-> x ∈ l /\ x ∉ seen.
Proof.
  revert seen. induction l as [|y l IH]; intros seen; simpl.
  - split; [intros H; inversion H | intros [H _]; inversion H].
  - rewrite existsb_eqb_elem. destruct (bool_decide_reflect (y ∈ seen)) as [Hy|Hy].
    + rewrite IH, elem_of_cons. split; [tauto|].
      intros [[->|H] Hn]; [contradiction | tauto].
    + rewrite !elem_of_cons, IH, not_elem_of_cons.
      destruct (decide (x = y)) as [->|Hne]; tauto.
Qed.

Lemma uniq_app (seen l1 l2 : list string) :
  JS.uniq String.eqb seen (l1 ++ l2) =
  JS.uniq String.eqb seen l1 ++ JS.uniq String.eqb (l1 ++ seen) l2.
Proof.
  revert seen. induction l1 as [|x l1 IH]; intros seen; simpl; [reflexivity|].
  rewrite existsb_eqb_elem. destruct (bool_decide_reflect (x ∈ seen)) as [Hx|Hx].
  - rewrite IH. f_equal. apply uniq_seen_ext. intros y.
    set_solver.
  - rewrite IH. simpl. do 2 f_equal. apply uniq_seen_ext. intros y.
    set_solver.
Qed.

Lemma has_elem (m : list entry) (i : string) :
  has m i = bool_decide (i ∈ map id m).
Proof.
  unfold has. induction m as [|e m IH]; simpl; [reflexivity|].
  rewrite IH. destruct (String.eqb_spec (id e) i) as [<-|Hne]; simpl.
  - symmetry. apply bool_decide_eq_true. left.
  - apply bool_decide_ext. rewrite elem_of_cons. split; [tauto|]. intros [->|H]; tauto.
Qed.

Lemma ids_update (i : string) (f : entry -> entry) (m : list entry) :
  (forall e, id (f e) = id e) -> map id (update i f m) = map id m.
Proof.
  intros Hf. induction m as [|e m IH]; simpl; [reflexivity|].
  destruct (String.eqb (id e) i); simpl; [rewrite Hf | rewrite IH]; reflexivity.
Qed.

Lemma ids_fold_process (setter : hit -> entry -> entry) (hs : list hit) (m : list entry) :
  (forall h e, id (setter h e) = id e) ->
  map id (fold_left (process setter) hs m) =
  map id m ++ JS.uniq String.eqb (map id m) (map hit_id hs).
Proof.
  intros Hf. revert m. induction hs as [|h hs IH]; intros m; simpl.
  - rewrite app_nil_r. reflexivity.
  - rewrite IH. unfold process. rewrite existsb_eqb_elem, has_elem.
    destruct (bool_decide_reflect (hit_id h ∈ map id m)) as [Hin|Hin];
      rewrite ids_update by apply Hf.
    + reflexivity.
    + rewrite map_app. simpl. rewrite <- app_assoc. simpl. do 2 f_equal.
      apply uniq_seen_ext. intros y. set_solver.
Qed.

Lemma ids_insertion_order (bm25Results vectorResults : list hit) :
  map id (insertion_order bm25Results vectorResults) =
  JS.uniq String.eqb [] (map hit_id bm25Results ++ map hit_id vectorResults).
Proof.
  unfold insertion_order.
  rewrite ids_fold_process by reflexivity.
  rewrite ids_fold_process by reflexivity. simpl.
  rewrite uniq_app. f_equal. apply uniq_seen_ext. intros y.
  rewrite elem_of_uniq, elem_of_app. split; [tauto|].
  intros [H|H]; [|inversion H]. split; [exact H|]. intros H'; inversion H'.
Qed.

(** C8 (as amended).  The fused entries are listed in the insertion order of
    the map: the documents of the BM25 ranking in its order, then the
    documents only the vector ranking has, in its order; and among the
    documents of any one combined score the merged output keeps that
    insertion order. *)
Theorem mergeResults_ties_keep_insertion_order
    (bm25Results vectorResults : list hit) (bm25Weight vectorWeight : Qc) :
  let fused := map (set_combined bm25Weight vectorWeight)
                 (insertion_order bm25Results vectorResults) in
  map id fused =
    JS.uniq String.eqb [] (map hit_id bm25Results ++ map hit_id vectorResults) /\
  forall s : Qc,
    filter (fun e => combinedScore e = s)
      (mergeResults bm25Results vectorResults bm25Weight vectorWeight) =
    filter (fun e => combinedScore e = s) fused.
Proof.
  intros fused. split.
  - unfold fused. rewrite map_map. simpl. apply ids_insertion_order.
  - intros s. unfold mergeResults. apply filter_sort_desc.
Qed.


(** Root-cause heuristic *)

(** The number of occurrences of significant error-log tokens that are
    found in the file content. *)
Definition matching_terms (fileContent errorLog : string) : list string :=
  filter (fun t => significant t && term_in_content t fileContent) (errorTerms errorLog).

Definition heuristic_score (errorLog : string) (r : entry) : Qc :=
  combinedScore r *
  (if file_mentioned (mentionedFiles errorLog) r then Q2Qc 2 else 1) *
  (1 + Q2Qc (1 # 10) * of_nat (length (matching_terms (meta_content r) errorLog))).

Lemma fold_count_term (fileContent : string) (terms : list string) (n : nat) :
  fold_left (count_term fileContent) terms n =
  (n + length (filter (fun t => significant t && term_in_content t fileContent) terms))%nat.
Proof.
  revert n. induction terms as [|t terms IH]; intros n; simpl; [lia|].
  rewrite IH, filter_cons. unfold count_term.
  destruct (significant t), (term_in_content t fileContent); simpl; lia.
Qed.

Lemma matchCount_of_length (fileContent errorLog : string) :
  matchCount_of fileContent errorLog = length (matching_terms fileContent errorLog).
Proof. unfold matchCount_of, matching_terms. rewrite fold_count_term. reflexivity. Qed.

Lemma score_result_closed_form (errorLog : string) (r : entry) :
  rootCauseScore (score_result (mentionedFiles errorLog) errorLog r) =
  heuristic_score errorLog r.
Proof.
  unfold score_result, heuristic_score. simpl.
  rewrite matchCount_of_length.
  destruct (length (matching_terms (meta_content r) errorLog)) as [|m] eqn:E.
  - simpl. replace (of_nat 0) with 0 by reflexivity.
    destruct (file_mentioned _ r); ring.
  - replace (0 <? S m)%nat with true by reflexivity.
    destruct (file_mentioned _ r); ring.
Qed.

(** Scale invariance *)

Section Scale.
Context {vindex bindex embedding : Type}.
Variable vector_size : vindex -> nat.
Variable document_count : bindex -> nat.
Variable bm25_search : bindex -> string -> nat -> completion (list hit).
Variable generateEmbedding : string -> completion embedding.
Variable searchIndex : vindex -> embedding -> nat -> completion (list hit).

(** In exact arithmetic, fusing with the weights [(a * w1, a * w2)],
    [a > 0], gives the same result list as fusing with [(w1, w2)]: the
    normalised weights are the same rationals.  (On binary64 the quotients
    are rounded, see [Retrieval64Theory].) *)
Lemma fusion_scale_invariant (query : string) (vectorIndex : vindex)
    (bm25Index : bindex) (k expandedK : option nat) (w1 w2 a : Qc) :
  0 < a ->
  hybridSearch vector_size document_count bm25_search generateEmbedding searchIndex
    query vectorIndex bm25Index
    {| bm25Weight_opt := Some (a * w1); vectorWeight_opt := Some (a * w2);
       k_opt := k; expandedK_opt := expandedK |} =
  hybridSearch vector_size document_count bm25_search generateEmbedding searchIndex
    query vectorIndex bm25Index
    {| bm25Weight_opt := Some w1; vectorWeight_opt := Some w2;
       k_opt := k; expandedK_opt := expandedK |}.
Proof.
  intros Ha. unfold hybridSearch, search_body, opt_bm25Weight, opt_vectorWeight,
    safe_k, safe_expanded_k, opt_expandedK, opt_k. simpl.
  rewrite (normalized_scale a w1 w2 Ha).
  replace (a * w1 + a * w2) with (a * w2 + a * w1) by ring.
  rewrite (normalized_scale a w2 w1 Ha).
  replace (w2 + w1) with (w1 + w2) by ring.
  reflexivity.
Qed.
End Scale.

(** C3, counterexample.  With five documents in the vector index, one in
    the BM25 index and [k = 3], hybrid search returns three results, more
    than [min(3, 5, 1) = 1]. *)
Lemma hybridSearch_exceeds_smaller_index :
  exists results,
    hybridSearch (@length hit) (@length hit) Scenarios.ranked_search Scenarios.echo_embedding
      Scenarios.ranked_vector_search "KeyError" Scenarios.five_vectors Scenarios.one_document
      Scenarios.top3 = Returned results /\
    map id results = ["v1"; "v2"; "v3"] /\
    (Nat.min 3 (Nat.min (length Scenarios.five_vectors) (length Scenarios.one_document))
     < length results)%nat.
Proof.
  eexists. split; [vm_compute; reflexivity|]. split; [reflexivity|]. simpl. lia.
Qed.

(** C8, counterexample.  Two documents with equal combined scores that the
    vector search returned as [A, B] and the BM25 search as [B, A] come out
    as [B, A]. *)
Lemma merge_ties_follow_bm25_insertion :
  let bm25Results := [Scenarios.doc "B" 1; Scenarios.doc "A" 1] in
  let vectorResults := [Scenarios.doc "A" 1; Scenarios.doc "B" 1] in
  let merged := mergeResults bm25Results vectorResults (Q2Qc (1 # 2)) (Q2Qc (1 # 2)) in
  map hit_id vectorResults = ["A"; "B"] /\
  map id merged = ["B"; "A"] /\
  Forall (fun e => combinedScore e = 1) merged.
Proof.
  split; [reflexivity|]. split; [vm_compute; reflexivity|].
  repeat constructor; apply Qc_is_canon; reflexivity.
Qed.

(** The documented reading of the count: distinct tokens. *)
Definition claimed_match_count (fileContent errorLog : string) : nat :=
  length (JS.uniq String.eqb [] (matching_terms fileContent errorLog)).

End RetrievalTheory.

(** ** Binary64 numbers: the order, and the sign of a difference *)

Module Binary64.

#[local] Open Scope Z_scope.

(** Order of [spec_float] *)

Definition is_number (x : spec_float) : Prop := x <> S754_nan.

Lemma compare_cont_Eq (p q : positive) : Pos.compare_cont Eq p q = (p ?= q)%positive.
Proof. reflexivity. Qed.

Lemma SFcompare_antisym (x y : spec_float) :
  SFcompare y x = option_map CompOpp (SFcompare x y).
Proof.
  destruct x as [sx|sx| |sx mx ex], y as [sy|sy| |sy my ey]; simpl;
    try destruct sx; try destruct sy; try reflexivity;
    rewrite (Z.compare_antisym ex ey), !compare_cont_Eq, (Pos.compare_antisym mx my);
    destruct (ex ?= ey); simpl; try reflexivity;
    destruct (mx ?= my)%positive; reflexivity.
Qed.

Lemma SFcompare_number (x y : spec_float) :
  is_number x -> is_number y -> exists c, SFcompare x y = Some c.
Proof.
  unfold is_number.
  destruct x as [sx|sx| |sx mx ex], y as [sy|sy| |sy my ey]; simpl; intros Hx Hy;
    try contradiction; eexists; reflexivity.
Qed.

Lemma SFltb_false_SFleb (x y : spec_float) :
  is_number x -> is_number y -> SFltb x y = false -> SFleb y x = true.
Proof.
  intros Hx Hy. unfold SFltb, SFleb. rewrite (SFcompare_antisym x y).
  destruct (SFcompare_number x y Hx Hy) as [c ->]. simpl.
  destruct c; simpl; intros H; try reflexivity; discriminate.
Qed.

Lemma SFltb_SFleb (x y : spec_float) : SFltb x y = true -> SFleb x y = true.
Proof. unfold SFltb, SFleb. destruct (SFcompare x y) as [[]|]; intros H; try reflexivity; discriminate. Qed.

Lemma SFleb_SFltb_false (x y : spec_float) : SFleb x y = true -> SFltb y x = false.
Proof.
  unfold SFltb, SFleb. rewrite (SFcompare_antisym x y).
  destruct (SFcompare x y) as [[]|]; simpl; intros H; try reflexivity; discriminate.
Qed.

(** The place of a number in the order: the sign class, then the exponent
    and the significand, both negated for a negative number. *)
Definition rank (x : spec_float) : Z * Z * Z :=
  match x with
  | S754_nan => (0, 0, 0)
  | S754_zero _ => (0, 0, 0)
  | S754_infinity true => (-2, 0, 0)
  | S754_infinity false => (2, 0, 0)
  | S754_finite true m e => (-1, - e, - Zpos m)
  | S754_finite false m e => (1, e, Zpos m)
  end.

Definition lex_compare (a b : Z * Z * Z) : comparison :=
  let '(a1, a2, a3) := a in
  let '(b1, b2, b3) := b in
  match a1 ?= b1 with
  | Eq => match a2 ?= b2 with
          | Eq => a3 ?= b3
          | c => c
          end
  | c => c
  end.

Lemma SFcompare_rank (x y : spec_float) :
  is_number x -> is_number y -> SFcompare x y = Some (lex_compare (rank x) (rank y)).
Proof.
  unfold is_number.
  destruct x as [sx|sx| |sx mx ex], y as [sy|sy| |sy my ey]; simpl; intros Hx Hy;
    try contradiction; try destruct sx; try destruct sy; try reflexivity.
  - unfold lex_compare. change (-1 ?= -1) with Eq. cbv iota.
    rewrite (Z.compare_opp ex ey), (Z.compare_antisym ex ey).
    change (Z.neg mx ?= Z.neg my) with (CompOpp (mx ?= my)%positive).
    rewrite compare_cont_Eq. destruct (ex ?= ey); reflexivity.
Qed.

Lemma lex_compare_le_trans (a b c : Z * Z * Z) :
  lex_compare a b <> Gt -> lex_compare b c <> Gt -> lex_compare a c <> Gt.
Proof.
  destruct a as [[a1 a2] a3], b as [[b1 b2] b3], c as [[c1 c2] c3]. unfold lex_compare.
  destruct (Z.compare_spec a1 b1), (Z.compare_spec b1 c1), (Z.compare_spec a1 c1);
    try lia; try congruence;
  destruct (Z.compare_spec a2 b2), (Z.compare_spec b2 c2), (Z.compare_spec a2 c2);
    try lia; try congruence;
  destruct (Z.compare_spec a3 b3), (Z.compare_spec b3 c3), (Z.compare_spec a3 c3);
    try lia; congruence.
Qed.

Lemma SFleb_number (x y : spec_float) : SFleb x y = true -> is_number x /\ is_number y.
Proof.
  unfold SFleb, is_number.
  destruct x as [sx|sx| |sx mx ex], y as [sy|sy| |sy my ey]; simpl; intros H;
    try discriminate; split; discriminate.
Qed.

Lemma SFleb_trans (x y z : spec_float) :
  SFleb x y = true -> SFleb y z = true -> SFleb x z = true.
Proof.
  intros Hxy Hyz.
  destruct (SFleb_number x y Hxy) as [Hx Hy]. destruct (SFleb_number y z Hyz) as [_ Hz].
  unfold SFleb in *.
  rewrite (SFcompare_rank x y Hx Hy) in Hxy. rewrite (SFcompare_rank y z Hy Hz) in Hyz.
  rewrite (SFcompare_rank x z Hx Hz).
  pose proof (lex_compare_le_trans (rank x) (rank y) (rank z)) as H.
  destruct (lex_compare (rank x) (rank y)); try discriminate;
    destruct (lex_compare (rank y) (rank z)); try discriminate;
    destruct (lex_compare (rank x) (rank z)); try reflexivity;
    exfalso; apply H; congruence.
Qed.


(** Rounding keeps the sign *)

Lemma iter_pos_nat {A : Type} (f : A -> A) (p : positive) (x : A) :
  SpecFloat.iter_pos f p x = Nat.iter (Pos.to_nat p) f x.
Proof.
  revert x. induction p as [p IH|p IH|]; intros x; cbn [SpecFloat.iter_pos].
  - rewrite !IH, Pos2Nat.inj_xI, <- Nat.iter_add, <- Nat.iter_succ_r. f_equal. lia.
  - rewrite !IH, Pos2Nat.inj_xO, <- Nat.iter_add. f_equal. lia.
  - reflexivity.
Qed.

Lemma shr_1_positive (mrs : shr_record) (m : positive) :
  shr_m mrs = Zpos m -> 1 < Zpos (digits2_pos m) ->
  exists m', shr_m (shr_1 mrs) = Zpos m' /\
             Zpos (digits2_pos m') = Zpos (digits2_pos m) - 1.
Proof.
  destruct mrs as [mm r s]. cbn [shr_m]. intros ->.
  destruct m as [m|m|]; cbn [shr_1 digits2_pos shr_m]; intros H.
  - exists m. split; [reflexivity | lia].
  - exists m. split; [reflexivity | lia].
  - lia.
Qed.

Lemma iter_shr_1_positive (n : nat) (mrs : shr_record) (m : positive) :
  shr_m mrs = Zpos m -> Z.of_nat n < Zpos (digits2_pos m) ->
  exists m', shr_m (Nat.iter n shr_1 mrs) = Zpos m' /\
             Zpos (digits2_pos m') = Zpos (digits2_pos m) - Z.of_nat n.
Proof.
  intros Hm. induction n as [|n IH]; intros Hn.
  - exists m. split; [exact Hm | simpl; lia].
  - destruct IH as (m1 & H1 & Hd1); [lia|].
    destruct (shr_1_positive (Nat.iter n shr_1 mrs) m1 H1) as (m2 & H2 & Hd2); [lia|].
    exists m2. split; [exact H2 | lia].
Qed.

Lemma shr_m_of_loc (m : Z) (l : location) : shr_m (shr_record_of_loc m l) = m.
Proof. destruct l as [|[]]; reflexivity. Qed.

Lemma shr_fexp_positive (m : positive) (e : Z) (l : location) :
  emin <= e ->
  exists m', shr_m (fst (shr_fexp prec emax (Zpos m) e l)) = Zpos m' /\
             emin <= snd (shr_fexp prec emax (Zpos m) e l).
Proof.
  intros He. unfold shr_fexp, shr. cbn [Zdigits2].
  destruct (fexp prec emax (Zpos (digits2_pos m) + e) - e) as [|p|p] eqn:E; cbn [fst snd].
  - exists m. split; [apply shr_m_of_loc | exact He].
  - assert (Hp : Zpos p < Zpos (digits2_pos m)).
    { unfold fexp, SpecFloat.emin, prec, emax in *. lia. }
    destruct (iter_shr_1_positive (Pos.to_nat p) (shr_record_of_loc (Zpos m) l) m
                (shr_m_of_loc _ _)) as (m' & Hm' & _).
    { rewrite positive_nat_Z. exact Hp. }
    exists m'. rewrite iter_pos_nat. split; [exact Hm' | lia].
  - exists m. split; [apply shr_m_of_loc | exact He].
Qed.

Lemma round_nearest_even_positive (m : positive) (l : location) :
  exists m', round_nearest_even (Zpos m) l = Zpos m'.
Proof.
  destruct l as [|[]]; cbn [round_nearest_even];
    try (eexists; reflexivity).
  destruct (Z.even (Zpos m)); eexists; reflexivity.
Qed.

Lemma binary_round_aux_sign (s : bool) (m : positive) (e : Z) (l : location) :
  emin <= e ->
  SFltb (S754_zero false) (binary_round_aux prec emax s (Zpos m) e l) = negb s.
Proof.
  intros He. unfold binary_round_aux.
  destruct (shr_fexp_positive m e l He) as (m1 & H1 & He1).
  destruct (shr_fexp prec emax (Zpos m) e l) as [mrs1 e1]. cbn [fst snd] in H1, He1.
  rewrite H1.
  destruct (round_nearest_even_positive m1 (loc_of_shr_record mrs1)) as [m2 ->].
  destruct (shr_fexp_positive m2 e1 loc_Exact He1) as (m3 & H3 & _).
  destruct (shr_fexp prec emax (Zpos m2) e1 loc_Exact) as [mrs3 e3]. cbn [fst snd] in H3.
  rewrite H3. destruct (e3 <=? emax - prec); destruct s; reflexivity.
Qed.

Lemma binary_round_sign (s : bool) (m : positive) (e : Z) :
  emin <= e ->
  SFltb (S754_zero false) (binary_round prec emax s m e) = negb s.
Proof.
  intros He. unfold binary_round, shl_align.
  destruct (fexp prec emax (Zpos (digits2_pos m) + e) - e) eqn:E;
    apply binary_round_aux_sign; try exact He.
  unfold fexp, SpecFloat.emin, prec, emax in *. lia.
Qed.

Lemma binary_normalize_sign (m e : Z) (szero : bool) :
  emin <= e ->
  SFltb (S754_zero false) (binary_normalize prec emax m e szero) = (0 <? m).
Proof.
  intros He. destruct m as [|m|m]; cbn [binary_normalize].
  - destruct szero; reflexivity.
  - apply binary_round_sign, He.
  - apply binary_round_sign, He.
Qed.

(** Canonical representations *)

Lemma digits2_pos_bounds (m : positive) :
  2 ^ (Zpos (digits2_pos m) - 1) <= Zpos m < 2 ^ Zpos (digits2_pos m).
Proof.
  induction m as [m IH|m IH|]; cbn [digits2_pos].
  - rewrite Pos2Z.inj_succ, Z.pow_succ_r by lia.
    replace (Z.succ (Zpos (digits2_pos m)) - 1) with (Z.succ (Zpos (digits2_pos m) - 1)) by lia.
    rewrite Z.pow_succ_r by lia. lia.
  - rewrite Pos2Z.inj_succ, Z.pow_succ_r by lia.
    replace (Z.succ (Zpos (digits2_pos m)) - 1) with (Z.succ (Zpos (digits2_pos m) - 1)) by lia.
    rewrite Z.pow_succ_r by lia. lia.
  - simpl. lia.
Qed.

Lemma bounded_canonical (m : positive) (e : Z) :
  bounded prec emax m e = true ->
  emin <= e /\ Zpos (digits2_pos m) <= 53 /\ (emin < e -> Zpos (digits2_pos m) = 53).
Proof.
  unfold bounded, canonical_mantissa. intros H.
  apply andb_true_iff in H as [H _]. apply Z.eqb_eq in H.
  unfold fexp, SpecFloat.emin, prec, emax in *. lia.
Qed.

Lemma iter_xO_value (m d : positive) : Zpos (Pos.iter xO m d) = Zpos m * 2 ^ Zpos d.
Proof.
  induction d as [|d IH] using Pos.peano_ind.
  - simpl. lia.
  - rewrite Pos.iter_succ, Pos2Z.inj_succ, Z.pow_succ_r by lia.
    rewrite Pos2Z.inj_xO, IH. lia.
Qed.

Lemma shl_align_value (m : positive) (e e' : Z) :
  e' <= e -> Zpos (fst (shl_align m e e')) = Zpos m * 2 ^ (e - e').
Proof.
  intros He. unfold shl_align.
  destruct (e' - e) as [|d|d] eqn:E; cbn [fst]; try lia.
  - replace (e - e') with 0 by lia. simpl. lia.
  - rewrite iter_xO_value. f_equal. f_equal. lia.
Qed.

(** Of two canonical positive numbers the one with the larger exponent is
    the larger. *)
Lemma larger_exponent (mx my : positive) (ex ey : Z) :
  bounded prec emax mx ex = true -> bounded prec emax my ey = true ->
  ey < ex -> Zpos my < Zpos mx * 2 ^ (ex - ey).
Proof.
  intros Hx Hy Hlt.
  destruct (bounded_canonical mx ex Hx) as (_ & _ & Hdx).
  destruct (bounded_canonical my ey Hy) as (Hey & Hdy & _).
  pose proof (digits2_pos_bounds mx) as Bx. pose proof (digits2_pos_bounds my) as By.
  rewrite Hdx in Bx by lia.
  assert (Hmy : Zpos my < 2 ^ 53).
  { eapply Z.lt_le_trans; [apply By|]. apply Z.pow_le_mono_r; lia. }
  assert (Hp : 2 ^ 1 <= 2 ^ (ex - ey)) by (apply Z.pow_le_mono_r; lia).
  change (2 ^ (53 - 1)) with 4503599627370496 in Bx.
  change (2 ^ 53) with 9007199254740992 in Hmy.
  change (2 ^ 1) with 2 in Hp.
  nia.
Qed.

Lemma aligned_difference (mx my : positive) (ex ey : Z) :
  bounded prec emax mx ex = true -> bounded prec emax my ey = true ->
  let ez := Z.min ex ey in
  let X := Zpos (fst (shl_align mx ex ez)) in
  let Y := Zpos (fst (shl_align my ey ez)) in
  0 < X /\ 0 < Y /\
  ((X ?= Y) = match ex ?= ey with
              | Eq => (mx ?= my)%positive
              | c => c
              end).
Proof.
  intros Hx Hy ez X Y. split; [unfold X; lia|]. split; [unfold Y; lia|].
  unfold X, Y. rewrite !shl_align_value by (unfold ez; lia).
  destruct (Z.compare_spec ex ey) as [Heq|Hlt|Hgt].
  - subst ey. unfold ez. rewrite Z.min_id, Z.sub_diag. simpl. rewrite !Pos.mul_1_r.
    reflexivity.
  - unfold ez. rewrite Z.min_l, Z.sub_diag by lia. rewrite Z.mul_1_r.
    apply Z.compare_lt_iff, larger_exponent; assumption.
  - unfold ez. rewrite Z.min_r, Z.sub_diag by lia. rewrite Z.mul_1_r.
    apply Z.compare_gt_iff, larger_exponent; assumption.
Qed.

(** The sign of a difference *)

Lemma SFsub_positive (x y : spec_float) :
  valid_binary x = true -> valid_binary y = true ->
  is_number x -> is_number y ->
  SFltb (S754_zero false) (SFsub prec emax y x) = SFltb x y.
Proof.
  unfold is_number.
  destruct x as [sx|sx| |sx mx ex], y as [sy|sy| |sy my ey]; intros Vx Vy Hx Hy;
    try contradiction; try (destruct sx, sy; reflexivity); try (destruct sx; reflexivity);
    try (destruct sy; reflexivity).
  cbn [valid_binary] in Vx, Vy.
  cbn [SFsub]. cbv zeta.
  destruct (bounded_canonical mx ex Vx) as (Hex & _). destruct (bounded_canonical my ey Vy) as (Hey & _).
  rewrite binary_normalize_sign by lia.
  rewrite (Z.min_comm ey ex).
  destruct (aligned_difference mx my ex ey Vx Vy) as (HX & HY & Hcmp).
  cbv zeta in HY, HX, Hcmp.
  set (X := Zpos (fst (shl_align mx ex (Z.min ex ey)))) in *.
  set (Y := Zpos (fst (shl_align my ey (Z.min ex ey)))) in *.
  unfold SFltb. cbn [SFcompare]. rewrite compare_cont_Eq.
  assert (Hlt : (0 <? Y - X) = match X ?= Y with Lt => true | _ => false end).
  { destruct (Z.compare_spec X Y); [apply Z.ltb_ge | apply Z.ltb_lt | apply Z.ltb_ge]; lia. }
  assert (Hgt : (0 <? X - Y) = match X ?= Y with Gt => true | _ => false end).
  { destruct (Z.compare_spec X Y); [apply Z.ltb_ge | apply Z.ltb_ge | apply Z.ltb_lt]; lia. }
  destruct sx, sy; cbn [cond_Zopp].
  - replace (- Y - - X) with (X - Y) by lia. rewrite Hgt, Hcmp.
    destruct (ex ?= ey); try reflexivity. destruct (mx ?= my)%positive; reflexivity.
  - apply Z.ltb_lt. lia.
  - apply Z.ltb_ge. lia.
  - rewrite Hlt, Hcmp.
    destruct (ex ?= ey); try reflexivity.
Qed.



(** The primitive floats *)

Lemma Prim2SF_number (f : float) : is_nan f = false -> is_number (Prim2SF f).
Proof.
  intros H. unfold is_number, Prim2SF. rewrite H.
  destruct (is_zero f); [discriminate|]. destruct (is_infinity f); [discriminate|].
  destruct (Z.frexp f) as [r e].
  destruct (shr_fexp prec emax (Uint63Axioms.to_Z (normfr_mantissa r)) (e - prec) loc_Exact)
    as [mrs e'].
  destruct (shr_m mrs); discriminate.
Qed.

Lemma Prim2SF_zero : Prim2SF 0 = S754_zero false.
Proof. reflexivity. Qed.

(** For two numbers, [b - a] is positive exactly when [a < b]. *)
Lemma difference_positive (a b : float) :
  is_nan a = false -> is_nan b = false ->
  (0 <? b - a)%float = (a <? b)%float.
Proof.
  intros Ha Hb. rewrite !FloatAxioms.ltb_spec, FloatAxioms.sub_spec, Prim2SF_zero.
  apply SFsub_positive; auto using FloatAxioms.Prim2SF_valid, Prim2SF_number.
Qed.

Lemma ltb_false_leb (a b : float) :
  is_nan a = false -> is_nan b = false ->
  (a <? b)%float = false -> (b <=? a)%float = true.
Proof.
  intros Ha Hb. rewrite FloatAxioms.ltb_spec, FloatAxioms.leb_spec.
  apply SFltb_false_SFleb; auto using Prim2SF_number.
Qed.

Lemma ltb_leb (a b : float) : (a <? b)%float = true -> (a <=? b)%float = true.
Proof. rewrite FloatAxioms.ltb_spec, FloatAxioms.leb_spec. apply SFltb_SFleb. Qed.

Lemma leb_trans (a b c : float) :
  (a <=? b)%float = true -> (b <=? c)%float = true -> (a <=? c)%float = true.
Proof. rewrite !FloatAxioms.leb_spec. apply SFleb_trans. Qed.

Lemma leb_refl (a : float) : is_nan a = false -> (a <=? a)%float = true.
Proof.
  intros Ha. unfold is_nan in Ha. apply negb_false_iff in Ha.
  rewrite FloatAxioms.eqb_spec in Ha. rewrite FloatAxioms.leb_spec.
  unfold SFeqb in Ha. unfold SFleb.
  destruct (SFcompare (Prim2SF a) (Prim2SF a)) as [[]|]; try discriminate; reflexivity.
Qed.

End Binary64.

(** ** Retrieval on binary64 scores *)

Module Retrieval64Theory.
Import Retrieval Retrieval64.
#[local] Set Warnings "-inexact-float".

(** The sort *)

Section SortFacts.
Context {A : Type} (key : A -> float).

Definition numbers (l : list A) : bool := forallb (fun x => negb (is_nan (key x))) l.

Lemma numbers_elem (l : list A) (x : A) : numbers l = true -> x ∈ l -> is_nan (key x) = false.
Proof.
  unfold numbers. rewrite forallb_forall. intros H Hx.
  apply negb_true_iff, H, list_elem_of_In, Hx.
Qed.

Lemma head_insert_desc (x : A) (l : list A) :
  head (insert_desc key x l) =
  match head l with
  | None => Some x
  | Some y => if goes_behind key x y then Some y else Some x
  end.
Proof. destruct l as [|y l]; simpl; [reflexivity|]. destruct (goes_behind key x y); reflexivity. Qed.

(** When no key is [NaN], the sort puts in front the first of the elements
    with the highest key. *)
Lemma head_sort_desc_first_highest (l : list A) :
  numbers l = true -> l <> [] ->
  exists i best,
    l !! i = Some best /\ head (sort_desc key l) = Some best /\
    (forall x, x ∈ l -> (key x <=? key best)%float = true) /\
    (forall j x, (j < i)%nat -> l !! j = Some x -> (key x <? key best)%float = true).
Proof.
  induction l as [|x l IH]; intros Hnum Hne; [contradiction|].
  assert (Hx : is_nan (key x) = false) by (apply (numbers_elem (x :: l)); [exact Hnum | left]).
  assert (Hl : numbers l = true).
  { unfold numbers in *. simpl in Hnum. apply andb_true_iff in Hnum. tauto. }
  cbn [sort_desc]. rewrite head_insert_desc.
  destruct l as [|y l'].
  - exists 0%nat, x. split; [reflexivity|]. split; [reflexivity|]. split.
    + intros z Hz. apply list_elem_of_singleton in Hz as ->. apply Binary64.leb_refl, Hx.
    + intros j z Hj. lia.
  - destruct (IH Hl) as (i & best & Hi & Hhead & Hmax & Hfirst); [discriminate|].
    rewrite Hhead.
    assert (Hb : is_nan (key best) = false).
    { apply (numbers_elem (y :: l')); [exact Hl|]. eapply list_elem_of_lookup_2, Hi. }
    unfold goes_behind. rewrite (Binary64.difference_positive (key x) (key best) Hx Hb).
    destruct (key x <? key best)%float eqn:Hlt.
    + exists (S i), best. split; [exact Hi|]. split; [reflexivity|]. split.
      * intros z Hz. apply elem_of_cons in Hz as [->|Hz]; [apply Binary64.ltb_leb, Hlt|].
        apply Hmax, Hz.
      * intros j z Hj Hz. destruct j as [|j]; simpl in Hz.
        -- injection Hz as <-. exact Hlt.
        -- apply (Hfirst j z); [lia | exact Hz].
    + exists 0%nat, x. split; [reflexivity|]. split; [reflexivity|]. split.
      * intros z Hz. apply elem_of_cons in Hz as [->|Hz]; [apply Binary64.leb_refl, Hx|].
        apply (Binary64.leb_trans _ (key best)); [apply Hmax, Hz|].
        apply Binary64.ltb_false_leb; assumption.
      * intros j z Hj. lia.
Qed.
End SortFacts.

(** Root-cause heuristic *)

Definition heuristic_score (errorLog : string) (r : entry) : float :=
  let boosted :=
    if file_mentioned (mentionedFiles errorLog) r
    then (combinedScore r * 2)%float else combinedScore r in
  let m := length (RetrievalTheory.matching_terms (meta_content r) errorLog) in
  if (0 <? m)%nat then (boosted * (1 + of_count m * 0.1))%float else boosted.

Lemma score_result_heuristic (errorLog : string) (r : entry) :
  rootCauseScore (score_result (mentionedFiles errorLog) errorLog r) =
  heuristic_score errorLog r.
Proof.
  unfold score_result, heuristic_score. cbn [rootCauseScore].
  rewrite RetrievalTheory.matchCount_of_length. reflexivity.
Qed.

(** C9 (as amended).  The heuristic answers [null] for a missing or empty
    result list.  The score of a result is its combined score, times 2 when
    its file name is one the file-name pattern extracts from the log, then
    times [1 + m * 0.1] when [m], the count of every occurrence in the log
    of a significant token found in the file content, is positive, all in
    binary64.  For a non-empty list in which no such score is [NaN], the
    answer is the first of the results with the highest score: no result
    scores higher, and every result in front of it scores lower. *)
Theorem identifyRootCauseFile_first_highest (r : entry) (rs : list entry)
    (errorLog : string) :
  let scored_of := score_result (mentionedFiles errorLog) errorLog in
  let score := fun x => rootCauseScore (scored_of x) in
  forallb (fun x => negb (is_nan (score x))) (r :: rs) = true ->
  identifyRootCauseFile None errorLog = None /\
  identifyRootCauseFile (Some []) errorLog = None /\
  (forall x, score x = heuristic_score errorLog x) /\
  exists i best,
    (r :: rs) !! i = Some best /\
    identifyRootCauseFile (Some (r :: rs)) errorLog = Some (scored_of best) /\
    (forall x, x ∈ r :: rs -> (score x <=? score best)%float = true) /\
    (forall j x, (j < i)%nat -> (r :: rs) !! j = Some x ->
                 (score x <? score best)%float = true).
Proof.
  intros scored_of score Hnum.
  split; [reflexivity|]. split; [reflexivity|].
  split; [intros x; apply score_result_heuristic|].
  assert (Hnum' : numbers rootCauseScore (map scored_of (r :: rs)) = true).
  { unfold numbers. rewrite <- Hnum. clear.
    induction (r :: rs) as [|x l IH]; simpl; [reflexivity|]. rewrite IH. reflexivity. }
  destruct (head_sort_desc_first_highest rootCauseScore (map scored_of (r :: rs)) Hnum')
    as (i & best_s & Hi & Hhead & Hmax & Hfirst); [discriminate|].
  change (map scored_of (r :: rs)) with (scored_of <$> (r :: rs)) in Hi.
  rewrite list_lookup_fmap in Hi.
  destruct ((r :: rs) !! i) as [best|] eqn:Hbest; [|discriminate].
  injection Hi as <-.
  exists i, best. split; [exact Hbest|]. split; [exact Hhead|]. split.
  - intros x Hx. apply (Hmax (scored_of x)).
    apply list_elem_of_fmap. exists x. auto.
  - intros j x Hj Hx. apply (Hfirst j (scored_of x) Hj).
    change (map scored_of (r :: rs)) with (scored_of <$> (r :: rs)).
    rewrite list_lookup_fmap, Hx. reflexivity.
Qed.

(** C9, witness: of two results with the score [1.7], the second one has
    seven matching tokens and is boosted to [1.7000000000000002]. *)
Lemma identifyRootCauseFile_first_highest_witness :
  let errorLog := "alpha bravo charlie delta echoes foxtrot golfer" in
  let a := Scenarios64.file_result "A" 1.7 "" "" in
  let b := Scenarios64.file_result "B" 1 "" "alpha bravo charlie delta echoes foxtrot golfer" in
  let scored_of := score_result (mentionedFiles errorLog) errorLog in
  let score := fun x => rootCauseScore (scored_of x) in
  forallb (fun x => negb (is_nan (score x))) [a; b] = true /\
  identifyRootCauseFile (Some [a; b]) errorLog = Some (scored_of b) /\
  score b = 1.7000000000000002%float /\
  exists i best,
    [a; b] !! i = Some best /\
    identifyRootCauseFile (Some [a; b]) errorLog = Some (scored_of best) /\
    (forall x, x ∈ [a; b] -> (score x <=? score best)%float = true) /\
    (forall j x, (j < i)%nat -> [a; b] !! j = Some x ->
                 (score x <? score best)%float = true).
Proof.
  cbv zeta. split; [vm_compute; reflexivity|]. split; [vm_compute; reflexivity|].
  split; [vm_compute; reflexivity|].
  apply (identifyRootCauseFile_first_highest
           (Scenarios64.file_result "A" 1.7 "" "")
           [Scenarios64.file_result "B" 1 ""
              "alpha bravo charlie delta echoes foxtrot golfer"]
           "alpha bravo charlie delta echoes foxtrot golfer").
  vm_compute. reflexivity.
Defined.

(** The documented reading of the heuristic: distinct tokens, and a file name
    that appears anywhere in the log. *)
Definition claimed_score (errorLog : string) (r : entry) : float :=
  (combinedScore r *
   (if negb (String.eqb (meta_fileName r) "") && JS.includes errorLog (meta_fileName r)
    then 2 else 1) *
   (1 + 0.1 * of_count (RetrievalTheory.claimed_match_count (meta_content r) errorLog)))%float.

(** C9, counterexample.  A token that the error log repeats counts twice:
    the score is [1.2] where the documented count of distinct tokens gives
    [1.1]. *)
Lemma repeated_token_counts_twice :
  let r := Scenarios64.file_result "a" 1 "" "timeout" in
  let errorLog := "timeout timeout" in
  exists best,
    identifyRootCauseFile (Some [r]) errorLog = Some best /\
    rootCauseScore best = 1.2%float /\
    claimed_score errorLog r = 1.1%float /\
    (claimed_score errorLog (result best) <? rootCauseScore best)%float = true.
Proof.
  eexists. split; [vm_compute; reflexivity|].
  split; [vm_compute; reflexivity|].
  split; vm_compute; reflexivity.
Qed.

(** Normalised weights *)

Section Weights.
Context {vindex bindex embedding : Type}.
Variable vector_size : vindex -> nat.
Variable document_count : bindex -> nat.
Variable bm25_search : bindex -> string -> nat -> completion (list hit).
Variable generateEmbedding : string -> completion embedding.
Variable searchIndex : vindex -> embedding -> nat -> completion (list hit).

End Weights.



End Retrieval64Theory.

Module AgentTheory.
Import Json Agent.

(** Error evolution *)

Lemma updateErrorState_resolved (now : string) (ctx : context) (out : string) (s : Z)
    (previous : error_record) :
  parseErrorFromOutput now out = None ->
  current_blocking_error ctx = Some previous ->
  let ctx' := updateErrorState now ctx out s in
  solved_issues ctx' = solved_issues ctx ++ [resolved previous s now] /\
  resolution_step (resolved previous s now) = Some s /\
  current_blocking_error ctx' = None.
Proof.
  intros Hp Hc. unfold updateErrorState. rewrite Hp, Hc. simpl. auto.
Qed.

Lemma updateErrorState_installs (now : string) (ctx : context) (out : string) (s : Z)
    (e : error_record) :
  parseErrorFromOutput now out = Some e ->
  is_new_error (compareErrors (current_blocking_error ctx) (Some e)) ||
  is_progression (compareErrors (current_blocking_error ctx) (Some e)) = true ->
  let ctx' := updateErrorState now ctx out s in
  current_blocking_error ctx' = Some (active e s None) /\
  first_seen_step (active e s None) = Some s /\
  solved_issues ctx' =
    solved_issues ctx ++
    match current_blocking_error ctx with
    | Some p => [resolved p (s - 1) now]
    | None => []
    end.
Proof.
  intros Hp Hc. unfold updateErrorState. rewrite Hp, Hc. simpl.
  destruct (current_blocking_error ctx); simpl; rewrite ?app_nil_r; auto.
Qed.

(** With no previous error every parsed error is new. *)
Lemma compareErrors_first (e : error_record) :
  is_new_error (compareErrors None (Some e)) = true.
Proof. reflexivity. Qed.

(** The case the two flags leave out: same type, and another message or
    other files. *)
Lemma updateErrorState_same_type_kept (now : string) (ctx : context) (out : string) (s : Z)
    (p e : error_record) :
  parseErrorFromOutput now out = Some e ->
  current_blocking_error ctx = Some p ->
  type p = type e ->
  (message p <> message e \/ file_refs p <> file_refs e) ->
  let ctx' := updateErrorState now ctx out s in
  current_blocking_error ctx' = Some p /\ solved_issues ctx' = solved_issues ctx.
Proof.
  intros Hp Hc Ht Hd. unfold updateErrorState. rewrite Hp, Hc. unfold compareErrors.
  rewrite Ht, String.eqb_refl. simpl.
  rewrite andb_false_r. simpl.
  replace (String.eqb (message p) (message e) && same_files (file_refs p) (file_refs e))
    with false; [simpl; auto|].
  symmetry. apply andb_false_iff. destruct Hd as [Hm|Hf].
  - left. apply String.eqb_neq, Hm.
  - right. unfold same_files. apply bool_decide_eq_false, Hf.
Qed.

(** C1, the code at the failing input.  After [KeyError: 'customer_id'] at
    step 0, the output [KeyError: 'order_id'] at step 3 parses to an error
    that differs from the blocking one and that [compareErrors] reports as
    [progressed]; the blocking error stays the first one and nothing moves
    to [solved_issues]. *)
Theorem updateErrorState_keeps_stale_error :
  let now := "2025-01-01T00:00:00.000Z" in
  let ctx1 := updateErrorState now AgentScenarios.empty_context AgentScenarios.first_error 0 in
  let ctx2 := updateErrorState now ctx1 AgentScenarios.second_error 3 in
  option_map message (parseErrorFromOutput now AgentScenarios.first_error) = Some "'customer_id'" /\
  option_map message (parseErrorFromOutput now AgentScenarios.second_error) = Some "'order_id'" /\
  option_map message (current_blocking_error ctx1) = Some "'customer_id'" /\
  resolution_status
    (compareErrors (current_blocking_error ctx1) (parseErrorFromOutput now AgentScenarios.second_error))
    = "progressed" /\
  current_blocking_error ctx2 = current_blocking_error ctx1 /\
  solved_issues ctx2 = [].
Proof. vm_compute. repeat split; reflexivity. Qed.


(** Termination policy *)

Lemma slice_last_app {A} (n : nat) (pre last : list A) :
  length last = n -> slice_last n (pre ++ last) = last.
Proof.
  intros <-. unfold slice_last. rewrite length_app.
  replace (length pre + length last - length last)%nat with (length pre) by lia.
  apply drop_app_length.
Qed.

Lemma shouldTerminateSession_fires (ctx : context) :
  (maxSteps ctx <= history_length ctx \/
   exists earlier a b c,
     session_history ctx = earlier ++ [a; b; c] /\
     failed a = true /\ failed b = true /\ failed c = true) ->
  should_terminate (shouldTerminateSession ctx) = true.
Proof.
  intros H. unfold shouldTerminateSession.
  destruct (Z.leb (maxSteps ctx) (history_length ctx)) eqn:Hcap; [reflexivity|].
  destruct H as [Hle|(earlier & a & b & c & Hh & Ha & Hb & Hc)].
  - apply Z.leb_gt in Hcap. lia.
  - rewrite Hh, slice_last_app by reflexivity.
    rewrite !filter_cons, filter_nil, Ha, Hb, Hc. reflexivity.
Qed.

(** C4.  When the recorded steps number at least the cap
    ([max_session_steps], 20 when it is missing or zero), or the last three
    recorded steps all have status [error], the termination check fires,
    and a turn of the loop that starts there ends the session with the
    context as it is and without a call of the dispatcher. *)
Theorem termination_ends_session (ctx : context) :
  (maxSteps ctx <= history_length ctx \/
   exists earlier a b c,
     session_history ctx = earlier ++ [a; b; c] /\
     failed a = true /\ failed b = true /\ failed c = true) ->
  should_terminate (shouldTerminateSession ctx) = true /\
  (forall toolFunctions w planner stepCount,
     loop_turn toolFunctions w planner ctx stepCount =
     {| next_context := ctx; goes_on := false; dispatched := [] |}) /\
  (forall toolFunctions w planner budget stepCount,
     debugLoop_from toolFunctions w planner (S budget) stepCount ctx = (ctx, [])).
Proof.
  intros H. pose proof (shouldTerminateSession_fires ctx H) as Hfire.
  split; [exact Hfire|]. split.
  - intros. unfold loop_turn. rewrite Hfire. reflexivity.
  - intros. simpl. unfold loop_turn. rewrite Hfire. reflexivity.
Qed.

(** C4, witness: three failed reads in a row. *)
Lemma termination_ends_session_witness :
  (exists earlier a b c,
     session_history AgentScenarios.three_failures = earlier ++ [a; b; c] /\
     failed a = true /\ failed b = true /\ failed c = true) /\
  should_terminate (shouldTerminateSession AgentScenarios.three_failures) = true.
Proof.
  assert (H : exists earlier a b c,
     session_history AgentScenarios.three_failures = earlier ++ [a; b; c] /\
     failed a = true /\ failed b = true /\ failed c = true).
  { exists [], (AgentScenarios.failing_step 1), (AgentScenarios.failing_step 2), (AgentScenarios.failing_step 3).
    repeat split; reflexivity. }
  split; [exact H|].
  exact (proj1 (termination_ends_session AgentScenarios.three_failures (or_intror H))).
Defined.

(** The cap that [maxSteps] reads. *)
Lemma maxSteps_configured (ctx : context) (c : constraints_record) (n : Z) :
  constraints ctx = Some c -> max_session_steps c = Some n -> n <> 0 -> maxSteps ctx = n.
Proof.
  intros Hc Hn Hz. unfold maxSteps, or_else. rewrite Hc, Hn.
  destruct (Z.eqb_spec n 0); [contradiction | reflexivity].
Qed.

Lemma maxSteps_default (ctx : context) :
  constraints ctx = None \/
  (exists c, constraints ctx = Some c /\
             (max_session_steps c = None \/ max_session_steps c = Some 0)) ->
  maxSteps ctx = 20.
Proof.
  unfold maxSteps, or_else. intros [->|(c & -> & [->| ->])]; reflexivity.
Qed.


(** [read_file_content] *)

Definition is_read_of (file_path : value) (s : history_step) : bool :=
  is_tool READ_FILE_CONTENT (action_taken s) && strict_eq (recorded_file_path s) file_path.

Lemma find_rev_last {A} (p : A -> bool) (before after : list A) (x : A) :
  p x = true -> forallb (fun y => negb (p y)) after = true ->
  List.find p (rev (before ++ x :: after)) = Some x.
Proof.
  intros Hx Hafter. rewrite rev_app_distr. simpl. rewrite <- app_assoc. simpl.
  induction after as [|y after IH] using rev_ind.
  - simpl. rewrite Hx. reflexivity.
  - rewrite forallb_app in Hafter. apply andb_true_iff in Hafter as [Ha Hy].
    simpl in Hy. rewrite andb_true_r in Hy. apply negb_true_iff in Hy.
    rewrite rev_app_distr. simpl. rewrite Hy. apply IH, Ha.
Qed.

Lemma last_read_found (ctx : context) (file_path : value)
    (before after : list history_step) (s : history_step) :
  session_history ctx = before ++ s :: after ->
  is_read_of file_path s = true ->
  forallb (fun y => negb (is_read_of file_path y)) after = true ->
  last_read ctx file_path = Some s.
Proof.
  intros Hh Hs Hafter. unfold last_read. rewrite Hh.
  apply (find_rev_last (is_read_of file_path)); assumption.
Qed.

Section ReadFile.
Variable w : World.
Variable ctx : context.
Variable params : value.
Variable fp : string.
Variable resolvedFilePath : string.

Let resolvedPath : string := path_resolve w (cwd_or_dot ctx) resolvedFilePath.
Let relativePath : string := path_relative w (cwd_or_dot ctx) resolvedPath.


Lemma read_file_body_resolved (props : list (string * value)) :
  params = VObj props ->
  get params "file_path" = VStr fp ->
  resolveFileWithState w fp ctx = ResolvedPath resolvedFilePath ->
  read_file_content w params ctx =
    catching "Failed to read file: "
      match cached_read ctx params (VStr fp) relativePath with
      | Some answer => answer
      | None =>
          if negb (existsSync w resolvedPath) then
            Returned (error_result ("File not found: " +:+ fp))
          else if truthy (get params "start_line") || truthy (get params "end_line") then
            let first := if truthy (get params "start_line")
                         then get params "start_line" else VNum 1 in
            let count :=
              if truthy (get params "end_line")
              then match to_num (get params "end_line"), to_num first with
                   | Some e, Some s => Some (e - s + 1)
                   | _, _ => None
                   end
              else Some 50 in
            try! contextResult <- readFileContext w resolvedPath first count;
            let '(text, first_read, last_read) := contextResult in
            Returned (VObj [("status", VStr "success");
                            ("file_path", VStr relativePath);
                            ("content", VStr text);
                            ("lines_read", VArr [first_read; last_read]);
                            ("total_lines", VNum (line_count text))])
          else
            try! text <- readFile w resolvedPath;
            Returned (VObj [("status", VStr "success");
                            ("file_path", VStr relativePath);
                            ("content", VStr text);
                            ("lines_read", VArr [VNum 1; VNum (line_count text)]);
                            ("total_lines", VNum (line_count text))])
      end.
Proof.
  intros Hobj Hfp Hres. unfold read_file_content, read_file_body. subst params.
  change (destructure (VObj props) "file_path")
    with (Returned (get (VObj props) "file_path")).
  cbv beta iota delta [cbind]. rewrite Hfp, Hres. reflexivity.
Qed.


(** What the amended claim leaves out: a name that [files_read] does not
    own and [Object.prototype] answers passes the cache test as well, and
    the answer then fails on [.split]. *)
Lemma read_file_content_prototype_entry (props : list (string * value))
    (before after : list history_step) (s : history_step) :
  params = VObj props ->
  get params "file_path" = VStr fp ->
  resolveFileWithState w fp ctx = ResolvedPath resolvedFilePath ->
  truthy (get params "start_line") = false ->
  truthy (get params "end_line") = false ->
  files_read ctx !! relativePath = None ->
  In relativePath object_prototype_names ->
  session_history ctx = before ++ s :: after ->
  is_read_of (VStr fp) s = true ->
  forallb (fun y => negb (is_read_of (VStr fp) y)) after = true ->
  history_length ctx - step_no s < 3 ->
  read_file_content w params ctx =
    Returned (error_result
      "Failed to read file: context.knowledge_base.files_read[relativePath].split is not a function").
Proof.
  intros Hobj Hfp Hres Hs He Hfile Hin Hh Hread Hafter Hwin.
  rewrite (read_file_body_resolved props Hobj Hfp Hres).
  unfold cached_read, cache_test, read_property. rewrite Hs, He, Hfile.
  assert (Hmem : JS.mem relativePath object_prototype_names = true).
  { unfold JS.mem. apply existsb_exists. exists relativePath.
    split; [exact Hin | apply String.eqb_refl]. }
  rewrite Hmem. cbn [negb andb property_truthy].
  rewrite (last_read_found ctx (VStr fp) before after s Hh Hread Hafter).
  apply Z.ltb_lt in Hwin. rewrite Hwin. reflexivity.
Qed.
End ReadFile.

(** The same for the table of mappings: a requested name that
    [file_mappings] does not own and [Object.prototype] answers is resolved
    to a value that is not a path. *)
Lemma read_file_content_prototype_mapping (w : World) (ctx : context)
    (props : list (string * value)) (fp : string) (fs : file_state_record) :
  get (VObj props) "file_path" = VStr fp ->
  file_state ctx = Some fs ->
  file_mappings fs !! fp = None ->
  In fp object_prototype_names ->
  read_file_content w (VObj props) ctx =
    Returned (error_result ("Failed to read file: " +:+ path_member_error w fp)).
Proof.
  intros Hfp Hfs Hmap Hin. unfold read_file_content, read_file_body.
  change (destructure (VObj props) "file_path")
    with (Returned (get (VObj props) "file_path")).
  cbv beta iota delta [cbind]. rewrite Hfp.
  unfold resolveFileWithState, read_property. rewrite Hfs, Hmap.
  assert (Hmem : JS.mem fp object_prototype_names = true).
  { unfold JS.mem. apply existsb_exists. exists fp.
    split; [exact Hin | apply String.eqb_refl]. }
  rewrite Hmem. reflexivity.
Qed.




(** Statuses of the tool layer *)

Definition tool_statuses : list string := ["success"; "error"; "finished"].
Definition dispatcher_statuses : list string := ["success"; "error"; "finished"; "skipped"].

Definition has_status (allowed : list string) (r : value) : Prop :=
  exists st, obj_status r = Some st /\ In st allowed.

(** Whatever a tool function returns carries a tool status. *)
Definition returns_tool_status (f : tool_fn) : Prop :=
  forall params ctx r, f params ctx = Returned r -> has_status tool_statuses r.

Lemma status_error (msg : string) : has_status tool_statuses (error_result msg).
Proof. exists "error". split; [reflexivity | simpl; auto]. Qed.

Lemma status_of_props (st : string) (rest : list (string * value)) :
  In st tool_statuses -> has_status tool_statuses (VObj (("status", VStr st) :: rest)).
Proof. intros H. exists st. split; [reflexivity | exact H]. Qed.

Ltac status_now :=
  first [ apply status_error
        | apply status_of_props; simpl; tauto ].

Lemma catching_status (prefix : string) (body : completion value) (r : value) :
  (forall r', body = Returned r' -> has_status tool_statuses r') ->
  catching prefix body = Returned r -> has_status tool_statuses r.
Proof.
  intros Hb. unfold catching. destruct body as [r'|e]; intros [= <-].
  - apply Hb. reflexivity.
  - apply status_error.
Qed.

Lemma cached_read_status (ctx : context) (params file_path : value) (rel : string)
    (answer : completion value) (r : value) :
  cached_read ctx params file_path rel = Some answer ->
  answer = Returned r -> has_status tool_statuses r.
Proof.
  unfold cached_read. destruct (cache_test ctx params file_path rel) as [[entry s]|];
    [|discriminate].
  cbn [option_map fst snd]. intros [= <-]. unfold cached_answer.
  destruct entry as [v| |]; try discriminate.
  destruct v; try discriminate. intros [= <-]. status_now.
Qed.

Lemma read_file_content_status (w : World) : returns_tool_status (read_file_content w).
Proof.
  intros params ctx r. unfold read_file_content. apply catching_status.
  intros r'. unfold read_file_body.
  destruct (destructure params "file_path") as [file_path|e]; simpl; [|discriminate].
  destruct file_path; try discriminate.
  destruct (resolveFileWithState w s ctx) as [resolved|name]; [|discriminate].
  destruct (cached_read _ _ _ _) as [c|] eqn:Hc.
  { intros Hr. eapply cached_read_status; [exact Hc | exact Hr]. }
  destruct (negb (existsSync w _)). { intros [= <-]. status_now. }
  destruct (truthy _ || truthy _).
  - destruct (readFileContext w _ _ _) as [[[text a] b]|e]; simpl; [|discriminate].
    intros [= <-]. status_now.
  - destruct (readFile w _) as [text|e]; simpl; [|discriminate].
    intros [= <-]. status_now.
Qed.

Lemma run_diagnostic_command_status (w : World) : returns_tool_status (run_diagnostic_command w).
Proof.
  intros params ctx r. unfold run_diagnostic_command. apply catching_status.
  intros r'. unfold run_diagnostic_body.
  destruct (destructure params "command_string") as [cmd|e]; simpl; [|discriminate].
  destruct cmd; try (intros [= <-]; status_now).
  destruct (String.eqb s ""). { intros [= <-]. status_now. }
  destruct (_ || _). { intros [= <-]. status_now. }
  destruct (runCommand w _) as [ok output]. intros [= <-].
  destruct ok; status_now.
Qed.

Lemma propose_fix_by_command_status (w : World) : returns_tool_status (propose_fix_by_command w).
Proof.
  intros params ctx r. unfold propose_fix_by_command. apply catching_status.
  intros r'. unfold propose_fix_body.
  destruct (destructure params "command_to_propose") as [cmd|e]; simpl; [|discriminate].
  assert (Hrest :
    forall r'',
      (try! _ <- display w cmd;
       try! confirmed <- askYesNo w "Run this command?";
       (if negb confirmed
        then Returned (VObj [("status", VStr "success");
                             ("user_confirmation", VBool false);
                             ("message", VStr "Command was rejected by user")])
        else
          try! _ <- display w cmd;
          (let '(ok, output) := runCommand w cmd in
           Returned (VObj [("status", VStr "success");
                           ("user_confirmation", VBool true);
                           ("command_output",
                             VObj (command_result ok output ++ [("success", VBool ok)]));
                           ("message", VStr (if ok then "Command executed successfully"
                                             else "Command failed"))])))) = Returned r'' ->
      has_status tool_statuses r'').
  { intros r''.
    destruct (display w cmd) as [[]|e]; simpl; [|discriminate].
    destruct (askYesNo w _) as [confirmed|e]; simpl; [|discriminate].
    destruct confirmed; simpl.
    - destruct (runCommand w cmd) as [ok output]. intros [= <-]. status_now.
    - intros [= <-]. status_now. }
  destruct (truthy (get params "command_description")).
  - destruct (display w (get params "command_description")) as [[]|e]; simpl;
      [apply Hrest | discriminate].
  - apply Hrest.
Qed.

Lemma ask_user_for_clarification_status (w : World) :
  returns_tool_status (ask_user_for_clarification w).
Proof.
  intros params ctx r. unfold ask_user_for_clarification. apply catching_status.
  intros r'. unfold ask_user_body.
  destruct (destructure params "question_for_user") as [q|e]; simpl; [|discriminate].
  destruct (display w q) as [[]|e]; simpl; [|discriminate].
  destruct (askInput w _) as [answer|e]; simpl; [|discriminate].
  intros [= <-]. status_now.
Qed.

Lemma finish_debugging_status (w : World) : returns_tool_status (finish_debugging w).
Proof.
  intros params ctx r. unfold finish_debugging.
  destruct (destructure params "conclusion_message_for_user") as [m|e]; simpl; [|discriminate].
  destruct (get params "final_status"); try discriminate.
  destruct (display w m) as [[]|e]; simpl; [|discriminate].
  intros [= <-]. status_now.
Qed.

Lemma environment_tool_status (w : World) (name prefix : string) :
  returns_tool_status (environment_tool w name prefix).
Proof.
  intros params ctx r. unfold environment_tool. apply catching_status.
  intros r'. destruct (tool_body w name params ctx) as [[ok payload]|e]; simpl; [|discriminate].
  intros [= <-]. destruct ok; status_now.
Qed.

Lemma assoc_In {A} (k : string) (l : list (string * A)) (v : A) :
  assoc k l = Some v -> In (k, v) l.
Proof.
  induction l as [|[k' v'] l IH]; simpl; [discriminate|].
  destruct (String.eqb_spec k' k) as [->|Hne].
  - intros [= ->]. left. reflexivity.
  - intros H. right. apply IH, H.
Qed.

Lemma toolFunctions_status (w : World) (name : string) (f : tool_fn) :
  assoc name (toolFunctions_analyzer w) = Some f -> returns_tool_status f.
Proof.
  intros H. apply assoc_In in H. simpl in H.
  repeat (destruct H as [[= <- <-]|H]);
    first [ apply environment_tool_status
          | apply read_file_content_status
          | apply run_diagnostic_command_status
          | apply propose_fix_by_command_status
          | apply ask_user_for_clarification_status
          | apply finish_debugging_status
          | contradiction ].
Qed.

Lemma toolFunctions_seeded_status (w : World) (name : string) (f : tool_fn) :
  assoc name (toolFunctions_seeded w) = Some f -> returns_tool_status f.
Proof.
  intros H. apply (toolFunctions_status w name).
  change (assoc name (toolFunctions_analyzer w))
    with (if String.eqb "initial_error_analyzer" name
          then Some (initial_error_analyzer w)
          else assoc name (toolFunctions_seeded w)).
  destruct (String.eqb_spec "initial_error_analyzer" name) as [<-|_]; [|exact H].
  vm_compute in H. discriminate H.
Qed.

(** Dispatcher *)

Definition recent_duplicate (ctx : context) (sig : string) : option recent_action :=
  List.find (is_recent_duplicate ctx sig) (recent_actions ctx).

Lemma executeAgentTool_gate (toolFunctions : list (string * tool_fn)) (w : World)
    (name : string) (params : value) (ctx : context) (sig : string) :
  createActionSignature w name params = Returned sig ->
  executeAgentTool toolFunctions w name params ctx =
  match recent_duplicate ctx sig with
  | Some d =>
      Returned
        (VObj [("status", VStr "skipped");
               ("message", VStr ("Action skipped - Identical action performed in step " +:+
                                 pretty (action_step d)));
               ("duplicate_step", VNum (action_step d));
               ("previous_result", previous_result ctx (Some (action_step d)))])
  | None =>
      match lookup_tool toolFunctions name with
      | Missing => Returned (error_result ("Unknown tool: " +:+ name))
      | Own f => catching "Tool execution failed: " (f params ctx)
      | Inherited => catching "Tool execution failed: " (inherited_call w name params ctx)
      end
  end.
Proof.
  intros Hsig. unfold executeAgentTool, shouldSkipAction, recent_duplicate.
  rewrite Hsig. simpl.
  destruct (List.find _ _) as [d|]; reflexivity.
Qed.

(** C10 (as amended).  For a call whose action signature can be computed
    and whose tool name is not a property inherited from
    [Object.prototype], the dispatcher returns an object whose status is
    [success], [error], [finished] or [skipped]; when the deduplication
    gate does not fire, a name outside the tool table yields the error
    [Unknown tool: <name>], and an exception thrown by the tool function is
    returned as the error [Tool execution failed: <message>]. *)
Theorem executeAgentTool_total (w : World) (toolFunctions : list (string * tool_fn))
    (name : string) (params : value) (ctx : context) (sig : string) :
  toolFunctions = toolFunctions_seeded w \/ toolFunctions = toolFunctions_analyzer w ->
  createActionSignature w name params = Returned sig ->
  JS.mem name object_prototype_names = false ->
  exists r,
    executeAgentTool toolFunctions w name params ctx = Returned r /\
    has_status dispatcher_statuses r /\
    (recent_duplicate ctx sig = None ->
       (assoc name toolFunctions = None ->
          r = error_result ("Unknown tool: " +:+ name)) /\
       (forall f e, assoc name toolFunctions = Some f -> f params ctx = Thrown e ->
          r = error_result ("Tool execution failed: " +:+ e))).
Proof.
  intros Htbl Hsig Hproto.
  rewrite (executeAgentTool_gate toolFunctions w name params ctx sig Hsig).
  destruct (recent_duplicate ctx sig) as [d|].
  { eexists. split; [reflexivity|]. split; [|discriminate].
    exists "skipped". split; [reflexivity | simpl; tauto]. }
  unfold lookup_tool. rewrite Hproto.
  destruct (assoc name toolFunctions) as [f|] eqn:Hf.
  - assert (Hok : returns_tool_status f).
    { destruct Htbl as [-> | ->];
        [eapply toolFunctions_seeded_status | eapply toolFunctions_status]; exact Hf. }
    destruct (f params ctx) as [r|e] eqn:Hr; simpl.
    + exists r. split; [reflexivity|]. split.
      * destruct (Hok params ctx r Hr) as (st & Hst & Hin).
        exists st. split; [exact Hst|]. simpl in Hin |- *. tauto.
      * intros _. split; [discriminate|]. intros f' e' [= <-]. rewrite Hr. discriminate.
    + eexists. split; [reflexivity|]. split.
      * exists "error". split; [reflexivity | simpl; tauto].
      * intros _. split; [discriminate|]. intros f' e' [= <-]. rewrite Hr. intros [= <-].
        reflexivity.
  - eexists. split; [reflexivity|]. split.
    + exists "error". split; [reflexivity | simpl; tauto].
    + intros _. split; [reflexivity|]. intros f e. discriminate.
Qed.


(** C10, witness: [finish_debugging] on an empty session. *)
Lemma executeAgentTool_total_witness :
  JS.mem "finish_debugging" object_prototype_names = false /\
  exists r,
    executeAgentTool (toolFunctions_seeded (AgentScenarios.world_with [] "" true))
      (AgentScenarios.world_with [] "" true) "finish_debugging" AgentScenarios.finish_params
      AgentScenarios.empty_context = Returned r /\
    has_status dispatcher_statuses r.
Proof.
  split; [reflexivity|].
  destruct (executeAgentTool_total (AgentScenarios.world_with [] "" true)
              (toolFunctions_seeded (AgentScenarios.world_with [] "" true))
              "finish_debugging" AgentScenarios.finish_params AgentScenarios.empty_context _
              (or_introl eq_refl) eq_refl eq_refl) as (r & Hr & Hs & _).
  exists r. split; assumption.
Defined.

(** C10, counterexample.  An unknown tool name planned again one step
    after it failed is answered [skipped] by the deduplication gate, not
    [Unknown tool]. *)
Lemma unknown_tool_skipped_when_repeated :
  let w := AgentScenarios.world_with [] "" true in
  assoc "frobnicate" (toolFunctions_seeded w) = None /\
  JS.mem "frobnicate" object_prototype_names = false /\
  map step_result (session_history AgentScenarios.after_unknown_tool) =
    [error_result "Unknown tool: frobnicate"] /\
  exists r,
    executeAgentTool (toolFunctions_seeded w) w "frobnicate" (VObj []) AgentScenarios.after_unknown_tool
      = Returned r /\
    obj_status r = Some "skipped" /\
    get r "message" = VStr "Action skipped - Identical action performed in step 1".
Proof.
  split; [reflexivity|]. split; [reflexivity|]. split; [vm_compute; reflexivity|].
  eexists. split; [vm_compute; reflexivity|]. split; reflexivity.
Qed.

(** Deduplication gate *)

Lemma executeAgentTool_skips_duplicate (toolFunctions : list (string * tool_fn)) (w : World)
    (name : string) (params : value) (ctx : context) (sig : string) (a : recent_action) :
  createActionSignature w name params = Returned sig ->
  In a (recent_actions ctx) ->
  signature a = sig ->
  history_length ctx - 3 < action_step a ->
  exists d,
    In d (recent_actions ctx) /\ signature d = sig /\
    history_length ctx - 3 < action_step d /\
    executeAgentTool toolFunctions w name params ctx =
      Returned
        (VObj [("status", VStr "skipped");
               ("message", VStr ("Action skipped - Identical action performed in step " +:+
                                 pretty (action_step d)));
               ("duplicate_step", VNum (action_step d));
               ("previous_result", previous_result ctx (Some (action_step d)))]).
Proof.
  intros Hsig Hin Ha Hwin.
  rewrite (executeAgentTool_gate toolFunctions w name params ctx sig Hsig).
  unfold recent_duplicate.
  destruct (List.find _ _) as [d|] eqn:Hfind.
  - apply find_some in Hfind as [Hd Hdup]. exists d.
    unfold is_recent_duplicate in Hdup. apply andb_true_iff in Hdup as [Hs Hw].
    apply String.eqb_eq in Hs. apply Z.ltb_lt in Hw. unfold recentSteps in Hw. auto.
  - exfalso. apply (find_none _ _ Hfind) in Hin. unfold is_recent_duplicate in Hin.
    rewrite Ha, String.eqb_refl in Hin. simpl in Hin. apply Z.ltb_ge in Hin.
    unfold recentSteps in Hin. lia.
Qed.

(** The planner path of one turn records the skipped call. *)
Lemma loop_turn_records_skip (toolFunctions : list (string * tool_fn)) (w : World)
    (planner : context -> completion agent_action) (ctx : context) (stepCount : Z)
    (act : agent_action) (sig : string) (a : recent_action) :
  should_terminate (shouldTerminateSession ctx) = false ->
  planner ctx = Returned act ->
  createActionSignature w (planned_tool act) (planned_parameters act) = Returned sig ->
  In a (recent_actions ctx) -> signature a = sig ->
  history_length ctx - 3 < action_step a ->
  exists d last,
    In d (recent_actions ctx) /\ signature d = sig /\
    session_history (next_context (loop_turn toolFunctions w planner ctx stepCount)) =
      session_history ctx ++ [last] /\
    step_no last = stepCount /\
    obj_status (step_result last) = Some "skipped" /\
    get (step_result last) "duplicate_step" = VNum (action_step d) /\
    get (step_result last) "previous_result" = previous_result ctx (Some (action_step d)).
Proof.
  intros Hterm Hplan Hsig Hin Ha Hwin.
  destruct (executeAgentTool_skips_duplicate toolFunctions w _ _ ctx sig a Hsig Hin Ha Hwin)
    as (d & Hd & Hsd & Hwd & Hexec).
  unfold loop_turn. rewrite Hterm, Hplan, Hexec.
  cbn [strict_eq get assoc default String.eqb Ascii.eqb Bool.eqb].
  unfold updateAgentContext.
  assert (Hsig' :
    createActionSignature w
      (template (action_tool
         {| tool_used := Some (planned_tool act); tool_to_use := Some (planned_tool act);
            parameters := Some (planned_parameters act); tool_parameters := None |}))
      (default VUndefined (Some (planned_parameters act))) = Returned sig).
  { unfold action_tool, or_string. cbn [tool_to_use tool_used default].
    destruct (String.eqb (planned_tool act) ""); exact Hsig. }
  cbn [parameters] . rewrite Hsig'. cbn [cbind].
  eexists d, _. split; [exact Hd|]. split; [exact Hsd|].
  repeat split; reflexivity.
Qed.


(** C2, the code at the failing input.  The planner fails at steps 1 and 2
    with the same error.  Both recovery steps are recorded with the same
    action and the same signature, one step apart, and the second one is
    dispatched and answered ([success]), not skipped. *)
Theorem recovery_steps_not_deduplicated :
  let history := session_history (fst AgentScenarios.two_recoveries) in
  let recent := recent_actions (fst AgentScenarios.two_recoveries) in
  map step_no history = [1; 2] /\
  (exists a, map action_taken history = [a; a] /\ tool_to_use a = Some ASK_USER) /\
  (exists sig, map signature recent = [sig; sig]) /\
  map (fun s => obj_status (step_result s)) history = [Some "success"; Some "success"] /\
  map fst (snd AgentScenarios.two_recoveries) = [ASK_USER; ASK_USER].
Proof.
  vm_compute. split; [reflexivity|].
  split; [eexists; split; reflexivity|].
  split; [eexists; reflexivity|].
  split; reflexivity.
Qed.

End AgentTheory.

Module StoreTheory.
Import Store.

(** A value that does not refer below address [n]. *)
Definition fresh (n : nat) (v : hval) : Prop :=
  match v with
  | HRef l => (n <= l)%nat
  | _ => True
  end.

Definition obj_fresh (n : nat) (o : obj) : Prop :=
  match o with
  | Obj props => Forall (fun kv => fresh n (snd kv)) props
  | Arr xs => Forall (fresh n) xs
  end.

(** The objects from address [n] on refer to one another only. *)
Definition closed_from (n : nat) (h : heap) : Prop :=
  (n <= length h)%nat /\
  forall l o, (n <= l)%nat -> h !! l = Some o -> obj_fresh n o.

(** The objects below address [n] are the same in both stores. *)
Definition same_below (n : nat) (h h' : heap) : Prop :=
  forall l, (l < n)%nat -> h' !! l = h !! l.

(** [m] keeps the store closed from [n] on, leaves what is below [n] alone,
    and what it returns satisfies [P]. *)
Definition confined {A} (n : nat) (P : A -> Prop) (m : M A) : Prop :=
  forall h, closed_from n h ->
    closed_from n (fst (m h)) /\ same_below n h (fst (m h)) /\
    forall a, snd (m h) = Returned a -> P a.

Lemma same_below_refl (n : nat) (h : heap) : same_below n h h.
Proof. intros l _. reflexivity. Qed.

Lemma same_below_trans (n : nat) (h1 h2 h3 : heap) :
  same_below n h1 h2 -> same_below n h2 h3 -> same_below n h1 h3.
Proof. intros H12 H23 l Hl. rewrite H23, H12 by exact Hl. reflexivity. Qed.

Lemma confined_ret {A} (n : nat) (P : A -> Prop) (a : A) : P a -> confined n P (ret a).
Proof.
  intros Ha h Hh. simpl. split; [exact Hh|]. split; [apply same_below_refl|].
  intros a' [= <-]. exact Ha.
Qed.

Lemma confined_throw {A} (n : nat) (P : A -> Prop) (msg : string) : confined n P (throw msg).
Proof.
  intros h Hh. simpl. split; [exact Hh|]. split; [apply same_below_refl|]. discriminate.
Qed.

Lemma confined_bind {A B} (n : nat) (P : A -> Prop) (Q : B -> Prop) (m : M A) (f : A -> M B) :
  confined n P m -> (forall a, P a -> confined n Q (f a)) -> confined n Q (bind m f).
Proof.
  intros Hm Hf h Hh. unfold bind.
  destruct (Hm h Hh) as (Hc & Hs & Hp).
  destruct (m h) as [h1 [a|e]]; simpl in *.
  - destruct (Hf a (Hp a eq_refl) h1 Hc) as (Hc' & Hs' & Hq).
    split; [exact Hc'|]. split; [eapply same_below_trans; eassumption | exact Hq].
  - split; [exact Hc|]. split; [exact Hs | discriminate].
Qed.

Lemma confined_weaken {A} (n : nat) (P Q : A -> Prop) (m : M A) :
  confined n P m -> (forall a, P a -> Q a) -> confined n Q m.
Proof.
  intros Hm HPQ h Hh. destruct (Hm h Hh) as (Hc & Hs & Hp).
  split; [exact Hc|]. split; [exact Hs|]. intros a Ha. apply HPQ, Hp, Ha.
Qed.

(** A computation that only reads. *)
Lemma confined_reader {A} (n : nat) (m : M A) :
  (forall h, fst (m h) = h) -> confined n (fun _ => True) m.
Proof.
  intros Hm h Hh. rewrite Hm. split; [exact Hh|]. split; [apply same_below_refl | auto].
Qed.

Lemma confined_alloc (n : nat) (o : obj) : obj_fresh n o -> confined n (fresh n) (alloc o).
Proof.
  intros Ho h [Hlen Hcl]. unfold alloc. cbn [fst snd]. split; [|split].
  - split; [rewrite length_app; lia|].
    intros l o' Hl Hlook. apply lookup_app_Some in Hlook as [Hlook|[Hge Hlook]].
    + eapply Hcl; eassumption.
    + apply list_lookup_singleton_Some in Hlook as [_ <-]. exact Ho.
  - intros l Hl. apply lookup_app_l. lia.
  - intros a [= <-]. simpl. exact Hlen.
Qed.

Lemma confined_load (n l : nat) : (n <= l)%nat -> confined n (obj_fresh n) (load l).
Proof.
  intros Hl h Hh. unfold load. destruct (h !! l) as [o|] eqn:Hlook; simpl.
  - split; [exact Hh|]. split; [apply same_below_refl|].
    intros a [= <-]. destruct Hh as [_ Hcl]. eapply Hcl; eassumption.
  - split; [exact Hh|]. split; [apply same_below_refl | discriminate].
Qed.

Lemma confined_store (n l : nat) (o : obj) :
  (n <= l)%nat -> obj_fresh n o -> confined n (fun _ => True) (store l o).
Proof.
  intros Hl Ho h [Hlen Hcl]. unfold store. cbn [fst snd]. split; [|split].
  - split; [rewrite length_insert; exact Hlen|].
    intros l' o' Hl' Hlook. destruct (decide (l = l')) as [<-|Hne].
    + destruct (decide (l < length h)%nat) as [Hin|Hout].
      * rewrite list_lookup_insert_eq in Hlook by exact Hin. injection Hlook as <-. exact Ho.
      * rewrite list_insert_ge in Hlook by lia. eapply Hcl; eassumption.
    + rewrite list_lookup_insert_ne in Hlook by exact Hne. eapply Hcl; eassumption.
  - intros l' Hl'. apply list_lookup_insert_ne. lia.
  - auto.
Qed.

Lemma assoc_fresh (n : nat) (k : string) (props : list (string * hval)) :
  Forall (fun kv => fresh n (snd kv)) props ->
  fresh n (default HUndefined (Json.assoc k props)).
Proof.
  induction 1 as [|[k' v] props Hv _ IH]; simpl; [exact I|].
  destruct (String.eqb k' k); [exact Hv | exact IH].
Qed.

Lemma set_prop_fresh (n : nat) (k : string) (x : hval) (props : list (string * hval)) :
  fresh n x -> Forall (fun kv => fresh n (snd kv)) props ->
  Forall (fun kv => fresh n (snd kv)) (set_prop k x props).
Proof.
  intros Hx. induction 1 as [|[k' v] props Hv Hrest IH]; simpl.
  - constructor; [exact Hx | constructor].
  - destruct (String.eqb k' k); constructor; auto.
Qed.

Lemma remove_prop_fresh (n : nat) (k : string) (props : list (string * hval)) :
  Forall (fun kv => fresh n (snd kv)) props ->
  Forall (fun kv => fresh n (snd kv)) (remove_prop k props).
Proof.
  intros H. unfold remove_prop.
  induction H as [|kv props Hkv _ IH]; [constructor|].
  rewrite filter_cons. destruct (decide _); [constructor|]; assumption.
Qed.

Lemma confined_get (n : nat) (v : hval) (k : string) :
  fresh n v -> confined n (fresh n) (get v k).
Proof.
  intros Hv. destruct v; simpl; try (apply confined_ret; exact I); try apply confined_throw.
  - destruct (String.eqb k "length"); apply confined_ret; exact I.
  - eapply confined_bind; [apply confined_load, Hv|].
    intros [props|xs] Ho.
    + apply confined_ret, assoc_fresh, Ho.
    + destruct (String.eqb k "length"); apply confined_ret; exact I.
Qed.

Lemma confined_set (n : nat) (v : hval) (k : string) (x : hval) :
  fresh n v -> fresh n x -> confined n (fun _ => True) (set v k x).
Proof.
  intros Hv Hx. destruct v; simpl; try apply confined_throw.
  eapply confined_bind; [apply confined_load, Hv|].
  intros [props|xs] Ho.
  - apply confined_store; [exact Hv | apply set_prop_fresh; assumption].
  - apply confined_ret. exact I.
Qed.

Lemma confined_delete (n : nat) (v : hval) (k : string) :
  fresh n v -> confined n (fun _ => True) (delete v k).
Proof.
  intros Hv. destruct v; simpl; try apply confined_throw; try (apply confined_ret; exact I).
  eapply confined_bind; [apply confined_load, Hv|].
  intros [props|xs] Ho.
  - apply confined_store; [exact Hv | apply remove_prop_fresh; assumption].
  - apply confined_ret. exact I.
Qed.

Lemma confined_items_of (n : nat) (v : hval) (method : string) :
  fresh n v -> confined n (Forall (fresh n)) (items_of v method).
Proof.
  intros Hv. destruct v; simpl; try apply confined_throw.
  eapply confined_bind; [apply confined_load, Hv|].
  intros [props|xs] Ho; [apply confined_throw | apply confined_ret, Ho].
Qed.

Lemma confined_keys_of (n : nat) (v : hval) :
  fresh n v -> confined n (fun _ => True) (keys_of v).
Proof.
  intros Hv. destruct v; simpl; try apply confined_throw; try (apply confined_ret; exact I).
  eapply confined_bind; [apply confined_load, Hv|].
  intros [props|xs] Ho; apply confined_ret; exact I.
Qed.

Lemma confined_string_of (n : nat) (v : hval) : confined n (fun _ => True) (string_of v).
Proof. apply confined_reader. reflexivity. Qed.

Lemma confined_join_items (n : nat) (sep : string) (xs : list hval) :
  confined n (fun _ => True) (join_items sep xs).
Proof. apply confined_reader. reflexivity. Qed.

Lemma confined_filterM (n : nat) (p : hval -> M bool) (l : list hval) :
  (forall x, fresh n x -> confined n (fun _ => True) (p x)) ->
  Forall (fresh n) l -> confined n (Forall (fresh n)) (filterM p l).
Proof.
  intros Hp. induction 1 as [|x l Hx Hl IH]; simpl.
  - apply confined_ret. constructor.
  - eapply confined_bind; [apply Hp, Hx|]. intros keep _.
    eapply confined_bind; [exact IH|]. intros rest Hrest.
    apply confined_ret. destruct keep; [constructor|]; assumption.
Qed.

Lemma confined_mapM {A B} (n : nat) (P : A -> Prop) (Q : B -> Prop) (f : A -> M B)
    (l : list A) :
  (forall x, P x -> confined n Q (f x)) ->
  Forall P l -> confined n (Forall Q) (mapM f l).
Proof.
  intros Hf. induction 1 as [|x l Hx Hl IH]; simpl.
  - apply confined_ret. constructor.
  - eapply confined_bind; [apply Hf, Hx|]. intros y Hy.
    eapply confined_bind; [exact IH|]. intros ys Hys.
    apply confined_ret. constructor; assumption.
Qed.

Lemma confined_forEach {A} (n : nat) (P : A -> Prop) (f : A -> M unit) (l : list A) :
  (forall x, P x -> confined n (fun _ => True) (f x)) ->
  Forall P l -> confined n (fun _ => True) (forEach f l).
Proof.
  intros Hf. induction 1 as [|x l Hx Hl IH]; simpl.
  - apply confined_ret. exact I.
  - eapply confined_bind; [apply Hf, Hx|]. intros _ _. exact IH.
Qed.

Lemma confined_someM {A} (n : nat) (P : A -> Prop) (p : A -> M bool) (l : list A) :
  (forall x, P x -> confined n (fun _ => True) (p x)) ->
  Forall P l -> confined n (fun _ => True) (someM p l).
Proof.
  intros Hp. induction 1 as [|x l Hx Hl IH]; simpl.
  - apply confined_ret. exact I.
  - eapply confined_bind; [apply Hp, Hx|]. intros b _.
    destruct b; [apply confined_ret; exact I | exact IH].
Qed.


Lemma confined_materialize (n : nat) : forall t, confined n (fresh n) (materialize t).
Proof.
  fix IH 1. intros [| | b | z | s | xs | props]; simpl;
    try (apply confined_ret; exact I).
  - eapply confined_bind; [|intros ys Hys; apply confined_alloc; exact Hys].
    induction xs as [|x xs IHxs]; [apply confined_ret; constructor|].
    eapply confined_bind; [apply IH|]. intros y Hy.
    eapply confined_bind; [exact IHxs|]. intros ys Hys.
    apply confined_ret. constructor; assumption.
  - eapply confined_bind; [|intros ps Hps; apply confined_alloc; exact Hps].
    induction props as [|[k x] props IHprops]; [apply confined_ret; constructor|].
    eapply confined_bind; [apply IH|]. intros y Hy.
    eapply confined_bind; [exact IHprops|]. intros ps Hps.
    apply confined_ret. constructor; assumption.
Qed.

Lemma confined_json_clone (n : nat) (v : hval) : confined n (fresh n) (json_clone v).
Proof.
  intros h Hh. unfold json_clone.
  destruct (serialize (S (length h)) h v) as [[t|]|e].
  - apply confined_materialize, Hh.
  - simpl. split; [exact Hh|]. split; [apply same_below_refl | discriminate].
  - simpl. split; [exact Hh|]. split; [apply same_below_refl | discriminate].
Qed.


(** The optimizer, piece by piece *)

Lemma Forall_slice_last {A} (P : A -> Prop) (k : nat) (l : list A) :
  Forall P l -> Forall P (Agent.slice_last k l).
Proof. intros H. unfold Agent.slice_last. apply Forall_drop, H. Qed.

Create HintDb confine.
#[local] Hint Resolve Forall_slice_last Forall_take Forall_nil Forall_cons : confine.
#[local] Hint Extern 1 (fresh _ _) => exact I : confine.
#[local] Hint Extern 1 (fresh _ _) => assumption : confine.
#[local] Hint Extern 2 (obj_fresh _ _) => simpl : confine.
#[local] Hint Extern 1 True => exact I : confine.

Ltac primitive :=
  first [ apply confined_get | apply confined_set | apply confined_delete
        | apply confined_items_of | apply confined_keys_of | apply confined_string_of
        | apply confined_join_items | apply confined_alloc | apply confined_json_clone ];
  eauto 6 with confine.

Ltac known tac :=
  first [ solve [tac]
        | solve [eapply confined_weaken; [tac | intros; eauto with confine]] ].

Ltac confine tac :=
  repeat match goal with
    | |- confined _ _ (bind (if ?b then _ else _) _) =>
        eapply confined_bind; [destruct b; known tac | intros]
    | |- confined _ _ (bind _ _) => eapply confined_bind; [known tac | intros]
    | |- confined _ _ (if ?b then _ else _) => destruct b
    | |- confined _ _ (ret _) => apply confined_ret; eauto with confine
    | |- confined _ _ (throw _) => apply confined_throw
    | |- confined _ _ _ => known tac
    end.

Lemma confined_slice_last_of (n k : nat) (v : hval) :
  fresh n v -> confined n (fresh n) (slice_last_of k v).
Proof.
  intros Hv. unfold slice_last_of. destruct v; confine primitive.
Qed.

Lemma confined_uses_tool (n : nat) (name : string) (step : hval) :
  fresh n step -> confined n (fun _ => True) (uses_tool name step).
Proof. intros Hs. unfold uses_tool. confine primitive. Qed.

Lemma confined_focus_keep (n : nat) (len : Z) (step : hval) :
  fresh n step -> confined n (fun _ => True) (focus_keep len step).
Proof.
  intros Hs. unfold focus_keep.
  confine ltac:(first [primitive | apply confined_uses_tool; assumption]).
Qed.

Lemma confined_is_relevant (n : nat) (path : string) (relevantFiles : hval) :
  fresh n relevantFiles -> confined n (fun _ => True) (is_relevant path relevantFiles).
Proof.
  intros Hr. unfold is_relevant.
  eapply confined_bind; [apply confined_items_of, Hr|]. intros refs Hrefs.
  eapply confined_someM; [|exact Hrefs].
  intros ref Href. cbv beta.
  eapply confined_bind; [apply confined_string_of|]. intros shown _.
  destruct (JS.includes path shown); [apply confined_ret; exact I|].
  destruct ref; first [apply confined_throw | apply confined_ret; exact I].
Qed.

Lemma confined_files_read_of (n : nat) (context : hval) :
  fresh n context -> confined n (fresh n) (files_read_of context).
Proof. intros Hc. unfold files_read_of. confine primitive. Qed.

Ltac optimizer_step :=
  first [ primitive
        | apply confined_slice_last_of; eauto with confine
        | apply confined_files_read_of; eauto with confine
        | apply confined_is_relevant; eauto with confine ].

Lemma confined_focus_mode (n : nat) (context blocking : hval) :
  fresh n context -> fresh n blocking ->
  confined n (fun _ => True) (focus_mode context blocking).
Proof.
  intros Hc Hb. unfold focus_mode.
  eapply confined_bind; [apply confined_get, Hc|]. intros history Hh.
  eapply confined_bind; [apply confined_items_of, Hh|]. intros steps Hsteps.
  eapply confined_bind.
  { apply confined_filterM; [|exact Hsteps]. intros x Hx. apply confined_focus_keep, Hx. }
  intros relevantSteps Hrel.
  eapply confined_bind.
  { destruct (_ && _); [apply confined_slice_last_of, Hh | apply confined_alloc, Hrel]. }
  intros kept Hkept.
  eapply confined_bind; [apply confined_set; assumption|]. intros _ _.
  eapply confined_bind; [apply confined_get, Hb|]. intros refs Hrefs.
  eapply confined_bind.
  { destruct (truthy refs); [apply confined_ret, Hrefs | apply confined_alloc; constructor]. }
  intros relevantFiles Hrf.
  eapply confined_bind; [apply confined_get, Hrf|]. intros count _.
  eapply confined_bind.
  { instantiate (1 := fun _ => True).
    destruct (gt count (HNum 0)); [|apply confined_ret; exact I].
    eapply confined_bind; [apply confined_files_read_of, Hc|]. intros files Hfiles.
    eapply confined_bind; [apply confined_keys_of, Hfiles|]. intros paths _.
    apply (confined_forEach n (fun _ => True)); [|apply Forall_true; auto].
    intros path _. cbv beta.
    eapply confined_bind; [apply confined_is_relevant, Hrf|]. intros relevant _.
    destruct relevant; [apply confined_ret; exact I|].
    eapply confined_bind; [apply confined_files_read_of, Hc|]. intros files' Hfiles'.
    apply confined_delete, Hfiles'. }
  intros _ _.
  confine optimizer_step.
Qed.

Lemma confined_summary_item (n : nat) (step : hval) :
  fresh n step -> confined n (fun _ => True) (summary_item step).
Proof.
  intros Hs. unfold summary_item.
  eapply confined_bind; [apply confined_get, Hs|]. intros s _.
  eapply confined_bind; [apply confined_string_of|]. intros shown_step _.
  eapply confined_bind; [apply confined_get, Hs|]. intros taken Ht.
  eapply confined_bind; [apply confined_get, Ht|]. intros used Hu.
  eapply confined_bind.
  { instantiate (1 := fresh n). destruct (truthy used); [apply confined_ret, Hu|].
    eapply confined_bind; [apply confined_get, Hs|]. intros taken' Ht'.
    apply confined_get, Ht'. }
  intros name _.
  confine primitive.
Qed.

Lemma confined_drift_mode (n : nat) (context : hval) :
  fresh n context -> confined n (fun _ => True) (drift_mode context).
Proof.
  intros Hc. unfold drift_mode.
  eapply confined_bind; [apply confined_get, Hc|]. intros history Hh.
  eapply confined_bind; [apply confined_get, Hh|]. intros len _.
  destruct (gt len (HNum 5)); [|apply confined_ret; exact I].
  eapply confined_bind; [apply confined_items_of, Hh|]. intros steps Hsteps.
  eapply confined_bind.
  { apply (confined_mapM n (fresh n) (fun _ => True));
      [intros x Hx; apply confined_summary_item, Hx | apply Forall_take, Hsteps]. }
  intros items _.
  confine optimizer_step.
Qed.

Lemma confined_truncate_files (n : nat) (context : hval) :
  fresh n context -> confined n (fun _ => True) (truncate_files context).
Proof.
  intros Hc. unfold truncate_files.
  eapply confined_bind; [apply confined_files_read_of, Hc|]. intros files Hfiles.
  eapply confined_bind; [apply confined_keys_of, Hfiles|]. intros paths _.
  apply (confined_forEach n (fun _ => True)); [|apply Forall_true; auto].
  intros path _. cbv beta.
  eapply confined_bind; [apply confined_files_read_of, Hc|]. intros files' Hfiles'.
  eapply confined_bind; [apply confined_get, Hfiles'|]. intros content Hcontent.
  destruct content; confine optimizer_step.
Qed.

Lemma confined_consolidate_notes (n : nat) (context : hval) :
  fresh n context -> confined n (fun _ => True) (consolidate_notes context).
Proof. intros Hc. unfold consolidate_notes. confine optimizer_step. Qed.

Lemma confined_cap_progression (n : nat) (context : hval) :
  fresh n context -> confined n (fun _ => True) (cap_progression context).
Proof. intros Hc. unfold cap_progression. confine optimizer_step. Qed.

Lemma confined_copy_tools (n : nat) (context : hval) :
  fresh n context -> confined n (fun _ => True) (copy_tools context).
Proof.
  intros Hc. unfold copy_tools.
  eapply confined_bind; [apply confined_get, Hc|]. intros tools Ht.
  eapply confined_bind; [apply confined_items_of, Ht|]. intros xs Hxs.
  eapply confined_bind.
  { apply (confined_mapM n (fresh n) (fresh n)); [|exact Hxs].
    intros tool Htool. cbv beta. confine optimizer_step. }
  intros copies Hcopies.
  confine optimizer_step.
Qed.

Lemma confined_optimizeAgentContext (n : nat) (agentContext : hval) :
  confined n (fresh n) (optimizeAgentContext agentContext).
Proof.
  unfold optimizeAgentContext.
  eapply confined_bind; [apply confined_json_clone|]. intros context Hc.
  eapply confined_bind; [apply confined_get, Hc|]. intros blocking Hb.
  eapply confined_bind.
  { instantiate (1 := fun _ => True).
    destruct (truthy blocking);
      [apply confined_focus_mode; assumption | apply confined_drift_mode, Hc]. }
  intros _ _.
  eapply confined_bind; [apply confined_truncate_files, Hc|]. intros _ _.
  eapply confined_bind; [apply confined_consolidate_notes, Hc|]. intros _ _.
  eapply confined_bind; [apply confined_cap_progression, Hc|]. intros _ _.
  eapply confined_bind; [apply confined_copy_tools, Hc|]. intros _ _.
  apply confined_ret, Hc.
Qed.

(** C6.  Whatever the store and the argument, [optimizeAgentContext] leaves
    every object that was in the store as it was, also when it throws, and
    the context it returns is an object that was not in the store: all its
    writes go to the deep copy. *)
Theorem optimizeAgentContext_pure (h : heap) (agentContext : hval) :
  (forall l o, h !! l = Some o ->
     fst (optimizeAgentContext agentContext h) !! l = Some o) /\
  (forall l, snd (optimizeAgentContext agentContext h) = Returned (HRef l) ->
     h !! l = None).
Proof.
  assert (Hclosed : closed_from (length h) h).
  { split; [lia|]. intros l o Hl Hlook. apply lookup_lt_Some in Hlook. lia. }
  destruct (confined_optimizeAgentContext (length h) agentContext h Hclosed)
    as (_ & Hsame & Hfresh).
  split.
  - intros l o Hlook. rewrite Hsame; [exact Hlook|].
    apply lookup_lt_Some in Hlook. exact Hlook.
  - intros l Hret. apply lookup_ge_None. exact (Hfresh _ Hret).
Qed.

(** The optimizer returns on the context of the scenario, with the history
    trimmed in the copy and the eight steps of the input still in place. *)
Lemma optimizeAgentContext_runs :
  let h := StoreScenarios.session_store in
  let agentContext := StoreScenarios.session_root in
  exists copy,
    snd (optimizeAgentContext agentContext h) = Returned copy /\
    StoreScenarios.history_steps (fst (optimizeAgentContext agentContext h)) copy
      = Some [HNum 2; HNum 4; HNum 5; HNum 6; HNum 7; HNum 8] /\
    StoreScenarios.history_steps (fst (optimizeAgentContext agentContext h)) agentContext
      = Some (map (fun i => HNum (Z.of_nat i)) (seq 1 8)).
Proof.
  eexists. split; [vm_compute; reflexivity|]. split; vm_compute; reflexivity.
Qed.

(** [updateAgentContext] is not pure in this sense: the step it records
    shows in the history of the context it was given. *)
Lemma record_step_writes_input :
  let h := StoreScenarios.session_store in
  let agentContext := StoreScenarios.session_root in
  option_map (@length hval) (StoreScenarios.history_steps h agentContext) = Some 8%nat /\
  option_map (@length hval)
    (StoreScenarios.history_steps (fst (record_step agentContext (HStr "ninth") h))
       agentContext) = Some 9%nat.
Proof. split; vm_compute; reflexivity. Qed.

End StoreTheory.

Module RankingTheory.
Import Retrieval Grouping RetrievalTheory.
Local Open Scope Qc_scope.

Section SortPermutation.
Context {A : Type} (key : A -> Qc).

Lemma insert_desc_perm (x : A) (l : list A) : insert_desc key x l ≡ₚ x :: l.
Proof.
  induction l as [|y l IH]; simpl; [reflexivity|].
  destruct (Qclt_le_dec (key x) (key y)); [|reflexivity].
  rewrite IH. apply Permutation_swap.
Qed.

Lemma sort_desc_perm (l : list A) : sort_desc key l ≡ₚ l.
Proof.
  induction l as [|x l IH]; simpl; [reflexivity|].
  rewrite insert_desc_perm, IH. reflexivity.
Qed.
End SortPermutation.

(** The score the last hit of a ranking with the identifier [i] carries;
    zero when the ranking has none. *)
Definition last_score (i : string) (hs : list hit) : Qc :=
  match List.find (fun h => String.eqb (hit_id h) i) (rev hs) with
  | Some h => hit_score h
  | None => 0
  end.

Lemma last_score_snoc (i : string) (hs : list hit) (h : hit) :
  last_score i (hs ++ [h]) = if String.eqb (hit_id h) i then hit_score h else last_score i hs.
Proof.
  unfold last_score. rewrite rev_app_distr. simpl.
  destruct (String.eqb (hit_id h) i); reflexivity.
Qed.

Lemma last_score_absent (i : string) (hs : list hit) :
  i ∉ map hit_id hs -> last_score i hs = 0.
Proof.
  induction hs as [|h hs IH] using rev_ind; intros Hn; [reflexivity|].
  rewrite last_score_snoc. rewrite map_app, elem_of_app in Hn. simpl in Hn.
  destruct (String.eqb_spec (hit_id h) i) as [<-|Hne].
  - exfalso. apply Hn. right. left.
  - apply IH. tauto.
Qed.

Lemma update_Forall (P : entry -> Prop) (i : string) (f : entry -> entry) (m : list entry) :
  Forall (fun e => if String.eqb (id e) i then P (f e) else P e) m ->
  (forall e, id (f e) = id e) ->
  NoDup (map id m) ->
  Forall P (update i f m).
Proof.
  intros H Hf Hnd. induction m as [|e m IH]; simpl; [constructor|].
  apply Forall_cons in H as [He Hm]. simpl in Hnd. apply NoDup_cons in Hnd as [Hni Hnd].
  destruct (String.eqb_spec (id e) i) as [Heq|Hne].
  - constructor; [exact He|].
    rewrite Forall_forall in Hm |- *. intros x Hx. specialize (Hm x Hx).
    destruct (String.eqb_spec (id x) i) as [Hxi|_]; [|exact Hm].
    exfalso. apply Hni. rewrite Heq, <- Hxi. apply list_elem_of_fmap_2. exact Hx.
  - constructor; [exact He | apply IH; assumption].
Qed.

Lemma NoDup_uniq (seen l : list string) : NoDup (JS.uniq String.eqb seen l).
Proof.
  revert seen. induction l as [|x l IH]; intros seen; simpl; [constructor|].
  rewrite existsb_eqb_elem. destruct (bool_decide_reflect (x ∈ seen)); [apply IH|].
  constructor; [|apply IH]. rewrite elem_of_uniq. intros [_ H]. apply H. left.
Qed.

Lemma NoDup_fold_process (setter : hit -> entry -> entry) (hs : list hit) (m : list entry) :
  (forall h e, id (setter h e) = id e) ->
  NoDup (map id m) -> NoDup (map id (fold_left (process setter) hs m)).
Proof.
  intros Hf Hnd. rewrite ids_fold_process by exact Hf.
  apply NoDup_app. split; [exact Hnd|]. split; [|apply NoDup_uniq].
  intros x Hx Hu. apply elem_of_uniq in Hu. tauto.
Qed.

(** One pass of [mergeResults] over a ranking: the field the pass writes
    holds the score of the last hit of each identifier, the field [keep] it
    does not write is as it was, for the entries that were there, and zero
    on the entries the pass adds. *)
Lemma fold_process_scores (setter : hit -> entry -> entry)
    (written kept : entry -> Qc) (hs : list hit) (m : list entry) (old : string -> Qc) :
  (forall h e, id (setter h e) = id e) ->
  (forall h e, written (setter h e) = hit_score h) ->
  (forall h e, kept (setter h e) = kept e) ->
  (forall i md, written (fresh_entry i md) = 0 /\ kept (fresh_entry i md) = 0) ->
  NoDup (map id m) ->
  Forall (fun e => kept e = old (id e)) m ->
  (forall i, i ∉ map id m -> old i = 0) ->
  Forall (fun e => written e = 0) m ->
  Forall (fun e => written e = last_score (id e) hs /\ kept e = old (id e))
    (fold_left (process setter) hs m).
Proof.
  intros Hid Hw Hk Hfresh Hnd Hkept Hold Hzero.
  induction hs as [|h hs IH] using rev_ind.
  - simpl. rewrite Forall_forall in Hkept, Hzero |- *. intros e He. split; [|auto].
    rewrite Hzero by exact He. reflexivity.
  - rewrite fold_left_app. simpl.
    set (m0 := fold_left (process setter) hs m) in *.
    assert (Hnd0 : NoDup (map id m0)) by (apply NoDup_fold_process; assumption).
    unfold process. rewrite has_elem.
    destruct (bool_decide_reflect (hit_id h ∈ map id m0)) as [Hin|Hin].
    + apply update_Forall; [|apply Hid|exact Hnd0].
      rewrite Forall_forall in IH |- *. intros e He. destruct (IH e He) as [H1 H2].
      destruct (String.eqb_spec (id e) (hit_id h)) as [Heq|Hne]; rewrite last_score_snoc.
      * rewrite Hw, Hk, Hid. rewrite <- Heq, String.eqb_refl. split; [reflexivity|exact H2].
      * destruct (String.eqb_spec (hit_id h) (id e)); [congruence|]. split; assumption.
    + apply update_Forall; [|apply Hid|].
      * rewrite Forall_app. split.
        -- rewrite Forall_forall in IH |- *. intros e He. destruct (IH e He) as [H1 H2].
           destruct (String.eqb_spec (id e) (hit_id h)) as [Heq|Hne]; rewrite last_score_snoc.
           ++ exfalso. apply Hin. rewrite <- Heq. apply list_elem_of_fmap_2. exact He.
           ++ destruct (String.eqb_spec (hit_id h) (id e)); [congruence|]. split; assumption.
        -- constructor; [|constructor]. simpl. rewrite String.eqb_refl.
           rewrite Hw, Hk, Hid. simpl. rewrite last_score_snoc, String.eqb_refl.
           split; [reflexivity|]. rewrite (proj2 (Hfresh _ _)). symmetry. apply Hold.
           intros Hm. apply Hin. unfold m0. rewrite ids_fold_process by exact Hid.
           apply elem_of_app. left. exact Hm.
      * rewrite map_app. simpl. apply NoDup_app. split; [exact Hnd0|]. split.
        -- intros x Hx Hx'. apply list_elem_of_singleton in Hx'. subst x. contradiction.
        -- apply NoDup_singleton.
Qed.

Lemma insertion_order_scores (bm25Results vectorResults : list hit) :
  Forall (fun e => bm25Score e = last_score (id e) bm25Results /\
                   vectorScore e = last_score (id e) vectorResults)
    (insertion_order bm25Results vectorResults).
Proof.
  unfold insertion_order.
  pose proof (fold_process_scores set_bm25 bm25Score vectorScore bm25Results []
                (fun _ => 0)) as H1.
  specialize (H1 ltac:(reflexivity) ltac:(reflexivity) ltac:(reflexivity)
                 ltac:(intros; split; reflexivity) ltac:(constructor) ltac:(constructor)
                 ltac:(reflexivity) ltac:(constructor)).
  set (m := fold_left (process set_bm25) bm25Results []) in *.
  pose proof (fold_process_scores set_vector vectorScore bm25Score vectorResults m
                (fun i => last_score i bm25Results)) as H2.
  eapply Forall_impl.
  - apply H2; try reflexivity.
    + intros; split; reflexivity.
    + apply NoDup_fold_process; [reflexivity | constructor].
    + eapply Forall_impl; [exact H1|]. intros e [He _]. exact He.
    + intros i Hi. apply last_score_absent. intros Hb. apply Hi.
      unfold m. rewrite ids_fold_process by reflexivity. simpl.
      apply elem_of_uniq. split; [exact Hb|]. intros H; inversion H.
    + eapply Forall_impl; [exact H1|]. intros e [_ He]. exact He.
  - intros e [Ha Hb]. split; assumption.
Qed.

Lemma mergeResults_ids (bm25Results vectorResults : list hit) (bm25Weight vectorWeight : Qc) :
  map id (mergeResults bm25Results vectorResults bm25Weight vectorWeight) ≡ₚ
  JS.uniq String.eqb [] (map hit_id bm25Results ++ map hit_id vectorResults).
Proof.
  unfold mergeResults. rewrite sort_desc_perm, map_map. simpl.
  rewrite <- ids_insertion_order. reflexivity.
Qed.

Lemma mergeResults_scores (bm25Results vectorResults : list hit) (bm25Weight vectorWeight : Qc) :
  Forall (fun e =>
            bm25Score e = last_score (id e) bm25Results /\
            vectorScore e = last_score (id e) vectorResults /\
            combinedScore e = bm25Score e * bm25Weight + vectorScore e * vectorWeight)
    (mergeResults bm25Results vectorResults bm25Weight vectorWeight).
Proof.
  unfold mergeResults. rewrite sort_desc_perm. rewrite Forall_fmap.
  eapply Forall_impl; [apply insertion_order_scores|].
  intros e [Hb Hv]. simpl. auto.
Qed.

(** X1.  [mergeResults] returns its entries by decreasing combined score,
    one entry for each document identifier, and the identifiers are those of
    the BM25 ranking and of the vector ranking together. *)
Theorem mergeResults_ranks_each_document_once
    (bm25Results vectorResults : list hit) (bm25Weight vectorWeight : Qc) :
  let merged := mergeResults bm25Results vectorResults bm25Weight vectorWeight in
  StronglySorted (fun a b => combinedScore b <= combinedScore a) merged /\
  NoDup (map id merged) /\
  forall i, i ∈ map id merged <-> i ∈ map hit_id bm25Results \/ i ∈ map hit_id vectorResults.
Proof.
  intros merged. unfold merged.
  pose proof (mergeResults_ids bm25Results vectorResults bm25Weight vectorWeight) as Hids.
  split; [apply sorted_sort_desc|]. split.
  - rewrite Hids. apply NoDup_uniq.
  - intros i. rewrite Hids, elem_of_uniq, elem_of_app. split; [tauto|].
    intros H. split; [exact H|]. intros H'; inversion H'.
Qed.

(** X2.  Every entry of [mergeResults] carries, as BM25 score and as vector
    score, the score of the last hit of its identifier in that ranking, zero
    when the ranking has no hit of it, and as combined score the weighted
    sum of the two. *)
Theorem mergeResults_scores_last_hit
    (bm25Results vectorResults : list hit) (bm25Weight vectorWeight : Qc) :
  Forall (fun e =>
            bm25Score e = last_score (id e) bm25Results /\
            vectorScore e = last_score (id e) vectorResults /\
            combinedScore e = bm25Score e * bm25Weight + vectorScore e * vectorWeight)
    (mergeResults bm25Results vectorResults bm25Weight vectorWeight) /\
  (forall i, i ∉ map hit_id bm25Results -> last_score i bm25Results = 0) /\
  (forall i h, last_score i (bm25Results ++ [h]) =
               if String.eqb (hit_id h) i then hit_score h else last_score i bm25Results).
Proof.
  split; [apply mergeResults_scores|]. split.
  - intros i. apply last_score_absent.
  - intros i h. apply last_score_snoc.
Qed.

(** Hybrid search, end to end *)


Section Ranked.
Context {vindex bindex embedding : Type}.
Variable vector_size : vindex -> nat.
Variable document_count : bindex -> nat.
Variable bm25_search : bindex -> string -> nat -> completion (list hit).
Variable generateEmbedding : string -> completion embedding.
Variable searchIndex : vindex -> embedding -> nat -> completion (list hit).

End Ranked.


(** Grouping by file *)

Definition in_file (g : group) (r : entry) : Prop := path_of r = Some (group_filePath g).

#[local] Instance in_file_dec g r : Decision (in_file g r).
Proof. unfold in_file. apply _. Defined.

Definition summarizes (rs : list entry) (g : group) : Prop :=
  chunks g = filter (in_file g) rs /\
  chunks g <> [] /\
  totalScore g = fold_left (fun s r => s + combinedScore r) (chunks g) 0 /\
  maxScore g = fold_left (fun m r => max m (combinedScore r)) (chunks g) 0.

Lemma filter_none {A} (P : A -> Prop) `{!forall x, Decision (P x)} (l : list A) :
  (forall x, x ∈ l -> ~ P x) -> filter P l = [].
Proof.
  induction l as [|x l IH]; intros Hall; [reflexivity|].
  rewrite filter_cons. destruct (decide (P x)) as [Hx|Hx].
  - exfalso. apply (Hall x); [left | exact Hx].
  - apply IH. intros y Hy. apply Hall. right. exact Hy.
Qed.

Lemma has_group_elem (m : list group) (p : string) :
  has_group m p = bool_decide (p ∈ map group_filePath m).
Proof.
  unfold has_group. induction m as [|g m IH]; simpl; [reflexivity|].
  rewrite IH. destruct (String.eqb_spec (group_filePath g) p) as [<-|Hne]; simpl.
  - symmetry. apply bool_decide_eq_true. left.
  - apply bool_decide_ext. rewrite elem_of_cons. split; [tauto|]. intros [->|H]; tauto.
Qed.

Lemma paths_update_group (p : string) (f : group -> group) (m : list group) :
  (forall g, group_filePath (f g) = group_filePath g) ->
  map group_filePath (update_group p f m) = map group_filePath m.
Proof.
  intros Hf. induction m as [|g m IH]; simpl; [reflexivity|].
  destruct (String.eqb (group_filePath g) p); simpl; [rewrite Hf | rewrite IH]; reflexivity.
Qed.

Lemma update_group_Forall (P : group -> Prop) (p : string) (f : group -> group)
    (m : list group) :
  Forall (fun g => if String.eqb (group_filePath g) p then P (f g) else P g) m ->
  NoDup (map group_filePath m) ->
  Forall P (update_group p f m).
Proof.
  intros H Hnd. induction m as [|g m IH]; simpl; [constructor|].
  apply Forall_cons in H as [Hg Hm]. simpl in Hnd. apply NoDup_cons in Hnd as [Hni Hnd].
  destruct (String.eqb_spec (group_filePath g) p) as [Heq|Hne].
  - constructor; [exact Hg|].
    rewrite Forall_forall in Hm |- *. intros x Hx. specialize (Hm x Hx).
    destruct (String.eqb_spec (group_filePath x) p) as [Hxp|_]; [|exact Hm].
    exfalso. apply Hni. rewrite Heq, <- Hxp. apply list_elem_of_fmap_2. exact Hx.
  - constructor; [exact Hg | apply IH; assumption].
Qed.

Lemma paths_group_step (m : list group) (r : entry) :
  map group_filePath (group_step m r) =
  map group_filePath m ++
  match path_of r with
  | Some p => if bool_decide (p ∈ map group_filePath m) then [] else [p]
  | None => []
  end.
Proof.
  unfold group_step. destruct (path_of r) as [p|]; [|rewrite app_nil_r; reflexivity].
  rewrite paths_update_group by reflexivity. rewrite has_group_elem.
  destruct (bool_decide (p ∈ map group_filePath m)).
  - rewrite app_nil_r. reflexivity.
  - rewrite map_app. reflexivity.
Qed.

(** The map of groups after the loop has consumed [rs]. *)
Lemma grouped_invariant (rs : list entry) :
  let m := fold_left group_step rs [] in
  NoDup (map group_filePath m) /\
  (forall p, p ∈ map group_filePath m <-> exists r, r ∈ rs /\ path_of r = Some p) /\
  Forall (summarizes rs) m.
Proof.
  induction rs as [|r rs IH] using rev_ind; simpl.
  - split; [constructor|]. split; [|constructor].
    intros p. split; [intros H; inversion H | intros (r & H & _); inversion H].
  - rewrite fold_left_app. simpl.
    set (m := fold_left group_step rs []) in *. simpl in IH.
    destruct IH as (Hnd & Hpaths & Hsum).
    assert (Hnd' : NoDup (map group_filePath (group_step m r))).
    { rewrite paths_group_step. destruct (path_of r) as [p|]; [|rewrite app_nil_r; exact Hnd].
      destruct (bool_decide_reflect (p ∈ map group_filePath m)) as [Hin|Hin];
        [rewrite app_nil_r; exact Hnd|].
      apply NoDup_app. split; [exact Hnd|]. split; [|apply NoDup_singleton].
      intros x Hx Hx'. apply list_elem_of_singleton in Hx'. subst x. contradiction. }
    split; [exact Hnd'|]. split.
    + intros p. rewrite paths_group_step, elem_of_app, Hpaths. split.
      * intros [(x & Hx & Hp)|H].
        -- exists x. split; [apply elem_of_app; left; exact Hx | exact Hp].
        -- destruct (path_of r) as [q|] eqn:Hq; [|inversion H].
           destruct (bool_decide (q ∈ map group_filePath m)); [inversion H|].
           apply list_elem_of_singleton in H. subst q.
           exists r. split; [apply elem_of_app; right; left | exact Hq].
      * intros (x & Hx & Hp). apply elem_of_app in Hx as [Hx|Hx].
        -- left. exists x. auto.
        -- apply list_elem_of_singleton in Hx. subst x. rewrite Hp.
           destruct (bool_decide_reflect (p ∈ map group_filePath m)) as [Hin|Hin].
           ++ left. apply Hpaths. exact Hin.
           ++ right. left.
    + unfold group_step in *. destruct (path_of r) as [p|] eqn:Hp.
      * assert (Hkeep : forall g, group_filePath g <> p -> summarizes rs g ->
                                  summarizes (rs ++ [r]) g).
        { intros g Hne (H1 & H2 & H3 & H4). unfold summarizes.
          rewrite filter_app, filter_cons, filter_nil.
          destruct (decide (in_file g r)) as [Hin|Hin].
          - unfold in_file in Hin. congruence.
          - rewrite app_nil_r. auto. }
        assert (Hadd : forall g, group_filePath g = p ->
                  chunks g = filter (in_file g) rs ->
                  totalScore g = fold_left (fun s r => s + combinedScore r) (chunks g) 0 ->
                  maxScore g = fold_left (fun m r => max m (combinedScore r)) (chunks g) 0 ->
                  summarizes (rs ++ [r]) (add_chunk r g)).
        { intros g Hg H1 H3 H4. unfold summarizes. simpl.
          rewrite filter_app, filter_cons, filter_nil.
          change (in_file (add_chunk r g)) with (in_file g).
          destruct (decide (in_file g r)) as [Hin|Hin].
          - rewrite H1 at 1. split; [reflexivity|]. split.
            + intros H. apply app_eq_nil in H as [_ H]. discriminate.
            + rewrite !fold_left_app. simpl. rewrite <- H3, <- H4. auto.
          - exfalso. apply Hin. unfold in_file. congruence. }
        apply update_group_Forall.
        -- rewrite has_group_elem.
           destruct (bool_decide_reflect (p ∈ map group_filePath m)) as [Hin|Hin].
           ++ rewrite Forall_forall in Hsum |- *. intros g Hg. specialize (Hsum g Hg).
              destruct (String.eqb_spec (group_filePath g) p) as [Heq|Hne].
              ** destruct Hsum as (H1 & _ & H3 & H4). apply Hadd; assumption.
              ** apply Hkeep; assumption.
           ++ rewrite Forall_app. split.
              ** rewrite Forall_forall in Hsum |- *. intros g Hg. specialize (Hsum g Hg).
                 destruct (String.eqb_spec (group_filePath g) p) as [Heq|Hne].
                 --- exfalso. apply Hin. rewrite <- Heq. apply list_elem_of_fmap_2. exact Hg.
                 --- apply Hkeep; assumption.
              ** constructor; [|constructor]. simpl. rewrite String.eqb_refl.
                 apply Hadd; try reflexivity. simpl. symmetry.
                 apply filter_none. intros x Hx Hxp. apply Hin, Hpaths.
                 exists x. split; [exact Hx | exact Hxp].
        -- rewrite paths_update_group in Hnd' by reflexivity. exact Hnd'.
      * eapply Forall_impl; [exact Hsum|].
        intros g (H1 & H2 & H3 & H4). unfold summarizes.
        rewrite filter_app, filter_cons, filter_nil.
        destruct (decide (in_file g r)) as [Hin|Hin].
        -- unfold in_file in Hin. congruence.
        -- rewrite app_nil_r. auto.
Qed.

(** X4.  Every group of [groupResultsByFile] holds, in their order, the
    results whose metadata names the file path of the group, at least one;
    its total score is the sum of their combined scores and its maximum
    score the greatest of zero and their combined scores. *)
Theorem groupResultsByFile_groups (searchResults : list entry) :
  Forall (fun g =>
            chunks g = filter (fun r => path_of r = Some (group_filePath g)) searchResults /\
            chunks g <> [] /\
            totalScore g = fold_left (fun s r => s + combinedScore r) (chunks g) 0 /\
            maxScore g = fold_left (fun m r => max m (combinedScore r)) (chunks g) 0)
    (groupResultsByFile searchResults).
Proof.
  unfold groupResultsByFile. rewrite sort_desc_perm.
  apply (grouped_invariant searchResults).
Qed.

(** X5.  [groupResultsByFile] returns one group for each file path that a
    result names, no path twice, by decreasing maximum score; results
    without metadata or without a file path are in no group. *)
Theorem groupResultsByFile_one_group_per_file (searchResults : list entry) :
  let groups := groupResultsByFile searchResults in
  StronglySorted (fun a b => maxScore b <= maxScore a) groups /\
  NoDup (map group_filePath groups) /\
  forall p, p ∈ map group_filePath groups <->
            exists r, r ∈ searchResults /\ path_of r = Some p.
Proof.
  intros groups. unfold groups, groupResultsByFile.
  destruct (grouped_invariant searchResults) as (Hnd & Hpaths & _).
  split; [apply sorted_sort_desc|].
  assert (Hperm : map group_filePath (sort_desc maxScore (fold_left group_step searchResults []))
                  ≡ₚ map group_filePath (fold_left group_step searchResults [])).
  { rewrite sort_desc_perm. reflexivity. }
  split.
  - rewrite Hperm. exact Hnd.
  - intros p. rewrite Hperm. apply Hpaths.
Qed.

End RankingTheory.

Module CountTheory.
Import Retrieval RetrievalTheory.
Local Open Scope Qc_scope.

Section Count.
Context {vindex bindex embedding : Type}.
Variable vector_size : vindex -> nat.
Variable document_count : bindex -> nat.
Variable bm25_search : bindex -> string -> nat -> completion (list hit).
Variable generateEmbedding : string -> completion embedding.
Variable searchIndex : vindex -> embedding -> nat -> completion (list hit).

(** X28.  When its three collaborators return, [hybridSearch] returns, and
    the number of its results is the smaller of the clamped [k] and the
    number of distinct documents the two searches returned. *)
Theorem hybridSearch_result_count (query : string) (vectorIndex : vindex)
    (bm25Index : bindex) (o : options) (bm25Results vectorResults : list hit)
    (queryEmbedding : embedding) :
  let expanded := safe_expanded_k vector_size document_count vectorIndex bm25Index o in
  bm25_search bm25Index query expanded = Returned bm25Results ->
  generateEmbedding query = Returned queryEmbedding ->
  searchIndex vectorIndex queryEmbedding expanded = Returned vectorResults ->
  exists results,
    hybridSearch vector_size document_count bm25_search generateEmbedding searchIndex
      query vectorIndex bm25Index o = Returned results /\
    length results =
      Nat.min (safe_k vector_size document_count vectorIndex bm25Index o)
        (length (JS.uniq String.eqb [] (map hit_id bm25Results ++ map hit_id vectorResults))).
Proof.
  intros expanded Hb Hg Hv. unfold hybridSearch, search_body. fold expanded.
  rewrite Hb. cbn [cbind]. rewrite Hg. cbn [cbind]. rewrite Hv. cbn [cbind].
  eexists. split; [reflexivity|].
  - unfold slice0. rewrite length_take.
    unfold mergeResults.
    assert (Hlen : forall (A : Type) (key : A -> Qc) (l : list A),
              length (sort_desc key l) = length l).
    { intros A key l. induction l as [|x l IH]; simpl; [reflexivity|].
      rewrite <- IH. clear IH. induction (sort_desc key l) as [|y m IHm]; simpl; [reflexivity|].
      destruct (Qclt_le_dec (key x) (key y)); simpl; [rewrite IHm|]; reflexivity. }
    rewrite Hlen, length_map, <- ids_insertion_order, length_map. reflexivity.
Qed.
End Count.

(** X28, witness: five vectors, one BM25 document, [k = 3]. *)
Lemma hybridSearch_result_count_witness :
  let expanded := safe_expanded_k (@length hit) (@length hit) Scenarios.five_vectors
                    Scenarios.one_document Scenarios.top3 in
  exists bm25Results vectorResults,
    Scenarios.ranked_search Scenarios.one_document "KeyError" expanded = Returned bm25Results /\
    Scenarios.echo_embedding "KeyError" = Returned "KeyError" /\
    Scenarios.ranked_vector_search Scenarios.five_vectors "KeyError" expanded =
      Returned vectorResults /\
    exists results,
      hybridSearch (@length hit) (@length hit) Scenarios.ranked_search Scenarios.echo_embedding
        Scenarios.ranked_vector_search "KeyError" Scenarios.five_vectors Scenarios.one_document
        Scenarios.top3 = Returned results /\
      length results =
        Nat.min (safe_k (@length hit) (@length hit) Scenarios.five_vectors
                   Scenarios.one_document Scenarios.top3)
          (length (JS.uniq String.eqb []
                     (map hit_id bm25Results ++ map hit_id vectorResults))).
Proof.
  cbv zeta. eexists _, _.
  split; [reflexivity|]. split; [reflexivity|]. split; [reflexivity|].
  apply (hybridSearch_result_count (@length hit) (@length hit) Scenarios.ranked_search
           Scenarios.echo_embedding Scenarios.ranked_vector_search "KeyError"
           Scenarios.five_vectors Scenarios.one_document Scenarios.top3 _ _ "KeyError");
    reflexivity.
Defined.

End CountTheory.

Module RootCauseTheory.
Import Retrieval RetrievalTheory.
Local Open Scope Qc_scope.

Lemma of_nat_nonneg (n : nat) : 0 <= of_nat n.
Proof.
  unfold of_nat, Qcle. cbn [this Q2Qc]. rewrite !Qred_correct.
  unfold Qle. simpl. lia.
Qed.

Lemma boost_at_least_one (errorLog : string) (r : entry) :
  0 <= combinedScore r -> combinedScore r <= heuristic_score errorLog r.
Proof.
  intros Hc. unfold heuristic_score.
  set (m := of_nat (length (matching_terms (meta_content r) errorLog))).
  assert (Hm : 0 <= m) by apply of_nat_nonneg.
  assert (Htenth : 0 <= Q2Qc (1 # 10)) by discriminate.
  assert (Hf2 : 1 <= 1 + Q2Qc (1 # 10) * m).
  { rewrite <- (Qcplus_0_r 1) at 1. apply Qcplus_le_compat; [apply Qcle_refl|].
    replace 0 with (Q2Qc (1 # 10) * 0) by ring.
    rewrite !(Qcmult_comm (Q2Qc (1 # 10))). apply Qcmult_le_compat_r; assumption. }
  assert (Hf1 : 1 <= (if file_mentioned (mentionedFiles errorLog) r then Q2Qc 2 else 1)).
  { destruct (file_mentioned _ r); [discriminate | apply Qcle_refl]. }
  set (f1 := if file_mentioned (mentionedFiles errorLog) r then Q2Qc 2 else 1) in *.
  set (f2 := 1 + Q2Qc (1 # 10) * m) in *.
  assert (H1 : combinedScore r <= combinedScore r * f1).
  { rewrite <- (Qcmult_1_l (combinedScore r)) at 1.
    rewrite (Qcmult_comm (combinedScore r) f1). apply Qcmult_le_compat_r; assumption. }
  assert (H2 : combinedScore r * f1 <= combinedScore r * f1 * f2).
  { rewrite <- (Qcmult_1_l (combinedScore r * f1)) at 1.
    rewrite (Qcmult_comm (combinedScore r * f1) f2). apply Qcmult_le_compat_r; [exact Hf2|].
    eapply Qcle_trans; [exact Hc | exact H1]. }
  eapply Qcle_trans; eassumption.
Qed.

(** X6.  When no combined score is negative, the root-cause score of the
    result that [identifyRootCauseFile] returns is at least the combined
    score of every result of the list: the heuristic multiplies by factors
    of at least one. *)
Theorem identifyRootCauseFile_only_boosts (r : entry) (rs : list entry) (errorLog : string) :
  Forall (fun x => 0 <= combinedScore x) (r :: rs) ->
  exists best,
    identifyRootCauseFile (Some (r :: rs)) errorLog = Some best /\
    combinedScore (result best) <= rootCauseScore best /\
    forall x, x ∈ r :: rs -> combinedScore x <= rootCauseScore best.
Proof.
  intros Hpos. unfold identifyRootCauseFile.
  set (score := score_result (mentionedFiles errorLog) errorLog).
  destruct (head (sort_desc rootCauseScore (map score (r :: rs)))) as [best|] eqn:Hh.
  - exists best. split; [reflexivity|].
    apply head_sort_desc_max in Hh as [Hin Hmax].
    assert (Hall : forall x, x ∈ r :: rs -> combinedScore x <= rootCauseScore best).
    { intros x Hx. eapply Qcle_trans; [|apply Hmax, list_elem_of_fmap; exists x; auto].
      unfold score. rewrite score_result_closed_form. apply boost_at_least_one.
      rewrite Forall_forall in Hpos. apply Hpos, Hx. }
    split; [|exact Hall].
    apply list_elem_of_fmap in Hin as [x [-> Hx]]. simpl. apply (Hall x Hx).
  - exfalso.
    assert (Hin : score r ∈ sort_desc rootCauseScore (map score (r :: rs))).
    { apply elem_of_sort_desc. simpl. left. }
    destruct (sort_desc rootCauseScore (map score (r :: rs))); [inversion Hin | discriminate].
Qed.

(** X6, witness: two results, one of them named in the log. *)
Lemma identifyRootCauseFile_only_boosts_witness :
  let a := Scenarios.file_result "a" (Q2Qc (1 # 2)) "etl.py" "def load(): timeout" in
  let b := Scenarios.file_result "b" (Q2Qc (3 # 5)) "util.py" "pass" in
  Forall (fun x => 0 <= combinedScore x) [a; b] /\
  exists best,
    identifyRootCauseFile (Some [a; b]) "etl.py: connection timeout" = Some best /\
    combinedScore (result best) <= rootCauseScore best /\
    forall x, x ∈ [a; b] -> combinedScore x <= rootCauseScore best.
Proof.
  cbv zeta.
  assert (Hpos : Forall (fun x => 0 <= combinedScore x)
                   [Scenarios.file_result "a" (Q2Qc (1 # 2)) "etl.py" "def load(): timeout";
                    Scenarios.file_result "b" (Q2Qc (3 # 5)) "util.py" "pass"]).
  { repeat constructor; discriminate. }
  split; [exact Hpos|].
  apply (identifyRootCauseFile_only_boosts _ _ "etl.py: connection timeout" Hpos).
Defined.

End RootCauseTheory.

Module SessionTheory.
Import Json Agent AgentTheory.

(** Termination policy, the converse *)

Lemma slice_last_length {A} (n : nat) (l : list A) :
  length (slice_last n l) = Nat.min n (length l).
Proof. unfold slice_last. rewrite length_drop. lia. Qed.

Lemma slice_last_suffix {A} (n : nat) (l : list A) :
  l = take (length l - n) l ++ slice_last n l.
Proof. unfold slice_last. symmetry. apply take_drop. Qed.

(** X14.  The termination check fires only when the step cap is reached, or
    when there are at least three steps and the last three all have status
    [error]; the reason it gives says which. *)
Theorem shouldTerminateSession_only_when_due (ctx : context) :
  should_terminate (shouldTerminateSession ctx) = true ->
  (maxSteps ctx <= history_length ctx /\
   termination_reason (shouldTerminateSession ctx) =
     Some ("Maximum session steps (" +:+ pretty (maxSteps ctx) +:+ ") reached")) \/
  (history_length ctx < maxSteps ctx /\
   termination_reason (shouldTerminateSession ctx) =
     Some "Multiple consecutive failures detected" /\
   exists earlier a b c,
     session_history ctx = earlier ++ [a; b; c] /\
     failed a = true /\ failed b = true /\ failed c = true).
Proof.
  unfold shouldTerminateSession.
  destruct (Z.leb (maxSteps ctx) (history_length ctx)) eqn:Hcap.
  - intros _. left. split; [apply Z.leb_le, Hcap | reflexivity].
  - apply Z.leb_gt in Hcap.
    destruct (3 <=? length (filter failed (slice_last 3 (session_history ctx))))%nat eqn:Hf;
      [|discriminate].
    intros _. right. split; [exact Hcap|]. split; [reflexivity|].
    apply Nat.leb_le in Hf.
    pose proof (slice_last_length 3 (session_history ctx)) as Hlen.
    pose proof (slice_last_suffix 3 (session_history ctx)) as Hsplit.
    pose proof (length_filter failed (slice_last 3 (session_history ctx))) as Hle.
    assert (Hthree : length (slice_last 3 (session_history ctx)) = 3%nat) by lia.
    clear Hle Hlen.
    destruct (slice_last 3 (session_history ctx)) as [|a [|b [|c [|d rest]]]] eqn:Hs;
      try discriminate Hthree.
    exists (take (length (session_history ctx) - 3) (session_history ctx)), a, b, c.
    split; [exact Hsplit|].
    rewrite !filter_cons, filter_nil in Hf.
    destruct (failed a), (failed b), (failed c); simpl in Hf; try lia; auto.
Qed.


(** X14, witness: three failed reads in a row. *)
Lemma shouldTerminateSession_only_when_due_witness :
  should_terminate (shouldTerminateSession AgentScenarios.three_failures) = true /\
  ((maxSteps AgentScenarios.three_failures <= history_length AgentScenarios.three_failures /\
    termination_reason (shouldTerminateSession AgentScenarios.three_failures) =
      Some ("Maximum session steps (" +:+ pretty (maxSteps AgentScenarios.three_failures) +:+
            ") reached")) \/
   (history_length AgentScenarios.three_failures < maxSteps AgentScenarios.three_failures /\
    termination_reason (shouldTerminateSession AgentScenarios.three_failures) =
      Some "Multiple consecutive failures detected" /\
    exists earlier a b c,
      session_history AgentScenarios.three_failures = earlier ++ [a; b; c] /\
      failed a = true /\ failed b = true /\ failed c = true)).
Proof.
  split; [reflexivity|].
  apply (shouldTerminateSession_only_when_due AgentScenarios.three_failures). reflexivity.
Defined.

(** Error comparison *)

(** X8.  [compareErrors] raises at most one of its three flags, and the
    resolution status agrees with the flag raised: [persisted] with
    [is_same_error], [progressed] with [is_progression], [evolved] or [new]
    with [is_new_error]; the status is [resolved] exactly when there is no
    current error. *)
Theorem compareErrors_one_verdict (previousError currentError : option error_record) :
  let r := compareErrors previousError currentError in
  is_new_error r && is_same_error r = false /\
  is_new_error r && is_progression r = false /\
  is_same_error r && is_progression r = false /\
  (is_same_error r = true -> resolution_status r = "persisted") /\
  (is_progression r = true -> resolution_status r = "progressed") /\
  (is_new_error r = true ->
   resolution_status r = match previousError with Some _ => "evolved" | None => "new" end) /\
  (resolution_status r = "resolved" <-> currentError = None).
Proof.
  unfold compareErrors.
  destruct previousError as [p|], currentError as [c|]; simpl;
    try (repeat split; try discriminate; try reflexivity; fail).
  destruct (String.eqb (type p) (type c)), (String.eqb (message p) (message c)),
    (same_files (file_refs p) (file_refs c)); simpl;
    repeat split; try discriminate; try reflexivity.
Qed.

(** Parsing of an error output *)

Lemma starts_with_includes (p s : list ascii) :
  JS.starts_with p s = true -> JS.includes_chars p s = true.
Proof. intros H. destruct s; simpl; rewrite H; reflexivity. Qed.

Lemma first_capture_includes (prefix s cap : list ascii) :
  first_capture prefix s = Some cap -> JS.includes_chars prefix s = true.
Proof.
  assert (Hat : forall s' cap', capture_at prefix s' = Some cap' ->
                               JS.includes_chars prefix s' = true).
  { intros s' cap' Hc. unfold capture_at in Hc.
    destruct (JS.starts_with prefix s') eqn:Hp; [|discriminate].
    apply starts_with_includes, Hp. }
  induction s as [|c s IH]; cbn [first_capture].
  - destruct (capture_at prefix []) as [cap'|] eqn:Hc; [|discriminate].
    intros _. eapply Hat, Hc.
  - destruct (capture_at prefix (c :: s)) as [cap'|] eqn:Hc.
    + intros _. eapply Hat, Hc.
    + intros H. cbn [JS.includes_chars]. rewrite (IH H). apply orb_true_r.
Qed.

Lemma first_pattern_sound (patterns : list string) (output : list ascii) (t cap : string) :
  first_pattern patterns output = Some (t, cap) ->
  t ∈ patterns /\ JS.includes_chars (JS.chars (t +:+ ": ")) output = true.
Proof.
  induction patterns as [|p patterns IH]; simpl; [discriminate|].
  destruct (first_capture (JS.chars (p +:+ ": ")) output) as [c|] eqn:Hc.
  - intros [= <- <-]. split; [left|]. eapply first_capture_includes, Hc.
  - intros H. destruct (IH H) as [Hin Hinc]. split; [right; exact Hin | exact Hinc].
Qed.

(** X7.  An error that [parseErrorFromOutput] returns keeps the whole
    output as [raw_output] and has no life-cycle field set; its type is one
    of the ten pattern types, and then the output contains that type
    followed by a colon and a space, or it is [CommandNotFound], and then
    the output contains [command not found] or [not recognized] and there
    are no file or line references. *)
Theorem parseErrorFromOutput_sound (now output : string) (e : error_record) :
  parseErrorFromOutput now output = Some e ->
  output <> "" /\ raw_output e = output /\ timestamp e = now /\
  first_seen_step e = None /\ status e = None /\
  ((type e ∈ errorPatterns /\ JS.includes output (type e +:+ ": ") = true /\
    file_refs e = extractFileReferences output /\ line_refs e = extractLineNumbers output) \/
   (type e = "CommandNotFound" /\ message e = JS.trim output /\
    file_refs e = [] /\ line_refs e = [] /\
    (JS.includes output "command not found" = true \/
     JS.includes output "not recognized" = true))).
Proof.
  unfold parseErrorFromOutput.
  destruct (String.eqb_spec output "") as [->|Hne]; [discriminate|].
  destruct (first_pattern errorPatterns (JS.chars output)) as [[t cap]|] eqn:Hp.
  - intros [= <-]. simpl. apply first_pattern_sound in Hp as [Hin Hinc].
    split; [exact Hne|]. do 4 (split; [reflexivity|]). left. auto.
  - destruct (JS.includes output "command not found" || JS.includes output "not recognized")
      eqn:Hc; [|discriminate].
    intros [= <-]. simpl.
    split; [exact Hne|]. do 4 (split; [reflexivity|]). right.
    do 4 (split; [reflexivity|]). apply orb_true_iff in Hc. exact Hc.
Qed.

(** X7, witness: a [KeyError] line. *)
Lemma parseErrorFromOutput_sound_witness :
  exists e,
    parseErrorFromOutput "2025-01-01T00:00:00.000Z" AgentScenarios.first_error = Some e /\
    AgentScenarios.first_error <> "" /\ raw_output e = AgentScenarios.first_error /\
    timestamp e = "2025-01-01T00:00:00.000Z" /\
    first_seen_step e = None /\ status e = None /\
    ((type e ∈ errorPatterns /\ JS.includes AgentScenarios.first_error (type e +:+ ": ") = true /\
      file_refs e = extractFileReferences AgentScenarios.first_error /\
      line_refs e = extractLineNumbers AgentScenarios.first_error) \/
     (type e = "CommandNotFound" /\ message e = JS.trim AgentScenarios.first_error /\
      file_refs e = [] /\ line_refs e = [] /\
      (JS.includes AgentScenarios.first_error "command not found" = true \/
       JS.includes AgentScenarios.first_error "not recognized" = true))).
Proof.
  eexists. split; [vm_compute; reflexivity|].
  apply (parseErrorFromOutput_sound "2025-01-01T00:00:00.000Z" AgentScenarios.first_error).
  vm_compute; reflexivity.
Defined.

(** Error state bookkeeping *)

(** X9.  [updateErrorState] appends one entry to [error_progression], with
    the step, the parsed error and the previous blocking error; afterwards
    there is a blocking error exactly when the output parses to an error;
    [solved_issues] stays or grows by the previous blocking error, resolved
    at this step or the one before; the history, the recent actions and the
    files read are untouched. *)
Theorem updateErrorState_bookkeeping (now : string) (ctx : context) (out : string) (s : Z) :
  let ctx' := updateErrorState now ctx out s in
  error_progression ctx' =
    error_progression ctx ++
    [{| step := s; error_detected := parseErrorFromOutput now out;
        previous_error := current_blocking_error ctx; recorded_at := now |}] /\
  (current_blocking_error ctx' = None <-> parseErrorFromOutput now out = None) /\
  (solved_issues ctx' = solved_issues ctx \/
   exists p n, current_blocking_error ctx = Some p /\ (n = s \/ n = s - 1) /\
               solved_issues ctx' = solved_issues ctx ++ [resolved p n now]) /\
  session_history ctx' = session_history ctx /\
  recent_actions ctx' = recent_actions ctx /\
  files_read ctx' = files_read ctx.
Proof.
  intros ctx'. unfold ctx', updateErrorState. cbv zeta.
  destruct (parseErrorFromOutput now out) as [e|] eqn:Hp.
  - destruct (current_blocking_error ctx) as [p|] eqn:Hc.
    + destruct (is_new_error (compareErrors (Some p) (Some e)) ||
                is_progression (compareErrors (Some p) (Some e))) eqn:Hn.
      * simpl. split; [reflexivity|]. split; [split; discriminate|].
        split; [|auto]. right. exists p, (s - 1). auto.
      * destruct (is_same_error (compareErrors (Some p) (Some e))); simpl; rewrite ?Hc;
          (split; [reflexivity|]); (split; [split; discriminate|]); auto.
    + simpl. split; [reflexivity|]. split; [split; discriminate|]. auto.
  - destruct (current_blocking_error ctx) as [p|] eqn:Hc; simpl; rewrite ?Hc.
    + split; [reflexivity|]. split; [tauto|]. split; [|auto]. right. exists p, s. auto.
    + split; [reflexivity|]. split; [tauto|]. auto.
Qed.


(** Recording of a step *)

Lemma last_slice_last_snoc {A} (n : nat) (l : list A) (x : A) :
  (0 < n)%nat -> last (slice_last n (l ++ [x])) = Some x.
Proof.
  intros Hn. unfold slice_last. rewrite length_app. simpl.
  rewrite drop_app_le by lia. apply last_snoc.
Qed.

Definition recorded_action (w : World) (stepNo : Z) (a : action) (result : value)
    (sig : string) : recent_action :=
  {| signature := sig; action_step := stepNo; tool := action_tool a;
     action_parameters := parameters a; action_result := result |}.

(** What [updateAgentContext] does for a result that has a [status] to
    read. *)
Definition files_after (ctx : context) (a : action) (result : value) : gmap string value :=
  if strict_eq (get result "status") (VStr "success") &&
     is_tool READ_FILE_CONTENT a && truthy (get result "content")
  then
    match get result "file_path" with
    | VStr path => write_property (files_read ctx) path (get result "content")
    | _ => files_read ctx
    end
  else files_read ctx.

Lemma updateAgentContext_defined (w : World) (ctx : context) (stepNo : Z)
    (thought : string) (a : action) (result : value) :
  result <> VNull -> result <> VUndefined ->
  updateAgentContext w ctx stepNo thought a result =
    try! sig <- createActionSignature w (template (action_tool a))
                  (default VUndefined (parameters a));
    let recent := recent_actions ctx ++ [recorded_action w stepNo a result sig] in
    Returned
      (with_files_read
         (with_recent
            (with_history ctx
               (session_history ctx ++
                [{| step_no := stepNo; thought := thought; action_taken := a;
                    step_result := result |}]))
            (if (10 <? length recent)%nat then slice_last 10 recent else recent))
         (files_after ctx a result)).
Proof.
  intros Hnull Hundef. unfold updateAgentContext.
  destruct (createActionSignature w (template (action_tool a))
              (default VUndefined (parameters a))) as [sig|e]; cbn [cbind]; [|reflexivity].
  destruct result; try reflexivity; contradiction.
Qed.

Lemma updateAgentContext_undefined (w : World) (ctx : context) (stepNo : Z)
    (thought : string) (a : action) (result : value) :
  result = VNull \/ result = VUndefined ->
  updateAgentContext w ctx stepNo thought a result =
    try! sig <- createActionSignature w (template (action_tool a))
                  (default VUndefined (parameters a));
    Thrown ("Cannot read properties of " +:+
            (if strict_eq result VNull then "null" else "undefined") +:+
            " (reading 'status')").
Proof.
  intros [->| ->]; unfold updateAgentContext;
    destruct (createActionSignature w (template (action_tool a))
                (default VUndefined (parameters a))); reflexivity.
Qed.

Lemma null_or_undefined_dec (result : value) :
  {result = VNull \/ result = VUndefined} + {result <> VNull /\ result <> VUndefined}.
Proof.
  destruct result; first [left; auto; fail | right; split; discriminate].
Qed.

(** X13.  [updateAgentContext] throws when the signature of the action
    cannot be computed, and when the result is [null] or [undefined], whose
    [status] cannot be read; otherwise it returns.  When it returns, the
    history has grown by the step; the recent actions are the last ten of
    the previous ones followed by the new one, which comes last; the error
    state is untouched; and [files_read] is written, under the [file_path]
    of the result, with the content of a successful [read_file_content]
    (an assignment that adds no property under [__proto__]), and is
    untouched when the tool is another or the status is not [success]. *)
Theorem updateAgentContext_records (w : World) (ctx : context) (stepNo : Z)
    (thought : string) (a : action) (result : value) :
  match updateAgentContext w ctx stepNo thought a result with
  | Returned ctx' =>
      result <> VNull /\ result <> VUndefined /\
      session_history ctx' =
        session_history ctx ++
        [{| step_no := stepNo; thought := thought; action_taken := a;
            step_result := result |}] /\
      (exists sig,
         createActionSignature w (template (action_tool a))
           (default VUndefined (parameters a)) = Returned sig /\
         last (recent_actions ctx') = Some (recorded_action w stepNo a result sig) /\
         recent_actions ctx' =
           slice_last (Nat.min 10 (S (length (recent_actions ctx))))
             (recent_actions ctx ++ [recorded_action w stepNo a result sig])) /\
      length (recent_actions ctx') = Nat.min 10 (S (length (recent_actions ctx))) /\
      solved_issues ctx' = solved_issues ctx /\
      current_blocking_error ctx' = current_blocking_error ctx /\
      error_progression ctx' = error_progression ctx /\
      (forall path,
         is_tool READ_FILE_CONTENT a = true ->
         get result "status" = VStr "success" ->
         get result "file_path" = VStr path ->
         truthy (get result "content") = true ->
         files_read ctx' = write_property (files_read ctx) path (get result "content") /\
         (path <> "__proto__" ->
          files_read ctx' = <[path := get result "content"]> (files_read ctx)) /\
         (path = "__proto__" -> files_read ctx !! path = None ->
          files_read ctx' = files_read ctx)) /\
      (is_tool READ_FILE_CONTENT a = false \/ get result "status" <> VStr "success" ->
       files_read ctx' = files_read ctx)
  | Thrown e =>
      createActionSignature w (template (action_tool a))
        (default VUndefined (parameters a)) = Thrown e \/
      (exists sig,
         createActionSignature w (template (action_tool a))
           (default VUndefined (parameters a)) = Returned sig) /\
      ((result = VNull /\ e = "Cannot read properties of null (reading 'status')") \/
       (result = VUndefined /\ e = "Cannot read properties of undefined (reading 'status')"))
  end.
Proof.
  destruct (null_or_undefined_dec result) as [Hbad|[Hnull Hundef]].
  { rewrite (updateAgentContext_undefined w ctx stepNo thought a result Hbad).
    destruct (createActionSignature w (template (action_tool a))
                (default VUndefined (parameters a))) as [sig|e] eqn:Hsig; cbn [cbind].
    - right. split; [exists sig; reflexivity|].
      destruct Hbad as [-> | ->]; [left | right]; split; reflexivity.
    - left. reflexivity. }
  rewrite (updateAgentContext_defined w ctx stepNo thought a result Hnull Hundef).
  destruct (createActionSignature w (template (action_tool a))
              (default VUndefined (parameters a))) as [sig|e] eqn:Hsig; cbn [cbind];
    [|left; reflexivity].
  cbv zeta.
  set (new := recorded_action w stepNo a result sig).
  assert (Hlen : length (recent_actions ctx ++ [new]) = S (length (recent_actions ctx))).
  { rewrite length_app. simpl. lia. }
  assert (Hrecent :
    (if (10 <? length (recent_actions ctx ++ [new]))%nat
     then slice_last 10 (recent_actions ctx ++ [new])
     else recent_actions ctx ++ [new]) =
    slice_last (Nat.min 10 (S (length (recent_actions ctx)))) (recent_actions ctx ++ [new])).
  { destruct (10 <? length (recent_actions ctx ++ [new]))%nat eqn:Hcap.
    - apply Nat.ltb_lt in Hcap. rewrite Nat.min_l by lia. reflexivity.
    - apply Nat.ltb_ge in Hcap. rewrite Nat.min_r by lia.
      unfold slice_last. rewrite Hlen, Nat.sub_diag. reflexivity. }
  rewrite Hrecent.
  cbn [with_files_read with_recent with_history session_history recent_actions solved_issues
       current_blocking_error error_progression files_read].
  split; [exact Hnull|]. split; [exact Hundef|].
  split; [reflexivity|]. split.
  { exists sig. split; [reflexivity|]. split; [|reflexivity].
    apply last_slice_last_snoc. lia. }
  split.
  { rewrite slice_last_length, Hlen. lia. }
  do 3 (split; [reflexivity|]). split.
  - intros path Htool Hst Hp Hc. unfold files_after. rewrite Hst, Htool, Hp, Hc.
    cbn [strict_eq andb]. rewrite String.eqb_refl. cbn [andb].
    split; [reflexivity|]. unfold write_property. split.
    + intros Hne. apply String.eqb_neq in Hne. rewrite Hne.
      destruct (files_read ctx !! path); reflexivity.
    + intros -> Hnone. rewrite Hnone. reflexivity.
  - unfold files_after. intros [Htool|Hst].
    + rewrite Htool, andb_false_r. reflexivity.
    + destruct (strict_eq (get result "status") (VStr "success")) eqn:Heq; [|reflexivity].
      exfalso. apply Hst. destruct (get result "status"); try discriminate.
      simpl in Heq. apply String.eqb_eq in Heq. congruence.
Qed.

(** Commands *)

(** X15.  A command whose lower-case form contains one of the ten
    forbidden fragments is answered with the error [appears to be
    potentially destructive], whatever the environment: it is not run. *)
Theorem run_diagnostic_command_refuses_destructive (w : World) (params : value)
    (ctx : context) (cmd d : string) :
  get params "command_string" = VStr cmd ->
  In d dangerousCommands ->
  JS.includes (JS.toLowerCase cmd) d = true ->
  run_diagnostic_command w params ctx =
  Returned (error_result ("Command '" +:+ cmd +:+
                          "' appears to be potentially destructive and is not allowed")).
Proof.
  intros Hget Hd Hinc. unfold run_diagnostic_command, run_diagnostic_body.
  assert (Hdes : destructure params "command_string" = Returned (VStr cmd)).
  { destruct params; simpl in Hget |- *; try discriminate. rewrite Hget. reflexivity. }
  rewrite Hdes. cbn [cbind].
  destruct (String.eqb_spec cmd "") as [->|Hne].
  { exfalso. clear -Hd Hinc. simpl in Hd.
    repeat (destruct Hd as [<-|Hd]; [vm_compute in Hinc; discriminate|]). contradiction. }
  replace (existsb (fun d => JS.includes (JS.toLowerCase cmd) d) dangerousCommands) with true.
  - reflexivity.
  - symmetry. apply existsb_exists. exists d. auto.
Qed.

(** X15, witness: [npm run format] contains [format]. *)
Lemma run_diagnostic_command_refuses_destructive_witness :
  get (VObj [("command_string", VStr "npm run format")]) "command_string" =
    VStr "npm run format" /\
  In "format" dangerousCommands /\
  JS.includes (JS.toLowerCase "npm run format") "format" = true /\
  run_diagnostic_command (AgentScenarios.world_with [] "" true)
    (VObj [("command_string", VStr "npm run format")]) AgentScenarios.empty_context =
  Returned (error_result ("Command '" +:+ "npm run format" +:+
                          "' appears to be potentially destructive and is not allowed")).
Proof.
  split; [reflexivity|]. split; [simpl; tauto|]. split; [reflexivity|].
  apply (run_diagnostic_command_refuses_destructive (AgentScenarios.world_with [] "" true)
           (VObj [("command_string", VStr "npm run format")]) AgentScenarios.empty_context
           "npm run format" "format").
  - reflexivity.
  - simpl; tauto.
  - reflexivity.
Defined.

(** The environment with another [runCommand]. *)
Definition with_runCommand (w : World) (run : value -> bool * string) : World :=
  {| process_cwd := process_cwd w; clock := clock w; path_resolve := path_resolve w;
     path_relative := path_relative w; path_type_error := path_type_error w;
     path_member_error := path_member_error w;
     existsSync := existsSync w; readFile := readFile w;
     readFileContext := readFileContext w; runCommand := run;
     askYesNo := askYesNo w; askInput := askInput w; display := display w;
     tool_body := tool_body w; inherited_call := inherited_call w |}.

Definition rejected_by_user : value :=
  VObj [("status", VStr "success"); ("user_confirmation", VBool false);
        ("message", VStr "Command was rejected by user")].

(** X16.  Unless the user answers yes, [propose_fix_by_command] returns
    the rejection, or an error when a dialogue step threw, and the result is
    the same whatever running a command would do: the command is not run. *)
Theorem propose_fix_by_command_runs_only_confirmed (w : World) (params : value)
    (ctx : context) :
  askYesNo w "Run this command?" <> Returned true ->
  exists r,
    propose_fix_by_command w params ctx = Returned r /\
    (r = rejected_by_user \/
     exists e, r = error_result ("Failed to execute command: " +:+ e)) /\
    forall run, propose_fix_by_command (with_runCommand w run) params ctx = Returned r.
Proof.
  intros Hno. unfold propose_fix_by_command, propose_fix_body.
  cbn [with_runCommand display askYesNo runCommand].
  destruct (destructure params "command_to_propose") as [c|e]; cbn [cbind catching].
  2:{ eexists. split; [reflexivity|]. split; [right; eexists; reflexivity|]. reflexivity. }
  destruct (if truthy (get params "command_description")
            then display w (get params "command_description") else Returned tt)
    as [[]|e]; cbn [cbind catching].
  2:{ eexists. split; [reflexivity|]. split; [right; eexists; reflexivity|]. reflexivity. }
  destruct (display w c) as [[]|e]; cbn [cbind catching].
  2:{ eexists. split; [reflexivity|]. split; [right; eexists; reflexivity|]. reflexivity. }
  destruct (askYesNo w "Run this command?") as [[|]|e]; cbn [cbind catching negb].
  - contradiction.
  - eexists. split; [reflexivity|]. split; [left; reflexivity|]. reflexivity.
  - eexists. split; [reflexivity|]. split; [right; eexists; reflexivity|]. reflexivity.
Qed.

(** X16, witness: the user declines [pip install pandas]. *)
Lemma propose_fix_by_command_runs_only_confirmed_witness :
  askYesNo (AgentScenarios.world_with [] "" false) "Run this command?" <> Returned true /\
  exists r,
    propose_fix_by_command (AgentScenarios.world_with [] "" false)
      (VObj [("command_to_propose", VStr "pip install pandas")])
      AgentScenarios.empty_context = Returned r /\
    (r = rejected_by_user \/
     exists e, r = error_result ("Failed to execute command: " +:+ e)) /\
    forall run,
      propose_fix_by_command (with_runCommand (AgentScenarios.world_with [] "" false) run)
        (VObj [("command_to_propose", VStr "pip install pandas")])
        AgentScenarios.empty_context = Returned r.
Proof.
  split; [discriminate|].
  apply (propose_fix_by_command_runs_only_confirmed (AgentScenarios.world_with [] "" false)
           (VObj [("command_to_propose", VStr "pip install pandas")])
           AgentScenarios.empty_context).
  discriminate.
Defined.


(** The orchestrator loop *)

(** What a turn numbered [stepCount] may add to the history. *)
Definition records_at_most_one (stepCount : Z) (ctx ctx' : context) : Prop :=
  session_history ctx' = session_history ctx \/
  exists s, step_no s = stepCount /\ session_history ctx' = session_history ctx ++ [s].

Lemma updateAgentContext_effect (w : World) (ctx ctx' : context) (stepNo : Z)
    (thought : string) (a : action) (result : value) :
  updateAgentContext w ctx stepNo thought a result = Returned ctx' ->
  session_history ctx' =
    session_history ctx ++
    [{| step_no := stepNo; thought := thought; action_taken := a; step_result := result |}] /\
  exists sig,
    createActionSignature w (template (action_tool a))
      (default VUndefined (parameters a)) = Returned sig /\
    last (recent_actions ctx') = Some (recorded_action w stepNo a result sig).
Proof.
  destruct (null_or_undefined_dec result) as [Hbad|[Hnull Hundef]].
  { rewrite (updateAgentContext_undefined w ctx stepNo thought a result Hbad).
    destruct (createActionSignature w (template (action_tool a))
                (default VUndefined (parameters a))); discriminate. }
  rewrite (updateAgentContext_defined w ctx stepNo thought a result Hnull Hundef).
  destruct (createActionSignature w (template (action_tool a))
              (default VUndefined (parameters a))) as [sig|e]; cbn [cbind]; [|discriminate].
  intros [= <-].
  cbn [with_files_read with_recent with_history session_history recent_actions].
  split; [reflexivity|]. exists sig. split; [reflexivity|].
  destruct (10 <? _)%nat.
  - apply last_slice_last_snoc. lia.
  - apply last_snoc.
Qed.

Lemma updateAgentContext_history (w : World) (ctx ctx' : context) (stepNo : Z)
    (thought : string) (a : action) (result : value) :
  updateAgentContext w ctx stepNo thought a result = Returned ctx' ->
  session_history ctx' =
    session_history ctx ++
    [{| step_no := stepNo; thought := thought; action_taken := a; step_result := result |}].
Proof. intros H. apply (updateAgentContext_effect _ _ _ _ _ _ _ H). Qed.

Lemma updateErrorState_frame (now : string) (ctx : context) (out : string) (s : Z) :
  session_history (updateErrorState now ctx out s) = session_history ctx /\
  recent_actions (updateErrorState now ctx out s) = recent_actions ctx.
Proof.
  unfold updateErrorState. cbv zeta.
  destruct (parseErrorFromOutput now out) as [e|].
  - destruct (is_new_error _ || is_progression _); [split; reflexivity|].
    destruct (is_same_error _); split; reflexivity.
  - destruct (current_blocking_error ctx); split; reflexivity.
Qed.

Lemma updateErrorState_history (now : string) (ctx : context) (out : string) (s : Z) :
  session_history (updateErrorState now ctx out s) = session_history ctx.
Proof. apply updateErrorState_frame. Qed.

Lemma planned_signature (w : World) (name : string) (params : value) :
  createActionSignature w
    (template (action_tool {| tool_used := Some name; tool_to_use := Some name;
                              parameters := Some params; tool_parameters := None |}))
    (default VUndefined (Some params)) =
  createActionSignature w name params.
Proof.
  unfold action_tool, or_string. cbn [tool_to_use tool_used default].
  destruct (String.eqb name ""); reflexivity.
Qed.

Lemma interrupted_update_history (w : World) (ctx : context) (stepNo : Z)
    (thought : string) (a : action) (result : value) :
  session_history (interrupted_update w ctx stepNo thought a result) =
    session_history ctx ++
    [{| step_no := stepNo; thought := thought; action_taken := a; step_result := result |}].
Proof.
  unfold interrupted_update.
  destruct (createActionSignature w (template (action_tool a))
              (default VUndefined (parameters a))); reflexivity.
Qed.

(** On the planner path the recording of the step cannot throw: the
    dispatcher has computed the same signature, and the result has a
    [status]. *)
Lemma planned_update_returns (toolFunctions : list (string * tool_fn)) (w : World)
    (ctx : context) (stepNo : Z) (thought name : string) (params r : value) :
  executeAgentTool toolFunctions w name params ctx = Returned r ->
  r <> VNull -> r <> VUndefined ->
  exists ctx',
    updateAgentContext w ctx stepNo thought
      {| tool_used := Some name; tool_to_use := Some name;
         parameters := Some params; tool_parameters := None |} r = Returned ctx'.
Proof.
  intros Hexec Hnull Hundef.
  rewrite (updateAgentContext_defined w ctx stepNo thought _ r Hnull Hundef).
  rewrite planned_signature.
  unfold executeAgentTool, shouldSkipAction in Hexec.
  destruct (createActionSignature w name params) as [sig|e]; [|discriminate].
  cbn [cbind]. eexists. reflexivity.
Qed.

Lemma recover_turn (toolFunctions : list (string * tool_fn)) (w : World) (ctx : context)
    (stepCount : Z) (e : string) (calls : list (string * value)) :
  let t := recover toolFunctions w ctx stepCount e calls in
  records_at_most_one stepCount ctx (next_context t) /\
  length (dispatched t) = S (length calls).
Proof.
  unfold recover.
  destruct (executeAgentTool toolFunctions w ASK_USER _ ctx) as [r|?]; cbn zeta.
  - destruct (updateAgentContext w ctx stepCount _ _ r) as [ctx'|?] eqn:Hu; simpl.
    + split; [|rewrite length_app; simpl; lia].
      right. eexists. split; [|eapply updateAgentContext_history, Hu]. reflexivity.
    + split; [|rewrite length_app; simpl; lia].
      right. eexists. split; [|apply interrupted_update_history]. reflexivity.
  - simpl. split; [left; reflexivity | rewrite length_app; simpl; lia].
Qed.

Lemma loop_turn_step (toolFunctions : list (string * tool_fn)) (w : World)
    (planner : context -> completion agent_action) (ctx : context) (stepCount : Z) :
  let t := loop_turn toolFunctions w planner ctx stepCount in
  records_at_most_one stepCount ctx (next_context t) /\
  (length (dispatched t) <= 2)%nat.
Proof.
  unfold loop_turn.
  destruct (should_terminate (shouldTerminateSession ctx)).
  { simpl. split; [left; reflexivity | lia]. }
  destruct (planner ctx) as [act|e].
  2:{ destruct (recover_turn toolFunctions w ctx stepCount e []) as [H1 H2].
      split; [exact H1 | rewrite H2; simpl; lia]. }
  cbn zeta.
  assert (Hrec : forall e,
            let t := recover toolFunctions w ctx stepCount e
                       [(planned_tool act, planned_parameters act)] in
            records_at_most_one stepCount ctx (next_context t) /\
            (length (dispatched t) <= 2)%nat).
  { intros e. destruct (recover_turn toolFunctions w ctx stepCount e
                          [(planned_tool act, planned_parameters act)]) as [H1 H2].
    split; [exact H1 | rewrite H2; simpl; lia]. }
  destruct (executeAgentTool toolFunctions w (planned_tool act) (planned_parameters act) ctx)
    as [r|e] eqn:Hexec; [|apply Hrec].
  destruct (null_or_undefined_dec r) as [[-> | ->]|[Hnull Hundef]]; [apply Hrec..|].
  destruct (planned_update_returns toolFunctions w ctx stepCount (planned_thought act)
              (planned_tool act) (planned_parameters act) r Hexec Hnull Hundef)
    as [ctx1 Hu].
  assert (Hmain :
    let t :=
      if strict_eq (get r "status") (VStr "finished")
      then {| next_context := ctx; goes_on := false;
              dispatched := [(planned_tool act, planned_parameters act)] |}
      else
        {| next_context :=
             match get r "stderr" with
             | VStr stderr =>
                 if String.eqb (planned_tool act) "run_diagnostic_command" &&
                    negb (String.eqb stderr "")
                 then updateErrorState (clock w) ctx1 stderr stepCount
                 else ctx1
             | _ => ctx1
             end;
           goes_on := negb (String.eqb (planned_tool act) "finish_debugging");
           dispatched := [(planned_tool act, planned_parameters act)] |} in
    records_at_most_one stepCount ctx (next_context t) /\ (length (dispatched t) <= 2)%nat).
  { destruct (strict_eq (get r "status") (VStr "finished")).
    { simpl. split; [left; reflexivity | lia]. }
    simpl. split; [|lia]. right.
    apply updateAgentContext_history in Hu.
    exists {| step_no := stepCount; thought := planned_thought act;
              action_taken :=
                {| tool_used := Some (planned_tool act); tool_to_use := Some (planned_tool act);
                   parameters := Some (planned_parameters act); tool_parameters := None |};
              step_result := r |}.
    split; [reflexivity|].
    destruct (get r "stderr"); try exact Hu.
    destruct (_ && _); [rewrite updateErrorState_history|]; exact Hu. }
  rewrite Hu. destruct r; try exact Hmain; contradiction.
Qed.

(** A turn of the planner path whose tool answers an object. *)
Lemma loop_turn_planned (toolFunctions : list (string * tool_fn)) (w : World)
    (planner : context -> completion agent_action) (ctx : context) (stepCount : Z)
    (act : agent_action) (props : list (string * value)) :
  should_terminate (shouldTerminateSession ctx) = false ->
  planner ctx = Returned act ->
  executeAgentTool toolFunctions w (planned_tool act) (planned_parameters act) ctx =
    Returned (VObj props) ->
  exists ctx1,
    updateAgentContext w ctx stepCount (planned_thought act)
      {| tool_used := Some (planned_tool act); tool_to_use := Some (planned_tool act);
         parameters := Some (planned_parameters act); tool_parameters := None |}
      (VObj props) = Returned ctx1 /\
    loop_turn toolFunctions w planner ctx stepCount =
      if strict_eq (get (VObj props) "status") (VStr "finished")
      then {| next_context := ctx; goes_on := false;
              dispatched := [(planned_tool act, planned_parameters act)] |}
      else
        {| next_context :=
             match get (VObj props) "stderr" with
             | VStr stderr =>
                 if String.eqb (planned_tool act) "run_diagnostic_command" &&
                    negb (String.eqb stderr "")
                 then updateErrorState (clock w) ctx1 stderr stepCount
                 else ctx1
             | _ => ctx1
             end;
           goes_on := negb (String.eqb (planned_tool act) "finish_debugging");
           dispatched := [(planned_tool act, planned_parameters act)] |}.
Proof.
  intros Hterm Hplan Hexec.
  destruct (planned_update_returns toolFunctions w ctx stepCount (planned_thought act)
              (planned_tool act) (planned_parameters act) (VObj props) Hexec)
    as [ctx1 Hu]; [discriminate..|].
  exists ctx1. split; [exact Hu|].
  unfold loop_turn. rewrite Hterm, Hplan. cbv zeta. rewrite Hexec, Hu. reflexivity.
Qed.

Lemma debugLoop_from_bounded (toolFunctions : World -> list (string * tool_fn))
    (w : Z -> World) (planner : Z -> context -> completion agent_action)
    (budget : nat) (stepCount : Z) (ctx : context) :
  let r := debugLoop_from toolFunctions w planner budget stepCount ctx in
  (length (snd r) <= 2 * budget)%nat /\
  exists added,
    session_history (fst r) = session_history ctx ++ added /\
    (length added <= budget)%nat /\
    Forall (fun s => stepCount < step_no s <= stepCount + Z.of_nat budget) added /\
    StronglySorted Z.lt (map step_no added).
Proof.
  revert stepCount ctx. induction budget as [|budget IH]; intros stepCount ctx.
  - simpl. split; [lia|]. exists []. rewrite app_nil_r.
    repeat split; [simpl; lia | constructor | constructor].
  - cbn [debugLoop_from]. cbv zeta.
    destruct (loop_turn_step (toolFunctions (w (stepCount + 1))) (w (stepCount + 1))
                (planner (stepCount + 1)) ctx (stepCount + 1)) as [Hrec Hcalls].
    set (t := loop_turn _ _ _ ctx (stepCount + 1)) in *.
    assert (Hone : exists one,
              session_history (next_context t) = session_history ctx ++ one /\
              (length one <= 1)%nat /\ Forall (fun s => step_no s = stepCount + 1) one).
    { destruct Hrec as [Hsame|(s & Hs & Hadd)].
      - exists []. rewrite app_nil_r. repeat split; [exact Hsame | simpl; lia | constructor].
      - exists [s]. repeat split; [exact Hadd | simpl; lia | repeat constructor; exact Hs]. }
    destruct Hone as (one & Hh & Hlen & Hsteps).
    destruct (goes_on t).
    + specialize (IH (stepCount + 1) (next_context t)).
      destruct (debugLoop_from toolFunctions w planner budget (stepCount + 1) (next_context t))
        as [final calls]. simpl in IH |- *.
      destruct IH as (Hc & added & Ha & Hal & Has & Hsorted).
      split; [rewrite length_app; lia|].
      exists (one ++ added). rewrite Ha, Hh, <- app_assoc.
      split; [reflexivity|]. split; [rewrite length_app; lia|]. split.
      * apply Forall_app. split.
        -- eapply Forall_impl; [exact Hsteps|]. intros s Hs. simpl in Hs. lia.
        -- eapply Forall_impl; [exact Has|]. intros s Hs. simpl in Hs. lia.
      * rewrite map_app. clear -Hsteps Has Hsorted Hlen.
        destruct one as [|s [|? ?]]; simpl in *; try lia; [exact Hsorted|].
        constructor; [exact Hsorted|].
        apply Forall_cons in Hsteps as [Hs _].
        rewrite Forall_fmap. eapply Forall_impl; [exact Has|].
        intros x Hx. simpl in *. lia.
    + simpl. split; [lia|]. exists one. split; [exact Hh|]. split; [lia|]. split.
      * eapply Forall_impl; [exact Hsteps|]. intros s Hs. simpl in Hs. lia.
      * clear -Hlen. destruct one as [|s [|? ?]]; simpl in *; try lia;
          repeat constructor.
Qed.

(** X18.  A run of [debugLoop] calls the dispatcher at most 40 times and
    appends at most 20 steps to the history; the steps it appends are
    numbered within 1..20, in strictly increasing order, and the steps that
    were there stay in front. *)
Theorem debugLoop_bounded (toolFunctions : World -> list (string * tool_fn))
    (w : Z -> World) (planner : Z -> context -> completion agent_action) (ctx : context) :
  let final := fst (debugLoop toolFunctions w planner ctx) in
  let calls := snd (debugLoop toolFunctions w planner ctx) in
  (length calls <= 40)%nat /\
  exists added,
    session_history final = session_history ctx ++ added /\
    (length added <= 20)%nat /\
    Forall (fun s => 1 <= step_no s <= 20) added /\
    StronglySorted Z.lt (map step_no added).
Proof.
  intros final calls. unfold final, calls, debugLoop.
  destruct (debugLoop_from_bounded toolFunctions w planner 20 0 ctx)
    as (Hc & added & Ha & Hl & Hs & Hsorted).
  split; [lia|]. exists added.
  split; [exact Ha|]. split; [exact Hl|]. split; [|exact Hsorted].
  eapply Forall_impl; [exact Hs|]. intros s H. cbv beta in H. lia.
Qed.


(** Ending a session *)


(** X19.  A turn for which the planner chooses [finish_debugging] ends the
    loop, whether the tool finishes, fails or is skipped as a duplicate, as
    long as the signature of the call can be computed; the dispatcher is
    called once. *)
Theorem finish_debugging_ends_loop (w : World)
    (planner : context -> completion agent_action) (ctx : context) (stepCount : Z)
    (act : agent_action) (sig : string) :
  planner ctx = Returned act ->
  planned_tool act = "finish_debugging" ->
  createActionSignature w "finish_debugging" (planned_parameters act) = Returned sig ->
  let t := loop_turn (toolFunctions_seeded w) w planner ctx stepCount in
  goes_on t = false /\
  (should_terminate (shouldTerminateSession ctx) = false ->
   dispatched t = [("finish_debugging", planned_parameters act)]).
Proof.
  intros Hplan Hname Hsig t. unfold t.
  destruct (should_terminate (shouldTerminateSession ctx)) eqn:Hterm.
  { unfold loop_turn. rewrite Hterm. split; [reflexivity|discriminate]. }
  assert (Hres : exists props,
            executeAgentTool (toolFunctions_seeded w) w (planned_tool act)
              (planned_parameters act) ctx = Returned (VObj props)).
  { rewrite Hname, (executeAgentTool_gate _ w _ _ ctx sig Hsig).
    destruct (recent_duplicate ctx sig) as [d|]; [eexists; reflexivity|].
    change (lookup_tool (toolFunctions_seeded w) "finish_debugging")
      with (Own (finish_debugging w)).
    cbv iota beta. unfold finish_debugging, catching.
    destruct (destructure (planned_parameters act) "conclusion_message_for_user") as [c|e];
      cbn [cbind]; [|eexists; reflexivity].
    destruct (get (planned_parameters act) "final_status"); try (eexists; reflexivity).
    destruct (display w c); cbn [cbind]; eexists; reflexivity. }
  destruct Hres as [props Hexec].
  destruct (loop_turn_planned (toolFunctions_seeded w) w planner ctx stepCount act props
              Hterm Hplan Hexec) as (ctx1 & _ & ->).
  rewrite Hname.
  destruct (strict_eq (get (VObj props) "status") (VStr "finished"));
    (split; [|intros _]; reflexivity).
Qed.

(** X19, witness: a well-formed [finish_debugging] on an empty session. *)
Lemma finish_debugging_ends_loop_witness :
  let w := AgentScenarios.world_with [] "" true in
  let act := AgentScenarios.planned "finish_debugging" AgentScenarios.finish_params in
  let planner := fun _ : context => Returned act in
  let t := loop_turn (toolFunctions_seeded w) w planner AgentScenarios.empty_context 1 in
  exists sig,
    planner AgentScenarios.empty_context = Returned act /\
    planned_tool act = "finish_debugging" /\
    createActionSignature w "finish_debugging" (planned_parameters act) = Returned sig /\
    goes_on t = false /\
    (should_terminate (shouldTerminateSession AgentScenarios.empty_context) = false ->
     dispatched t = [("finish_debugging", planned_parameters act)]).
Proof.
  cbv zeta. eexists.
  split; [reflexivity|]. split; [reflexivity|]. split; [vm_compute; reflexivity|].
  eapply (finish_debugging_ends_loop (AgentScenarios.world_with [] "" true)
            (fun _ : context =>
               Returned (AgentScenarios.planned "finish_debugging" AgentScenarios.finish_params))
            AgentScenarios.empty_context 1
            (AgentScenarios.planned "finish_debugging" AgentScenarios.finish_params)).
  - reflexivity.
  - reflexivity.
  - vm_compute; reflexivity.
Defined.

(** Deduplication on the planner path *)

(** X20.  On the planner path, a turn that ran an action other than
    [finish_debugging] and [search_file_content] and did not finish lets
    the loop go on, and when the same action is planned again at the next
    turn, that turn records a step with status [skipped] behind the step of
    the first.  ([search_file_content] is left out: it sorts the
    [file_extensions] of the planner in place, so the signature recorded
    for its step is that of the sorted parameters.) *)
Theorem repeated_plan_is_skipped (toolFunctions : list (string * tool_fn)) (w : World)
    (planner : context -> completion agent_action) (ctx : context) (stepCount : Z)
    (act : agent_action) (sig : string) (props : list (string * value)) :
  should_terminate (shouldTerminateSession ctx) = false ->
  planner ctx = Returned act ->
  createActionSignature w (planned_tool act) (planned_parameters act) = Returned sig ->
  executeAgentTool toolFunctions w (planned_tool act) (planned_parameters act) ctx =
    Returned (VObj props) ->
  get (VObj props) "status" <> VStr "finished" ->
  planned_tool act <> "finish_debugging" ->
  planned_tool act <> "search_file_content" ->
  history_length ctx < stepCount + 2 ->
  let ctx1 := next_context (loop_turn toolFunctions w planner ctx stepCount) in
  should_terminate (shouldTerminateSession ctx1) = false ->
  planner ctx1 = Returned act ->
  goes_on (loop_turn toolFunctions w planner ctx stepCount) = true /\
  exists first second,
    session_history ctx1 = session_history ctx ++ [first] /\
    step_result first = VObj props /\
    session_history (next_context (loop_turn toolFunctions w planner ctx1 (stepCount + 1))) =
      session_history ctx ++ [first; second] /\
    step_no second = stepCount + 1 /\
    obj_status (step_result second) = Some "skipped".
Proof.
  intros Hterm Hplan Hsig Hexec Hnf Hnotfinish _ Hlen ctx1 Hterm1 Hplan1.
  assert (Hne : strict_eq (get (VObj props) "status") (VStr "finished") = false).
  { destruct (strict_eq (get (VObj props) "status") (VStr "finished")) eqn:Heq; [|reflexivity].
    exfalso. apply Hnf. destruct (get (VObj props) "status"); try discriminate.
    simpl in Heq. apply String.eqb_eq in Heq. congruence. }
  set (a := {| tool_used := Some (planned_tool act); tool_to_use := Some (planned_tool act);
               parameters := Some (planned_parameters act); tool_parameters := None |}).
  assert (Hsig' : createActionSignature w (template (action_tool a))
                    (default VUndefined (parameters a)) = Returned sig).
  { unfold a. rewrite planned_signature. exact Hsig. }
  destruct (updateAgentContext w ctx stepCount (planned_thought act) a (VObj props))
    as [ctx'|e] eqn:Hu;
    [|unfold updateAgentContext in Hu; rewrite Hsig' in Hu; discriminate].
  destruct (updateAgentContext_effect _ _ _ _ _ _ _ Hu) as (Hh & sig' & Hs' & Hlast).
  assert (sig' = sig) by congruence. subst sig'.
  assert (Hgo : goes_on (loop_turn toolFunctions w planner ctx stepCount) = true).
  { unfold loop_turn. rewrite Hterm, Hplan. cbv zeta. rewrite Hexec, Hne.
    fold a. rewrite Hu. cbn [goes_on].
    apply negb_true_iff, String.eqb_neq, Hnotfinish. }
  split; [exact Hgo|].
  assert (Hctx1 : session_history ctx1 = session_history ctx' /\
                  recent_actions ctx1 = recent_actions ctx').
  { unfold ctx1, loop_turn. rewrite Hterm, Hplan. cbv zeta. rewrite Hexec, Hne.
    fold a. rewrite Hu.
    cbn [next_context].
    destruct (get (VObj props) "stderr"); try (split; reflexivity).
    destruct (_ && _); [|split; reflexivity].
    apply updateErrorState_frame. }
  destruct Hctx1 as [Hh1 Hr1].
  assert (Hin : In (recorded_action w stepCount a (VObj props) sig) (recent_actions ctx1)).
  { rewrite Hr1. apply list_elem_of_In. apply last_Some_elem_of. exact Hlast. }
  destruct (loop_turn_records_skip toolFunctions w planner ctx1 (stepCount + 1) act sig
              (recorded_action w stepCount a (VObj props) sig)
              Hterm1 Hplan1 Hsig Hin eq_refl) as (d & last & _ & _ & Hhist & Hno & Hst & _).
  { unfold history_length. rewrite Hh1, Hh, length_app. simpl.
    unfold history_length in Hlen. lia. }
  eexists _, last. rewrite Hhist, Hh1, Hh, <- app_assoc. simpl.
  repeat split; auto.
Qed.


(** X20, witness: the read of a missing file planned twice. *)
Lemma repeated_plan_is_skipped_witness :
  let w := AgentScenarios.world_with [] "" true in
  let act := AgentScenarios.planned "read_file_content" AgentScenarios.missing_file_params in
  let planner := fun _ : context => Returned act in
  let ctx := AgentScenarios.empty_context in
  let props := [("status", VStr "error"); ("message", VStr "File not found: missing.py")] in
  let ctx1 := next_context (loop_turn (toolFunctions_seeded w) w planner ctx 1) in
  exists sig,
    should_terminate (shouldTerminateSession ctx) = false /\
    planner ctx = Returned act /\
    createActionSignature w (planned_tool act) (planned_parameters act) = Returned sig /\
    executeAgentTool (toolFunctions_seeded w) w (planned_tool act) (planned_parameters act) ctx =
      Returned (VObj props) /\
    get (VObj props) "status" <> VStr "finished" /\
    planned_tool act <> "finish_debugging" /\
    planned_tool act <> "search_file_content" /\
    history_length ctx < 1 + 2 /\
    should_terminate (shouldTerminateSession ctx1) = false /\
    planner ctx1 = Returned act /\
    goes_on (loop_turn (toolFunctions_seeded w) w planner ctx 1) = true /\
    exists first second,
      session_history ctx1 = session_history ctx ++ [first] /\
      step_result first = VObj props /\
      session_history (next_context (loop_turn (toolFunctions_seeded w) w planner ctx1 (1 + 1))) =
        session_history ctx ++ [first; second] /\
      step_no second = 1 + 1 /\
      obj_status (step_result second) = Some "skipped".
Proof.
  cbv zeta. eexists.
  split; [reflexivity|]. split; [reflexivity|]. split; [vm_compute; reflexivity|].
  split; [vm_compute; reflexivity|]. split; [discriminate|]. split; [discriminate|].
  split; [discriminate|]. split; [reflexivity|].
  split; [vm_compute; reflexivity|]. split; [reflexivity|].
  eapply (repeated_plan_is_skipped
            (toolFunctions_seeded (AgentScenarios.world_with [] "" true))
            (AgentScenarios.world_with [] "" true)
            (fun _ : context =>
               Returned (AgentScenarios.planned "read_file_content"
                           AgentScenarios.missing_file_params))
            AgentScenarios.empty_context 1
            (AgentScenarios.planned "read_file_content" AgentScenarios.missing_file_params)
            _ [("status", VStr "error"); ("message", VStr "File not found: missing.py")]);
    first [reflexivity | discriminate | vm_compute; reflexivity].
Defined.

End SessionTheory.

Module PersistenceTheory.
Import Json Agent AgentTheory.

(** The clock enters a parsed error through its [timestamp] only. *)
Lemma parseErrorFromOutput_clock (now now' output : string) (e : error_record) :
  parseErrorFromOutput now output = Some e ->
  exists e',
    parseErrorFromOutput now' output = Some e' /\
    type e' = type e /\ message e' = message e /\ file_refs e' = file_refs e /\
    first_seen_step e' = None /\ last_seen_step e' = None.
Proof.
  unfold parseErrorFromOutput.
  destruct (String.eqb output ""); [discriminate|].
  destruct (first_pattern errorPatterns (JS.chars output)) as [[t cap]|].
  - intros [= <-]. eexists. split; [reflexivity|]. repeat split.
  - destruct (JS.includes output "command not found" || JS.includes output "not recognized");
      [|discriminate].
    intros [= <-]. eexists. split; [reflexivity|]. repeat split.
Qed.

(** X27.  When an output that parses to an error is seen at step [s1] with
    no blocking error, and the same output is seen again at step [s2], the
    blocking error stays active with the same type and message, its last
    seen step is [s2] and nothing moves to [solved_issues]; its first seen
    step stays [s1], unless [s1] is 0, which the test [||] reads as missing:
    then it becomes [s2]. *)
Theorem updateErrorState_persisting_error (now1 now2 : string) (ctx : context)
    (out : string) (s1 s2 : Z) (e : error_record) :
  current_blocking_error ctx = None ->
  parseErrorFromOutput now1 out = Some e ->
  let ctx1 := updateErrorState now1 ctx out s1 in
  let ctx2 := updateErrorState now2 ctx1 out s2 in
  exists e1 e2,
    current_blocking_error ctx1 = Some e1 /\
    first_seen_step e1 = Some s1 /\ last_seen_step e1 = None /\
    current_blocking_error ctx2 = Some e2 /\
    type e2 = type e /\ message e2 = message e /\ status e2 = Some "active" /\
    first_seen_step e2 = Some (if Z.eqb s1 0 then s2 else s1) /\
    last_seen_step e2 = Some s2 /\
    solved_issues ctx2 = solved_issues ctx.
Proof.
  intros Hnone Hparse ctx1 ctx2.
  destruct (parseErrorFromOutput_clock now1 now1 out e Hparse)
    as (e0 & He0 & _ & _ & _ & Hfirst & Hlast).
  assert (e0 = e) by congruence. subst e0.
  destruct (parseErrorFromOutput_clock now1 now2 out e Hparse)
    as (e' & Hparse2 & Ht & Hm & Hf & _ & _).
  assert (Hctx1 : current_blocking_error ctx1 = Some (active e s1 None) /\
                  solved_issues ctx1 = solved_issues ctx).
  { unfold ctx1, updateErrorState. rewrite Hparse, Hnone. split; reflexivity. }
  destruct Hctx1 as [Hc1 Hs1].
  exists (active e s1 None), (active e' (if Z.eqb s1 0 then s2 else s1) (Some s2)).
  split; [exact Hc1|]. split; [reflexivity|]. split; [exact Hlast|].
  assert (Hctx2 : current_blocking_error ctx2 =
                    Some (active e' (if Z.eqb s1 0 then s2 else s1) (Some s2)) /\
                  solved_issues ctx2 = solved_issues ctx1).
  { unfold ctx2, updateErrorState. rewrite Hparse2, Hc1. unfold compareErrors.
    cbn [type message file_refs active first_seen_step].
    rewrite Ht, Hm, Hf, !String.eqb_refl. unfold same_files.
    rewrite bool_decide_eq_true_2 by reflexivity.
    cbn [andb orb negb is_new_error is_progression is_same_error or_else].
    split; reflexivity. }
  destruct Hctx2 as [Hc2 Hs2].
  split; [exact Hc2|]. split; [exact Ht|]. split; [exact Hm|].
  split; [reflexivity|]. split; [reflexivity|]. split; [reflexivity|].
  rewrite Hs2. exact Hs1.
Qed.

(** X27, witness: the same [KeyError] at steps 2 and 5. *)
Lemma updateErrorState_persisting_error_witness :
  let ctx := AgentScenarios.empty_context in
  let out := AgentScenarios.first_error in
  let now1 := "2025-01-01T00:00:00.000Z" in
  let now2 := "2025-01-01T00:05:00.000Z" in
  exists e,
    current_blocking_error ctx = None /\
    parseErrorFromOutput now1 out = Some e /\
    exists e1 e2,
      current_blocking_error (updateErrorState now1 ctx out 2) = Some e1 /\
      first_seen_step e1 = Some 2 /\ last_seen_step e1 = None /\
      current_blocking_error
        (updateErrorState now2 (updateErrorState now1 ctx out 2) out 5) = Some e2 /\
      type e2 = type e /\ message e2 = message e /\ status e2 = Some "active" /\
      first_seen_step e2 = Some (if Z.eqb 2 0 then 5 else 2) /\
      last_seen_step e2 = Some 5 /\
      solved_issues (updateErrorState now2 (updateErrorState now1 ctx out 2) out 5) =
        solved_issues ctx.
Proof.
  cbv zeta. eexists. split; [reflexivity|]. split; [vm_compute; reflexivity|].
  apply (updateErrorState_persisting_error "2025-01-01T00:00:00.000Z"
           "2025-01-01T00:05:00.000Z" AgentScenarios.empty_context
           AgentScenarios.first_error 2 5).
  - reflexivity.
  - vm_compute; reflexivity.
Defined.

End PersistenceTheory.

Module SignatureTheory.
Import Json Agent AgentTheory.

(** The order of [Array.prototype.sort] on property names *)

Definition lt (a b : string) : Prop := String.ltb a b = true.

Lemma compare_refl (s : string) : String.compare s s = Eq.
Proof.
  induction s as [|c s IH]; simpl; [reflexivity|].
  unfold Ascii.compare. rewrite N.compare_refl. exact IH.
Qed.

Lemma lt_irrefl (a : string) : ~ lt a a.
Proof. unfold lt, String.ltb. rewrite compare_refl. discriminate. Qed.

Lemma compare_lt_trans (a b c : string) :
  String.compare a b = Lt -> String.compare b c = Lt -> String.compare a c = Lt.
Proof.
  revert b c. induction a as [|x a IH]; intros [|y b] [|z c]; simpl; try discriminate; auto.
  unfold Ascii.compare.
  destruct (N.compare_spec (N_of_ascii x) (N_of_ascii y)) as [Hxy|Hxy|Hxy]; try discriminate;
    destruct (N.compare_spec (N_of_ascii y) (N_of_ascii z)) as [Hyz|Hyz|Hyz]; try discriminate;
    intros H1 H2.
  - rewrite Hxy, Hyz, N.compare_refl. eapply IH; eassumption.
  - rewrite Hxy. apply N.compare_lt_iff in Hyz. rewrite Hyz. reflexivity.
  - rewrite <- Hyz. apply N.compare_lt_iff in Hxy. rewrite Hxy. reflexivity.
  - assert (H : (N_of_ascii x < N_of_ascii z)%N) by lia.
    apply N.compare_lt_iff in H. rewrite H. reflexivity.
Qed.

Lemma lt_trans (a b c : string) : lt a b -> lt b c -> lt a c.
Proof.
  unfold lt, String.ltb. intros H1 H2.
  destruct (String.compare a b) eqn:Hab; try discriminate.
  destruct (String.compare b c) eqn:Hbc; try discriminate.
  rewrite (compare_lt_trans a b c Hab Hbc). reflexivity.
Qed.

Lemma lt_total (a b : string) :
  String.ltb a b = false -> String.eqb a b = false -> lt b a.
Proof.
  unfold lt, String.ltb. intros Hlt Hne. rewrite String.compare_antisym.
  destruct (String.compare a b) eqn:Hab; try discriminate; [|reflexivity].
  apply String.compare_eq_iff in Hab. subst b. rewrite String.eqb_refl in Hne. discriminate.
Qed.

Lemma elem_of_insert_sorted (x k : string) (l : list string) :
  x ∈ insert_sorted k l <-> x = k \/ x ∈ l.
Proof.
  induction l as [|k' l IH]; simpl.
  - rewrite list_elem_of_singleton. split; [auto|]. intros [H|H]; [exact H | inversion H].
  - destruct (String.ltb k k'); [rewrite !elem_of_cons; tauto|].
    destruct (String.eqb_spec k k') as [->|Hne].
    + rewrite elem_of_cons. tauto.
    + rewrite !elem_of_cons, IH. tauto.
Qed.

Lemma sorted_insert_sorted (k : string) (l : list string) :
  StronglySorted lt l -> StronglySorted lt (insert_sorted k l).
Proof.
  induction 1 as [|k' l Hs IH Hk']; simpl; [repeat constructor|].
  destruct (String.ltb k k') eqn:Hlt.
  - constructor; [constructor; assumption|].
    constructor; [exact Hlt|].
    eapply Forall_impl; [exact Hk'|]. intros x Hx. eapply lt_trans; [exact Hlt | exact Hx].
  - destruct (String.eqb k k') eqn:Heq; [constructor; assumption|].
    constructor; [exact IH|].
    rewrite Forall_forall. intros x Hx. apply elem_of_insert_sorted in Hx as [->|Hx].
    + apply lt_total; assumption.
    + rewrite Forall_forall in Hk'. auto.
Qed.

Lemma sorted_sorted_keys (props : list (string * value)) :
  StronglySorted lt (sorted_keys props).
Proof.
  unfold sorted_keys. induction (map fst props) as [|k ks IH]; simpl; [constructor|].
  apply sorted_insert_sorted, IH.
Qed.

Lemma elem_of_sorted_keys (x : string) (props : list (string * value)) :
  x ∈ sorted_keys props <-> x ∈ map fst props.
Proof.
  unfold sorted_keys. induction (map fst props) as [|k ks IH]; simpl; [reflexivity|].
  rewrite elem_of_insert_sorted, elem_of_cons, IH. reflexivity.
Qed.

Lemma sorted_unique (l1 l2 : list string) :
  StronglySorted lt l1 -> StronglySorted lt l2 ->
  (forall x, x ∈ l1 <-> x ∈ l2) -> l1 = l2.
Proof.
  intros H1. revert l2. induction H1 as [|a l1 Hs1 IH Ha]; intros l2 H2 Hel.
  - destruct l2 as [|b l2]; [reflexivity|].
    exfalso. assert (H : b ∈ []) by (apply Hel; left). inversion H.
  - destruct H2 as [|b l2 Hs2 Hb].
    { exfalso. assert (H : a ∈ []) by (apply Hel; left). inversion H. }
    rewrite Forall_forall in Ha, Hb.
    assert (Hab : a = b).
    { assert (Hin1 : a ∈ b :: l2) by (apply Hel; left).
      assert (Hin2 : b ∈ a :: l1) by (apply Hel; left).
      apply elem_of_cons in Hin1 as [?|Hin1]; [assumption|].
      apply elem_of_cons in Hin2 as [?|Hin2]; [congruence|].
      exfalso. apply (lt_irrefl a). eapply lt_trans; [apply Ha, Hin2 | apply Hb, Hin1]. }
    subst b. f_equal. apply IH; [exact Hs2|].
    intros x. split; intros Hx.
    + assert (H : x ∈ a :: l2) by (apply Hel; right; exact Hx).
      apply elem_of_cons in H as [->|H]; [|exact H].
      exfalso. apply (lt_irrefl a), Ha, Hx.
    + assert (H : x ∈ a :: l1) by (apply Hel; right; exact Hx).
      apply elem_of_cons in H as [->|H]; [|exact H].
      exfalso. apply (lt_irrefl a), Hb, Hx.
Qed.

(** Property lists with distinct names *)

Lemma assoc_None {A} (k : string) (props : list (string * A)) :
  assoc k props = None <-> k ∉ map fst props.
Proof.
  induction props as [|[k' v] props IH]; simpl.
  - split; [intros _ H; inversion H | reflexivity].
  - rewrite not_elem_of_cons. destruct (String.eqb_spec k' k) as [->|Hne].
    + split; [discriminate | tauto].
    + rewrite IH. split; [intros H; split; [congruence | exact H] | tauto].
Qed.

Lemma assoc_Some {A} (k : string) (v : A) (props : list (string * A)) :
  NoDup (map fst props) -> (assoc k props = Some v <-> (k, v) ∈ props).
Proof.
  induction props as [|[k' v'] props IH]; simpl; intros Hnd.
  - split; [discriminate | intros H; inversion H].
  - apply NoDup_cons in Hnd as [Hni Hnd]. rewrite elem_of_cons.
    destruct (String.eqb_spec k' k) as [->|Hne].
    + split; [intros [= ->]; left; reflexivity|].
      intros [[= ->]|Hin]; [reflexivity|].
      exfalso. apply Hni. apply (list_elem_of_fmap_2 fst) in Hin. exact Hin.
    + rewrite IH by exact Hnd. split; [tauto|]. intros [[= -> ->]|H]; [contradiction | exact H].
Qed.

Lemma assoc_perm {A} (k : string) (props1 props2 : list (string * A)) :
  NoDup (map fst props1) -> props1 ≡ₚ props2 -> assoc k props1 = assoc k props2.
Proof.
  intros Hnd Hp.
  assert (Hnd2 : NoDup (map fst props2)).
  { rewrite <- (fmap_Permutation fst _ _ Hp). exact Hnd. }
  destruct (assoc k props1) as [v|] eqn:H1.
  - symmetry. apply assoc_Some; [exact Hnd2|]. rewrite <- Hp. apply assoc_Some; assumption.
  - symmetry. apply assoc_None. rewrite <- (fmap_Permutation fst _ _ Hp).
    apply assoc_None, H1.
Qed.

Lemma keys_set_prop (k : string) (v : value) (props : list (string * value)) :
  k ∈ map fst props -> map fst (set_prop k v props) = map fst props.
Proof.
  induction props as [|[k' v'] props IH]; simpl; [intros H; inversion H|].
  destruct (String.eqb_spec k' k) as [->|Hne]; [reflexivity|].
  intros H. apply elem_of_cons in H as [->|H]; [contradiction|].
  simpl. rewrite IH by exact H. reflexivity.
Qed.

Lemma assoc_set_prop (k k' : string) (v : value) (props : list (string * value)) :
  assoc k' (set_prop k v props) = if String.eqb k k' then Some v else assoc k' props.
Proof.
  induction props as [|[k0 v0] props IH]; simpl.
  - reflexivity.
  - destruct (String.eqb_spec k0 k) as [->|Hne]; simpl.
    + destruct (String.eqb k k'); reflexivity.
    + rewrite IH. destruct (String.eqb_spec k0 k') as [->|Hne'].
      * destruct (String.eqb_spec k k'); [congruence | reflexivity].
      * reflexivity.
Qed.

(** Two property lists read the same through [assoc]. *)
Definition same_object (props1 props2 : list (string * value)) : Prop :=
  (forall k, assoc k props1 = assoc k props2) /\
  (forall k, k ∈ map fst props1 <-> k ∈ map fst props2).

Lemma same_object_perm (props1 props2 : list (string * value)) :
  NoDup (map fst props1) -> props1 ≡ₚ props2 -> same_object props1 props2.
Proof.
  intros Hnd Hp. split.
  - intros k. apply assoc_perm; assumption.
  - intros k. rewrite (fmap_Permutation fst _ _ Hp). reflexivity.
Qed.

Lemma elem_of_keys_assoc {A} (k : string) (props : list (string * A)) :
  k ∈ map fst props <-> is_Some (assoc k props).
Proof.
  destruct (assoc k props) as [v|] eqn:H.
  - split; [intros _; eexists; reflexivity|]. intros _.
    destruct (decide (k ∈ map fst props)) as [Hin|Hin]; [exact Hin|].
    apply assoc_None in Hin. congruence.
  - apply assoc_None in H. split; [contradiction | intros [v Hv]; discriminate].
Qed.

Lemma same_object_set_prop (k : string) (v : value) (props1 props2 : list (string * value)) :
  same_object props1 props2 -> same_object (set_prop k v props1) (set_prop k v props2).
Proof.
  intros [Ha Hk]. split.
  - intros k'. rewrite !assoc_set_prop, Ha. reflexivity.
  - intros k'. rewrite !elem_of_keys_assoc, !assoc_set_prop, Ha. reflexivity.
Qed.

Lemma normalize_path_same (w : World) (k : string) (props1 props2 : list (string * value)) :
  same_object props1 props2 ->
  match normalize_path w k props1, normalize_path w k props2 with
  | Returned q1, Returned q2 => same_object q1 q2
  | Thrown e1, Thrown e2 => e1 = e2
  | _, _ => False
  end.
Proof.
  intros Hs. unfold normalize_path. rewrite (proj1 Hs k).
  destruct (truthy (default VUndefined (assoc k props2))); [|exact Hs].
  destruct (default VUndefined (assoc k props2)); try reflexivity.
  apply same_object_set_prop, Hs.
Qed.

Lemma sorted_keys_same (props1 props2 : list (string * value)) :
  same_object props1 props2 -> sorted_keys props1 = sorted_keys props2.
Proof.
  intros [_ Hk]. apply sorted_unique; try apply sorted_sorted_keys.
  intros x. rewrite !elem_of_sorted_keys. apply Hk.
Qed.

Lemma assoc_map_snd {A B} (f : A -> B) (k : string) (props : list (string * A)) :
  assoc k (map (fun kv => (fst kv, f (snd kv))) props) = option_map f (assoc k props).
Proof.
  induction props as [|[k' v] props IH]; simpl; [reflexivity|].
  destruct (String.eqb k' k); [reflexivity | exact IH].
Qed.

Lemma select_ext {A} (sel : list string) (done1 done2 : list (string * option A)) :
  (forall k, assoc k done1 = assoc k done2) -> select sel done1 = select sel done2.
Proof.
  intros H. unfold select. induction sel as [|k sel IH]; [reflexivity|].
  cbn [omap list_omap]. rewrite H.
  destruct (assoc k done2) as [[x|]|]; [f_equal|..]; exact IH.
Qed.

Lemma stringify_same (ks : list string) (props1 props2 : list (string * value)) :
  same_object props1 props2 ->
  stringify (Some ks) (VObj props1) = stringify (Some ks) (VObj props2).
Proof.
  intros [Ha _]. cbn [stringify].
  rewrite (select_ext ks
             (map (fun kv => (fst kv, stringify (Some ks) (snd kv))) props1)
             (map (fun kv => (fst kv, stringify (Some ks) (snd kv))) props2)).
  - reflexivity.
  - intros k. rewrite !assoc_map_snd, Ha. reflexivity.
Qed.

(** X10.  The action signature does not depend on the order in which the
    parameter object lists its properties. *)
Theorem createActionSignature_ignores_order (w : World) (toolName : string)
    (props1 props2 : list (string * value)) :
  NoDup (map fst props1) ->
  props1 ≡ₚ props2 ->
  createActionSignature w toolName (VObj props1) =
  createActionSignature w toolName (VObj props2).
Proof.
  intros Hnd Hp. unfold createActionSignature. cbn [spread].
  pose proof (normalize_path_same w "file_path" props1 props2
                (same_object_perm _ _ Hnd Hp)) as H1.
  destruct (normalize_path w "file_path" props1) as [q1|e1],
           (normalize_path w "file_path" props2) as [q2|e2]; try contradiction;
    cbn [cbind]; [|congruence].
  pose proof (normalize_path_same w "directory_path" q1 q2 H1) as H2.
  destruct (normalize_path w "directory_path" q1) as [r1|e1],
           (normalize_path w "directory_path" q2) as [r2|e2]; try contradiction;
    cbn [cbind]; [|congruence].
  rewrite (sorted_keys_same r1 r2 H2), (stringify_same _ r1 r2 H2). reflexivity.
Qed.


(** X10, witness: [file_path] and [start_line] in both orders. *)
Lemma createActionSignature_ignores_order_witness :
  NoDup (map fst [("file_path", VStr "etl.py"); ("start_line", VNum 10)]) /\
  [("file_path", VStr "etl.py"); ("start_line", VNum 10)] ≡ₚ
  [("start_line", VNum 10); ("file_path", VStr "etl.py")] /\
  createActionSignature (AgentScenarios.world_with [] "" true) "read_file_content"
    (VObj [("file_path", VStr "etl.py"); ("start_line", VNum 10)]) =
  createActionSignature (AgentScenarios.world_with [] "" true) "read_file_content"
    (VObj [("start_line", VNum 10); ("file_path", VStr "etl.py")]).
Proof.
  assert (Hnd : NoDup (map fst [("file_path", VStr "etl.py"); ("start_line", VNum 10)])).
  { apply (bool_decide_unpack _). reflexivity. }
  split; [exact Hnd|]. split; [apply Permutation_swap|].
  apply (createActionSignature_ignores_order (AgentScenarios.world_with [] "" true)
           "read_file_content"
           [("file_path", VStr "etl.py"); ("start_line", VNum 10)]
           [("start_line", VNum 10); ("file_path", VStr "etl.py")] Hnd).
  apply Permutation_swap.
Defined.

(** Nested objects under the array replacer *)

Lemma select_none {A} (sel : list string) (done : list (string * option A)) :
  (forall k, k ∈ sel -> assoc k done = None) -> select sel done = [].
Proof.
  intros H. unfold select. induction sel as [|k sel IH]; [reflexivity|].
  cbn [omap list_omap]. rewrite (H k) by left.
  apply IH. intros x Hx. apply H. right. exact Hx.
Qed.

Lemma stringify_filtered_out (ks : list string) (inner : list (string * value)) :
  (forall k, k ∈ ks -> assoc k inner = None) ->
  stringify (Some ks) (VObj inner) = Some "{}".
Proof.
  intros H. cbn [stringify]. rewrite select_none; [reflexivity|].
  intros k Hk. rewrite assoc_map_snd, (H k Hk). reflexivity.
Qed.

Lemma stringify_cons (ks : list string) (k : string) (v : value)
    (rest : list (string * value)) :
  stringify (Some ks) (VObj ((k, v) :: rest)) =
  Some ("{" +:+
        JS.join ","
          (map (fun ks => quote (fst ks) +:+ ":" +:+ snd ks)
             (select ks
                ((k, stringify (Some ks) v) ::
                 map (fun kv => (fst kv, stringify (Some ks) (snd kv))) rest)))
        +:+ "}").
Proof. reflexivity. Qed.

Lemma normalize_path_under (w : World) (k p : string) (x : value)
    (rest : list (string * value)) :
  p <> k ->
  normalize_path w p ((k, x) :: rest) =
  match normalize_path w p rest with
  | Returned rest' =>
      if truthy (default VUndefined (assoc p rest)) then Returned ((k, x) :: rest')
      else Returned ((k, x) :: rest)
  | Thrown e => Thrown e
  end.
Proof.
  intros Hne. unfold normalize_path. cbn [assoc set_prop].
  destruct (String.eqb_spec k p) as [->|_]; [contradiction|].
  destruct (default VUndefined (assoc p rest)) as [| |b|n|s|items|props];
    cbn [truthy]; try reflexivity;
    [destruct b | destruct (Z.eqb n 0) | destruct (String.eqb s "")]; reflexivity.
Qed.

Lemma normalize_path_keys (w : World) (p : string) (props props' : list (string * value)) :
  normalize_path w p props = Returned props' -> map fst props' = map fst props.
Proof.
  unfold normalize_path.
  destruct (assoc p props) as [v|] eqn:Ha; simpl.
  - destruct (truthy v); [|intros [= <-]; reflexivity].
    destruct v; try discriminate. intros [= <-]. apply keys_set_prop.
    apply elem_of_keys_assoc. rewrite Ha. eexists; reflexivity.
  - intros [= <-]. reflexivity.
Qed.

(** X11.  The sorted top-level names are the replacer of [JSON.stringify] at
    every depth, so an object-valued parameter whose own property names are
    not top-level names is written as an empty object: two parameter objects
    that differ only inside such a parameter have the same signature. *)
Theorem createActionSignature_ignores_nested (w : World) (toolName k : string)
    (inner1 inner2 rest : list (string * value)) :
  k <> "file_path" -> k <> "directory_path" ->
  (forall x, x ∈ k :: map fst rest -> assoc x inner1 = None /\ assoc x inner2 = None) ->
  createActionSignature w toolName (VObj ((k, VObj inner1) :: rest)) =
  createActionSignature w toolName (VObj ((k, VObj inner2) :: rest)).
Proof.
  intros Hf Hd Hinner. unfold createActionSignature. cbn [spread].
  assert (Hshape : forall inner,
    (forall x, x ∈ k :: map fst rest -> assoc x inner = None) ->
    (try! keyParams1 <- normalize_path w "file_path" ((k, VObj inner) :: rest);
     try! keyParams2 <- normalize_path w "directory_path" keyParams1;
     Returned (toolName +:+ ":" +:+
               template (stringify (Some (sorted_keys keyParams2)) (VObj keyParams2)))) =
    (try! rest1 <- normalize_path w "file_path" rest;
     try! rest2 <- normalize_path w "directory_path" rest1;
     let ks := sorted_keys ((k, VNull) :: rest2) in
     Returned (toolName +:+ ":" +:+
               template (stringify (Some ks) (VObj ((k, VObj []) :: rest2)))))).
  { intros inner Hin.
    rewrite (normalize_path_under w k "file_path") by congruence.
    destruct (normalize_path w "file_path" rest) as [rest1|e] eqn:H1; cbn [cbind];
      [|reflexivity].
    assert (Hrest1 : (if truthy (default VUndefined (assoc "file_path" rest))
                      then Returned ((k, VObj inner) :: rest1)
                      else Returned ((k, VObj inner) :: rest)) =
                     Returned ((k, VObj inner) :: rest1)).
    { destruct (truthy (default VUndefined (assoc "file_path" rest))) eqn:Ht; [reflexivity|].
      unfold normalize_path in H1. rewrite Ht in H1. congruence. }
    rewrite Hrest1. cbn [cbind].
    rewrite (normalize_path_under w k "directory_path") by congruence.
    destruct (normalize_path w "directory_path" rest1) as [rest2|e] eqn:H2; cbn [cbind];
      [|destruct (truthy _); reflexivity || (unfold normalize_path in H2;
          destruct (truthy (default VUndefined (assoc "directory_path" rest1)));
          [reflexivity | discriminate])].
    assert (Hrest2 : (if truthy (default VUndefined (assoc "directory_path" rest1))
                      then Returned ((k, VObj inner) :: rest2)
                      else Returned ((k, VObj inner) :: rest1)) =
                     Returned ((k, VObj inner) :: rest2)).
    { destruct (truthy (default VUndefined (assoc "directory_path" rest1))) eqn:Ht;
        [reflexivity|].
      unfold normalize_path in H2. rewrite Ht in H2. congruence. }
    rewrite Hrest2. cbn [cbind]. cbv zeta.
    assert (Hkeys : map fst rest2 = map fst rest).
    { rewrite (normalize_path_keys _ _ _ _ H2). apply (normalize_path_keys _ _ _ _ H1). }
    change (sorted_keys ((k, VObj inner) :: rest2)) with (sorted_keys ((k, VNull) :: rest2)).
    set (ks := sorted_keys ((k, VNull) :: rest2)).
    assert (Hks : forall x, x ∈ ks -> x ∈ k :: map fst rest).
    { intros x Hx. apply elem_of_sorted_keys in Hx. simpl in Hx. rewrite Hkeys in Hx.
      exact Hx. }
    rewrite !stringify_cons.
    rewrite (stringify_filtered_out ks inner) by (intros x Hx; apply Hin, Hks, Hx).
    rewrite (stringify_filtered_out ks []) by reflexivity.
    reflexivity. }
  rewrite (Hshape inner1) by (intros x Hx; apply (Hinner x Hx)).
  rewrite (Hshape inner2) by (intros x Hx; apply (Hinner x Hx)).
  reflexivity.
Qed.


(** X11, witness: two different patches of the same file with the same
    description. *)
Lemma createActionSignature_ignores_nested_witness :
  let rest := [("file_path", VStr "etl.py"); ("patch_description", VStr "rename the column")] in
  let first := [("changes", VArr [VObj [("line_number", VNum 12);
                                        ("new_content", VStr "df['order_id']")]])] in
  let second := [("changes", VArr [VObj [("line_number", VNum 40);
                                         ("new_content", VStr "df['customer']")]])] in
  "patch_content" <> "file_path" /\ "patch_content" <> "directory_path" /\
  (forall x, x ∈ "patch_content" :: map fst rest ->
             assoc x first = None /\ assoc x second = None) /\
  createActionSignature (AgentScenarios.world_with [] "" true) "propose_code_patch"
    (VObj (("patch_content", VObj first) :: rest)) =
  createActionSignature (AgentScenarios.world_with [] "" true) "propose_code_patch"
    (VObj (("patch_content", VObj second) :: rest)).
Proof.
  cbv zeta.
  assert (Hnested : forall x,
            x ∈ "patch_content" ::
                map fst [("file_path", VStr "etl.py");
                         ("patch_description", VStr "rename the column")] ->
            assoc x [("changes", VArr [VObj [("line_number", VNum 12);
                                             ("new_content", VStr "df['order_id']")]])] = None /\
            assoc x [("changes", VArr [VObj [("line_number", VNum 40);
                                             ("new_content", VStr "df['customer']")]])] = None).
  { intros x Hx. simpl in Hx.
    repeat (apply elem_of_cons in Hx as [->|Hx]; [split; reflexivity|]). inversion Hx. }
  split; [discriminate|]. split; [discriminate|]. split; [exact Hnested|].
  apply (createActionSignature_ignores_nested (AgentScenarios.world_with [] "" true)
           "propose_code_patch" "patch_content" _ _ _); [discriminate | discriminate | exact Hnested].
Defined.

End SignatureTheory.

Module DispatchTheory.
Import Json Agent AgentTheory.

(** X12.  For a tool name that is not inherited from [Object.prototype] and
    parameters whose signature can be computed, the dispatcher answers with
    the status [skipped] exactly when a recent action has the same signature
    and a step number greater than the length of the history minus 3. *)
Theorem skipped_exactly_when_repeated (w : World) (name : string) (params : value)
    (ctx : context) (sig : string) :
  createActionSignature w name params = Returned sig ->
  JS.mem name object_prototype_names = false ->
  exists r,
    executeAgentTool (toolFunctions_seeded w) w name params ctx = Returned r /\
    (obj_status r = Some "skipped" <->
     exists a, In a (recent_actions ctx) /\ signature a = sig /\
               history_length ctx - 3 < action_step a).
Proof.
  intros Hsig Hproto.
  rewrite (executeAgentTool_gate _ w name params ctx sig Hsig).
  unfold recent_duplicate.
  destruct (List.find (is_recent_duplicate ctx sig) (recent_actions ctx)) as [d|] eqn:Hfind.
  - eexists. split; [reflexivity|]. split; [intros _|reflexivity].
    apply find_some in Hfind as [Hd Hdup]. exists d.
    unfold is_recent_duplicate in Hdup. apply andb_true_iff in Hdup as [Hs Hw].
    apply String.eqb_eq in Hs. apply Z.ltb_lt in Hw. unfold recentSteps in Hw. auto.
  - assert (Hnone : ~ exists a, In a (recent_actions ctx) /\ signature a = sig /\
                                history_length ctx - 3 < action_step a).
    { intros (a & Hin & Ha & Hwin). apply (find_none _ _ Hfind) in Hin.
      unfold is_recent_duplicate in Hin. rewrite Ha, String.eqb_refl in Hin. simpl in Hin.
      apply Z.ltb_ge in Hin. unfold recentSteps in Hin. lia. }
    assert (Hother : forall r, has_status tool_statuses r ->
                               (obj_status r = Some "skipped" <->
                                exists a, In a (recent_actions ctx) /\ signature a = sig /\
                                          history_length ctx - 3 < action_step a)).
    { intros r (st & Hst & Hin). split; [|intros H; contradiction].
      rewrite Hst. intros [= ->]. simpl in Hin. exfalso.
      destruct Hin as [H|[H|[H|[]]]]; discriminate H. }
    unfold lookup_tool. rewrite Hproto.
    destruct (assoc name (toolFunctions_seeded w)) as [f|] eqn:Hf.
    + pose proof (toolFunctions_seeded_status w name f Hf) as Hok.
      destruct (f params ctx) as [r|e] eqn:Hr; simpl.
      * exists r. split; [reflexivity|]. apply Hother. eapply Hok, Hr.
      * eexists. split; [reflexivity|]. apply Hother, status_error.
    + eexists. split; [reflexivity|]. apply Hother, status_error.
Qed.

(** X12, witness: a first read on an empty session. *)
Lemma skipped_exactly_when_repeated_witness :
  exists sig,
    createActionSignature (AgentScenarios.world_with [] "" true) "read_file_content"
      AgentScenarios.missing_file_params = Returned sig /\
    JS.mem "read_file_content" object_prototype_names = false /\
    exists r,
      executeAgentTool (toolFunctions_seeded (AgentScenarios.world_with [] "" true))
        (AgentScenarios.world_with [] "" true) "read_file_content"
        AgentScenarios.missing_file_params AgentScenarios.empty_context = Returned r /\
      (obj_status r = Some "skipped" <->
       exists a, In a (recent_actions AgentScenarios.empty_context) /\ signature a = sig /\
                 history_length AgentScenarios.empty_context - 3 < action_step a).
Proof.
  eexists. split; [vm_compute; reflexivity|]. split; [reflexivity|].
  apply (skipped_exactly_when_repeated (AgentScenarios.world_with [] "" true)
           "read_file_content" AgentScenarios.missing_file_params
           AgentScenarios.empty_context).
  - vm_compute; reflexivity.
  - reflexivity.
Defined.

End DispatchTheory.

Module ReadTheory.
Import Json Agent AgentTheory.

Definition read_action (params : value) : action :=
  {| tool_used := Some READ_FILE_CONTENT; tool_to_use := Some READ_FILE_CONTENT;
     parameters := Some params; tool_parameters := None |}.

Lemma resolveFileWithState_no_state (w : World) (fp : string) (ctx : context) :
  file_state ctx = None -> resolveFileWithState w fp ctx = ResolvedPath fp.
Proof. intros H. unfold resolveFileWithState. rewrite H. reflexivity. Qed.

(** A successful answer of [read_file_content] names the file by the
    relative form of the resolved path. *)
Lemma read_success_names_relative_path (w : World) (params : value) (ctx : context)
    (fp : string) (r : value) :
  get params "file_path" = VStr fp ->
  file_state ctx = None ->
  read_file_content w params ctx = Returned r ->
  get r "status" = VStr "success" ->
  get r "file_path" =
    VStr (path_relative w (cwd_or_dot ctx) (path_resolve w (cwd_or_dot ctx) fp)).
Proof.
  intros Hfp Hfs. unfold read_file_content, read_file_body.
  assert (Hdes : destructure params "file_path" = Returned (VStr fp)).
  { destruct params; simpl in Hfp |- *; try discriminate. rewrite Hfp. reflexivity. }
  rewrite Hdes. cbn [cbind]. rewrite (resolveFileWithState_no_state w fp ctx Hfs).
  set (rel := path_relative w (cwd_or_dot ctx) (path_resolve w (cwd_or_dot ctx) fp)).
  destruct (cached_read ctx params (VStr fp) rel) as [c|] eqn:Hc.
  { unfold cached_read in Hc.
    destruct (cache_test ctx params (VStr fp) rel) as [[entry lastRead]|]; [|discriminate].
    cbn [option_map fst snd] in Hc. injection Hc as <-. unfold cached_answer.
    destruct entry as [v| |]; try (intros [= <-]; discriminate).
    destruct v; try (intros [= <-]; discriminate).
    intros [= <-] _. reflexivity. }
  destruct (negb (existsSync w _)).
  { intros [= <-]. discriminate. }
  destruct (truthy (get params "start_line") || truthy (get params "end_line")).
  - destruct (readFileContext w _ _ _) as [[[text a] b]|e]; cbn [cbind catching].
    + intros [= <-] _. reflexivity.
    + intros [= <-]. discriminate.
  - destruct (readFile w _) as [text|e]; cbn [cbind catching].
    + intros [= <-] _. reflexivity.
    + intros [= <-]. discriminate.
Qed.

(** X17.  After a successful full read of a file has been recorded by
    [updateAgentContext] at a step no more than two behind the history, and
    with no file state set, the same read on the updated context is served
    from [files_read]: status [success], the content of the first read,
    [cached] true, whatever the disk holds by then.  The relative path of
    the file is any but [__proto__], a name under which the assignment to
    [files_read] stores nothing. *)
Theorem read_again_is_served_from_memory (w w2 : World) (ctx ctx1 : context)
    (params r : value) (fp text thought : string) (stepNo : Z) :
  get params "file_path" = VStr fp ->
  truthy (get params "start_line") = false ->
  truthy (get params "end_line") = false ->
  file_state ctx = None ->
  path_relative w (cwd_or_dot ctx) (path_resolve w (cwd_or_dot ctx) fp) <> "__proto__" ->
  read_file_content w params ctx = Returned r ->
  get r "status" = VStr "success" ->
  get r "content" = VStr text -> text <> "" ->
  updateAgentContext w ctx stepNo thought (read_action params) r = Returned ctx1 ->
  history_length ctx - 2 < stepNo ->
  (forall a b, path_resolve w2 a b = path_resolve w a b) ->
  (forall a b, path_relative w2 a b = path_relative w a b) ->
  exists r2,
    read_file_content w2 params ctx1 = Returned r2 /\
    get r2 "status" = VStr "success" /\
    get r2 "content" = VStr text /\
    get r2 "cached" = VBool true /\
    get r2 "note" = VStr ("Using cached content from step " +:+ pretty stepNo).
Proof.
  intros Hfp Hs He Hfs Hproto Hread Hst Hcontent Hne Hupd Hwin Hres Hrel.
  pose proof (read_success_names_relative_path w params ctx fp r Hfp Hfs Hread Hst) as Hpath.
  set (rel := path_relative w (cwd_or_dot ctx) (path_resolve w (cwd_or_dot ctx) fp)) in *.
  assert (Htruthy : truthy (get r "content") = true).
  { rewrite Hcontent. simpl. apply String.eqb_neq in Hne. rewrite Hne. reflexivity. }
  pose proof (SessionTheory.updateAgentContext_effect w ctx ctx1 stepNo thought
                (read_action params) r Hupd) as [Hh1 _].
  set (s := {| step_no := stepNo; thought := thought;
               action_taken := read_action params; step_result := r |}) in Hh1.
  assert (Hrest : files_read ctx1 = <[rel := VStr text]> (files_read ctx) /\
                  current_working_directory ctx1 = current_working_directory ctx /\
                  file_state ctx1 = file_state ctx).
  { assert (Hnn : r <> VNull /\ r <> VUndefined).
    { split; intros ->; discriminate. }
    destruct Hnn as [Hnull Hundef].
    rewrite (SessionTheory.updateAgentContext_defined w ctx stepNo thought
               (read_action params) r Hnull Hundef) in Hupd.
    destruct (createActionSignature w (template (action_tool (read_action params)))
                (default VUndefined (parameters (read_action params)))) as [sig|e];
      [|discriminate].
    cbn [cbind] in Hupd. cbv zeta in Hupd. injection Hupd as <-.
    cbn [with_files_read with_recent with_history files_read current_working_directory
         file_state].
    split; [|split; reflexivity].
    unfold SessionTheory.files_after. rewrite Hst, Hpath, Htruthy, Hcontent.
    change (strict_eq (VStr "success") (VStr "success") &&
            is_tool READ_FILE_CONTENT (read_action params) && true) with true.
    cbv iota. unfold write_property.
    apply String.eqb_neq in Hproto. rewrite Hproto.
    destruct (files_read ctx !! rel); reflexivity. }
  destruct Hrest as (Hf1 & Hcwd1 & Hfs1).
  assert (Hcwd : cwd_or_dot ctx1 = cwd_or_dot ctx).
  { unfold cwd_or_dot. rewrite Hcwd1. reflexivity. }
  rewrite Hfs in Hfs1.
  unfold read_file_content, read_file_body.
  assert (Hdes : destructure params "file_path" = Returned (VStr fp)).
  { destruct params; simpl in Hfp |- *; try discriminate. rewrite Hfp. reflexivity. }
  rewrite Hdes. cbn [cbind]. rewrite (resolveFileWithState_no_state w2 fp ctx1 Hfs1).
  assert (Hp : path_relative w2 (cwd_or_dot ctx1) (path_resolve w2 (cwd_or_dot ctx1) fp) = rel).
  { rewrite Hcwd, Hres, Hrel. reflexivity. }
  rewrite Hp.
  assert (Hcached : cached_read ctx1 params (VStr fp) rel =
            Some (Returned
                    (VObj [("status", VStr "success");
                           ("file_path", VStr rel);
                           ("content", VStr text);
                           ("note", VStr ("Using cached content from step " +:+ pretty stepNo));
                           ("cached", VBool true);
                           ("lines_read", VArr [VNum 1; VNum (line_count text)]);
                           ("total_lines", VNum (line_count text))]))).
  { unfold cached_read, cache_test, read_property. rewrite Hs, He. cbn [negb andb].
    assert (Hlook : files_read ctx1 !! rel = Some (VStr text)).
    { rewrite Hf1. apply lookup_insert_eq. }
    rewrite Hlook. cbn [property_truthy truthy].
    apply String.eqb_neq in Hne. rewrite Hne. cbn [negb].
    assert (Hlast : last_read ctx1 (VStr fp) = Some s).
    { apply (last_read_found ctx1 (VStr fp) (session_history ctx) [] s).
      - exact Hh1.
      - unfold is_read_of, recorded_file_path. cbn [s action_taken read_action parameters].
        rewrite Hfp. cbn [strict_eq]. rewrite String.eqb_refl. reflexivity.
      - reflexivity. }
    rewrite Hlast. cbn [s step_no].
    assert (Hw : Z.ltb (history_length ctx1 - stepNo) 3 = true).
    { apply Z.ltb_lt. unfold history_length. rewrite Hh1, length_app. simpl.
      unfold history_length in Hwin. lia. }
    rewrite Hw. reflexivity. }
  rewrite Hcached. eexists. split; [reflexivity|]. repeat split; reflexivity.
Qed.


(** X17, witness: [etl.py] read at step 1 and again after it was deleted. *)
Lemma read_again_is_served_from_memory_witness :
  let w := AgentScenarios.world_with [("/home/u/proj/etl.py", "print(1)")] "" true in
  let w2 := AgentScenarios.world_with [] "" true in
  let ctx := AgentScenarios.empty_context in
  let params := AgentScenarios.cached_file_params in
  exists r ctx1,
    get params "file_path" = VStr "etl.py" /\
    truthy (get params "start_line") = false /\
    truthy (get params "end_line") = false /\
    file_state ctx = None /\
    path_relative w (cwd_or_dot ctx) (path_resolve w (cwd_or_dot ctx) "etl.py") <> "__proto__" /\
    read_file_content w params ctx = Returned r /\
    get r "status" = VStr "success" /\
    get r "content" = VStr "print(1)" /\ "print(1)" <> "" /\
    updateAgentContext w ctx 1 "look at the script" (read_action params) r = Returned ctx1 /\
    history_length ctx - 2 < 1 /\
    (forall a b, path_resolve w2 a b = path_resolve w a b) /\
    (forall a b, path_relative w2 a b = path_relative w a b) /\
    exists r2,
      read_file_content w2 params ctx1 = Returned r2 /\
      get r2 "status" = VStr "success" /\
      get r2 "content" = VStr "print(1)" /\
      get r2 "cached" = VBool true /\
      get r2 "note" = VStr ("Using cached content from step " +:+ pretty 1).
Proof.
  cbv zeta. eexists _, _.
  split; [reflexivity|]. split; [reflexivity|]. split; [reflexivity|].
  split; [reflexivity|]. split; [vm_compute; discriminate|].
  split; [vm_compute; reflexivity|].
  split; [reflexivity|]. split; [reflexivity|]. split; [discriminate|].
  split; [vm_compute; reflexivity|]. split; [reflexivity|].
  split; [reflexivity|]. split; [reflexivity|].
  eapply (read_again_is_served_from_memory
           (AgentScenarios.world_with [("/home/u/proj/etl.py", "print(1)")] "" true)
           (AgentScenarios.world_with [] "" true)
           AgentScenarios.empty_context _ AgentScenarios.cached_file_params _
           "etl.py" "print(1)" "look at the script" 1);
    first [reflexivity | discriminate | vm_compute; reflexivity | vm_compute; discriminate].
Defined.

End ReadTheory.

Module ValidationTheory.
Import Json Agent AgentTheory Validation.

Lemma typeof_string (v : value) : typeof v = "string" -> exists s, v = VStr s.
Proof. destruct v; try discriminate. eexists; reflexivity. Qed.

Lemma includes_some_false (name : string) (x : value) (needles : list string) :
  includes_some name x needles = Returned false ->
  forall s, x = VStr s -> Forall (fun needle => JS.includes s needle = false) needles.
Proof.
  intros H s ->. induction needles as [|needle rest IH]; [constructor|].
  simpl in H. destruct (JS.includes s needle) eqn:Hi; [discriminate|].
  constructor; [exact Hi | apply IH, H].
Qed.

Lemma available_tools_dispatchable (w : World) (name : string) :
  JS.mem name availableToolNames = true ->
  exists f, lookup_tool (toolFunctions_seeded w) name = Own f.
Proof.
  unfold JS.mem, availableToolNames. intros H. apply existsb_exists in H as (x & Hx & Heq).
  apply String.eqb_eq in Heq. subst x. simpl in Hx.
  repeat (destruct Hx as [<-|Hx]; [eexists; reflexivity|]). contradiction.
Qed.

(** X21.  An action that [validateAgentAction] accepts has a string
    thought, names a tool of the dispatcher's table, has parameters of type
    object, and a string path it gives to [read_file_content] or
    [list_directory_contents] contains none of the placeholder paths. *)
Theorem validated_action_is_dispatchable (w : World) (action : value) :
  validateAgentAction action = Returned true ->
  exists thought name f,
    get action "thought" = VStr thought /\
    get action "tool_to_use" = VStr name /\
    typeof (get action "tool_parameters") = "object" /\
    lookup_tool (toolFunctions_seeded w) name = Own f /\
    (name = "read_file_content" ->
     forall path, get (get action "tool_parameters") "file_path" = VStr path ->
                  Forall (fun bad => JS.includes path bad = false) invalidPaths) /\
    (name = "list_directory_contents" ->
     forall path, get (get action "tool_parameters") "directory_path" = VStr path ->
                  JS.includes path "path/to/data" = false /\
                  JS.includes path "path/to/file" = false).
Proof.
  unfold validateAgentAction.
  destruct (negb (truthy action) || negb (String.eqb (typeof action) "object"));
    [discriminate|].
  destruct (negb (forallb (fun field => has_field field action) requiredFields));
    [discriminate|].
  destruct (String.eqb_spec (typeof (get action "thought")) "string") as [Hth|];
    [|discriminate].
  destruct (String.eqb_spec (typeof (get action "tool_to_use")) "string") as [Htool|];
    [|discriminate].
  destruct (String.eqb_spec (typeof (get action "tool_parameters")) "object") as [Hpar|];
    [|discriminate].
  cbn [negb orb].
  apply typeof_string in Hth as [thought Hth].
  apply typeof_string in Htool as [name Htool]. rewrite Htool at 1.
  destruct (JS.mem name availableToolNames) eqn:Hmem; [|discriminate]. cbn [negb].
  destruct (available_tools_dispatchable w name Hmem) as [f Hf].
  intros H. exists thought, name, f.
  do 4 (split; [assumption || reflexivity|]).
  set (params := get action "tool_parameters") in *.
  destruct (String.eqb_spec name "read_file_content") as [Hr|Hr].
  - assert (Hd : String.eqb name "list_directory_contents" = false) by (subst name; reflexivity).
    rewrite Hd in H. split; [|intros ->; discriminate Hd].
    intros _ path Hpath.
    assert (Hm : member params "file_path" = Returned (VStr path)).
    { unfold member. destruct params; try discriminate; rewrite Hpath; reflexivity. }
    rewrite Hm in H. cbn [cbind] in H.
    destruct (truthy (VStr path)) eqn:Ht.
    + destruct (includes_some "filePath" (VStr path) invalidPaths) as [[|]|] eqn:Hs;
        try discriminate.
      eapply includes_some_false; [exact Hs | reflexivity].
    + cbn [truthy] in Ht. apply negb_false_iff, String.eqb_eq in Ht. rewrite Ht.
      repeat constructor.
  - split; [intros ->; contradiction|].
    intros -> path Hpath. cbn [cbind String.eqb Ascii.eqb Bool.eqb] in H.
    assert (Hm : member params "directory_path" = Returned (VStr path)).
    { unfold member. destruct params; try discriminate; rewrite Hpath; reflexivity. }
    change (String.eqb "list_directory_contents" "list_directory_contents") with true in H.
    rewrite Hm in H. cbn [cbind] in H.
    destruct (truthy (VStr path)) eqn:Ht.
    + destruct (includes_some "dirPath" (VStr path) ["path/to/data"; "path/to/file"])
        as [[|]|] eqn:Hs; try discriminate.
      pose proof (includes_some_false _ _ _ Hs path eq_refl) as Hall.
      apply Forall_cons in Hall as [H1 Hall]. apply Forall_cons in Hall as [H2 _]. auto.
    + cbn [truthy] in Ht. apply negb_false_iff, String.eqb_eq in Ht. rewrite Ht.
      split; reflexivity.
Qed.


(** X21, witness: a read of [etl.py]. *)
Lemma validated_action_is_dispatchable_witness :
  validateAgentAction
    (VObj [("thought", VStr "read the script");
           ("tool_to_use", VStr "read_file_content");
           ("tool_parameters", VObj [("file_path", VStr "etl.py")])]) = Returned true /\
  exists thought name f,
    get (VObj [("thought", VStr "read the script");
               ("tool_to_use", VStr "read_file_content");
               ("tool_parameters", VObj [("file_path", VStr "etl.py")])]) "thought" =
      VStr thought /\
    get (VObj [("thought", VStr "read the script");
               ("tool_to_use", VStr "read_file_content");
               ("tool_parameters", VObj [("file_path", VStr "etl.py")])]) "tool_to_use" =
      VStr name /\
    typeof (get (VObj [("thought", VStr "read the script");
                       ("tool_to_use", VStr "read_file_content");
                       ("tool_parameters", VObj [("file_path", VStr "etl.py")])])
              "tool_parameters") = "object" /\
    lookup_tool (toolFunctions_seeded (AgentScenarios.world_with [] "" true)) name = Own f /\
    (name = "read_file_content" ->
     forall path,
       get (get (VObj [("thought", VStr "read the script");
                       ("tool_to_use", VStr "read_file_content");
                       ("tool_parameters", VObj [("file_path", VStr "etl.py")])])
              "tool_parameters") "file_path" = VStr path ->
       Forall (fun bad => JS.includes path bad = false) invalidPaths) /\
    (name = "list_directory_contents" ->
     forall path,
       get (get (VObj [("thought", VStr "read the script");
                       ("tool_to_use", VStr "read_file_content");
                       ("tool_parameters", VObj [("file_path", VStr "etl.py")])])
              "tool_parameters") "directory_path" = VStr path ->
       JS.includes path "path/to/data" = false /\
       JS.includes path "path/to/file" = false).
Proof.
  split; [reflexivity|].
  apply (validated_action_is_dispatchable (AgentScenarios.world_with [] "" true)
           (VObj [("thought", VStr "read the script");
                  ("tool_to_use", VStr "read_file_content");
                  ("tool_parameters", VObj [("file_path", VStr "etl.py")])])).
  reflexivity.
Defined.

(** Session summary *)

Lemma option_eqb_eq (a b : option string) : option_eqb a b = true <-> a = b.
Proof.
  destruct a as [x|], b as [y|]; simpl; try (split; [discriminate | discriminate]);
    [|tauto].
  rewrite String.eqb_eq. split; [intros ->; reflexivity | intros [= ->]; reflexivity].
Qed.

Lemma existsb_option_eqb (x : option string) (l : list (option string)) :
  existsb (option_eqb x) l = bool_decide (x ∈ l).
Proof.
  induction l as [|y l IH]; simpl; [reflexivity|].
  rewrite IH. destruct (option_eqb x y) eqn:Heq; simpl.
  - apply option_eqb_eq in Heq. subst y. symmetry. apply bool_decide_eq_true. left.
  - apply bool_decide_ext. rewrite elem_of_cons. split; [tauto|].
    intros [->|H]; [|exact H]. exfalso.
    assert (Ht : option_eqb y y = true) by (apply option_eqb_eq; reflexivity). congruence.
Qed.

Lemma elem_of_uniq_tools (seen l : list (option string)) (x : option string) :
  x ∈ JS.uniq option_eqb seen l <-> x ∈ l /\ x ∉ seen.
Proof.
  revert seen. induction l as [|y l IH]; intros seen; simpl.
  - split; [intros H; inversion H | intros [H _]; inversion H].
  - rewrite existsb_option_eqb. destruct (bool_decide_reflect (y ∈ seen)) as [Hy|Hy].
    + rewrite IH, elem_of_cons. split; [tauto|].
      intros [[->|H] Hn]; [contradiction | tauto].
    + rewrite !elem_of_cons, IH, not_elem_of_cons.
      destruct (decide (x = y)) as [->|Hne]; tauto.
Qed.

Lemma NoDup_uniq_tools (seen l : list (option string)) : NoDup (JS.uniq option_eqb seen l).
Proof.
  revert seen. induction l as [|x l IH]; intros seen; simpl; [constructor|].
  rewrite existsb_option_eqb. destruct (bool_decide_reflect (x ∈ seen)); [apply IH|].
  constructor; [|apply IH]. rewrite elem_of_uniq_tools. intros [_ H]. apply H. left.
Qed.

Lemma length_uniq_tools (seen l : list (option string)) :
  (length (JS.uniq option_eqb seen l) <= length l)%nat.
Proof.
  revert seen. induction l as [|x l IH]; intros seen; simpl; [lia|].
  destruct (existsb (option_eqb x) seen); simpl.
  - specialize (IH seen). lia.
  - specialize (IH (x :: seen)). lia.
Qed.

(** X22.  [createSessionSummary] counts the steps of the history, lists
    each tool the steps name once, at most as many tools as steps, counts
    the files read, and reports [starting] exactly for an empty history. *)
Theorem createSessionSummary_counts (agentContext : context) :
  let summary := createSessionSummary agentContext in
  steps_taken summary = length (session_history agentContext) /\
  NoDup (tools_used summary) /\
  (forall t, t ∈ tools_used summary <->
             exists s, s ∈ session_history agentContext /\ step_tool s = t) /\
  (length (tools_used summary) <= steps_taken summary)%nat /\
  files_analyzed summary = size (files_read agentContext) /\
  (current_status summary = "starting" <-> session_history agentContext = []) /\
  (current_status summary = "investigating" <-> session_history agentContext <> []).
Proof.
  intros summary. unfold summary, createSessionSummary.
  cbn [steps_taken tools_used files_analyzed current_status].
  split; [reflexivity|]. split; [apply NoDup_uniq_tools|]. split.
  { intros t. rewrite elem_of_uniq_tools, list_elem_of_fmap. split.
    - intros [(s & -> & Hs) _]. exists s. auto.
    - intros (s & Hs & <-). split; [exists s; auto | intros H; inversion H]. }
  split.
  { etransitivity; [apply length_uniq_tools|]. rewrite length_map. lia. }
  split; [reflexivity|].
  destruct (session_history agentContext) as [|s h]; simpl.
  - split; split; try reflexivity; try discriminate. intros H. contradiction.
  - split; split; try discriminate; try reflexivity.
Qed.

End ValidationTheory.

Module TruncationTheory.
Import Store.

Lemma length_append (a b : string) :
  String.length (a +:+ b) = (String.length a + String.length b)%nat.
Proof. induction a as [|c a IH]; simpl; [reflexivity | rewrite IH; reflexivity]. Qed.

Lemma length_substring (n m : nat) (s : string) :
  String.length (substring n m s) = Nat.min m (String.length s - n).
Proof.
  revert n m. induction s as [|c s IH]; intros n m.
  - destruct n, m; reflexivity.
  - destruct n as [|n]; simpl.
    + destruct m as [|m]; simpl; [reflexivity|]. rewrite IH. rewrite Nat.sub_0_r. reflexivity.
    + apply IH.
Qed.

Lemma substring_prefix (a b : string) :
  substring 0 (String.length a) (a +:+ b) = a.
Proof. induction a as [|c a IH]; simpl; [destruct b; reflexivity | rewrite IH; reflexivity]. Qed.

Lemma substring_skip (a b : string) (m : nat) :
  substring (String.length a) m (a +:+ b) = substring 0 m b.
Proof. induction a as [|c a IH]; simpl; [reflexivity | exact IH]. Qed.

Lemma substring_all (s : string) : substring 0 (String.length s) s = s.
Proof. induction s as [|c s IH]; simpl; [reflexivity | rewrite IH; reflexivity]. Qed.

Lemma append_assoc (a b c : string) : (a +:+ b) +:+ c = a +:+ (b +:+ c).
Proof.
  induction a as [|x a IH]; [reflexivity|].
  change (String x ((a +:+ b) +:+ c) = String x (a +:+ (b +:+ c))). f_equal. exact IH.
Qed.

(** X23.  The truncation the optimizer applies to a file content longer
    than 2000 characters gives 2029 characters: the first 1000, the marker
    and the last 1000; truncating the result again gives the same text. *)
Theorem truncate_content_is_stable (text : string) :
  (2000 < String.length text)%nat ->
  String.length (truncate_content text) = 2029%nat /\
  substring 0 1000 (truncate_content text) = substring 0 1000 text /\
  substring 1029 1000 (truncate_content text) =
    substring (String.length text - 1000) 1000 text /\
  truncate_content (truncate_content text) = truncate_content text.
Proof.
  intros Hlong. unfold truncate_content.
  set (head := substring 0 1000 text).
  set (tail := substring (String.length text - 1000) 1000 text).
  assert (Hhead : String.length head = 1000%nat).
  { unfold head. rewrite length_substring. lia. }
  assert (Htail : String.length tail = 1000%nat).
  { unfold tail. rewrite length_substring. lia. }
  assert (Hmark : String.length truncation_marker = 29%nat) by reflexivity.
  assert (Hlen : String.length (head +:+ truncation_marker +:+ tail) = 2029%nat).
  { rewrite !length_append, Hhead, Htail, Hmark. reflexivity. }
  assert (Hfirst : substring 0 1000 (head +:+ truncation_marker +:+ tail) = head).
  { rewrite <- Hhead at 1. apply substring_prefix. }
  assert (Hlast : substring 1029 1000 (head +:+ truncation_marker +:+ tail) = tail).
  { rewrite <- append_assoc.
    replace 1029%nat with (String.length (head +:+ truncation_marker))
      by (rewrite length_append, Hhead, Hmark; reflexivity).
    rewrite substring_skip. rewrite <- Htail at 1. apply substring_all. }
  split; [exact Hlen|]. split; [exact Hfirst|]. split; [exact Hlast|].
  rewrite Hlen. change (2029 - 1000)%nat with 1029%nat. rewrite Hfirst, Hlast. reflexivity.
Qed.

(** X23, witness: a content of 2001 characters. *)
Lemma truncate_content_is_stable_witness :
  let text := JS.str (repeat "x"%char 2001) in
  (2000 < String.length text)%nat /\
  String.length (truncate_content text) = 2029%nat /\
  substring 0 1000 (truncate_content text) = substring 0 1000 text /\
  substring 1029 1000 (truncate_content text) =
    substring (String.length text - 1000) 1000 text /\
  truncate_content (truncate_content text) = truncate_content text.
Proof.
  cbv zeta.
  assert (Hlong : (2000 < String.length (JS.str (repeat "x"%char 2001)))%nat).
  { vm_compute. lia. }
  split; [exact Hlong|].
  apply (truncate_content_is_stable (JS.str (repeat "x"%char 2001)) Hlong).
Defined.

End TruncationTheory.

Module SharingTheory.
Import Store.

(** X29.  The opening statements of [updateAgentContext] return a new object
    with the properties of the context it was given, and push the step on
    the [session_history] array the two share: the step shows in the
    history of the argument; no other object of the store changes. *)
Theorem record_step_shares_history (h : heap) (c a : nat)
    (props : list (string * hval)) (xs : list hval) (entry : hval) :
  h !! c = Some (Obj props) ->
  Json.assoc "session_history" props = Some (HRef a) ->
  h !! a = Some (Arr xs) ->
  let h' := fst (record_step (HRef c) entry h) in
  snd (record_step (HRef c) entry h) = Returned (HRef (length h)) /\
  h' !! length h = Some (Obj props) /\
  h' !! c = Some (Obj props) /\
  h' !! a = Some (Arr (xs ++ [entry])) /\
  forall l, l <> a -> (l < length h)%nat -> h' !! l = h !! l.
Proof.
  intros Hc Hhist Ha h'.
  assert (Hlc : (c < length h)%nat) by (eapply lookup_lt_Some; exact Hc).
  assert (Hla : (a < length h)%nat) by (eapply lookup_lt_Some; exact Ha).
  assert (Hne : a <> c) by (intros ->; congruence).
  assert (Hrun : record_step (HRef c) entry h =
                 (<[a := Arr (xs ++ [entry])]> (h ++ [Obj props]),
                  Returned (HRef (length h)))).
  { assert (H1 : (h ++ [Obj props]) !! length h = Some (Obj props)).
    { rewrite lookup_app_r by lia. rewrite Nat.sub_diag. reflexivity. }
    assert (H2 : (h ++ [Obj props]) !! a = Some (Arr xs)).
    { rewrite lookup_app_l by lia. exact Ha. }
    cbv beta iota delta [record_step spread_copy bind load alloc].
    rewrite Hc. cbv beta iota delta [get bind load].
    rewrite H1. cbv beta iota delta [ret]. rewrite Hhist.
    cbv beta iota delta [default push bind load from_option id].
    rewrite H2. reflexivity. }
  unfold h'. rewrite Hrun. cbn [fst snd].
  split; [reflexivity|]. split.
  { rewrite list_lookup_insert_ne by lia. rewrite lookup_app_r by lia.
    rewrite Nat.sub_diag. reflexivity. }
  split.
  { rewrite list_lookup_insert_ne by exact Hne. rewrite lookup_app_l by lia. exact Hc. }
  split.
  { apply list_lookup_insert_eq. rewrite length_app. simpl. lia. }
  intros l Hl Hlt. rewrite list_lookup_insert_ne by congruence.
  apply lookup_app_l. exact Hlt.
Qed.

(** X29, witness: a ninth step on the session of eight. *)
Lemma record_step_shares_history_witness :
  let h := StoreScenarios.session_store in
  exists c a props xs,
    StoreScenarios.session_root = HRef c /\
    h !! c = Some (Obj props) /\
    Json.assoc "session_history" props = Some (HRef a) /\
    h !! a = Some (Arr xs) /\
    snd (record_step (HRef c) (HStr "ninth") h) = Returned (HRef (length h)) /\
    fst (record_step (HRef c) (HStr "ninth") h) !! length h = Some (Obj props) /\
    fst (record_step (HRef c) (HStr "ninth") h) !! c = Some (Obj props) /\
    fst (record_step (HRef c) (HStr "ninth") h) !! a = Some (Arr (xs ++ [HStr "ninth"])) /\
    forall l, l <> a -> (l < length h)%nat ->
              fst (record_step (HRef c) (HStr "ninth") h) !! l = h !! l.
Proof.
  cbv zeta. eexists _, _, _, _.
  split; [vm_compute; reflexivity|]. split; [vm_compute; reflexivity|].
  split; [vm_compute; reflexivity|]. split; [vm_compute; reflexivity|].
  apply (record_step_shares_history StoreScenarios.session_store);
    vm_compute; reflexivity.
Defined.

End SharingTheory.

Module ToolHelpersTheory.
Import ToolHelpers.

(** Substrings and trimming *)

Lemma starts_with_spec (sub s : list ascii) :
  JS.starts_with sub s = true <-> exists post, s = sub ++ post.
Proof.
  unfold JS.starts_with. revert s. induction sub as [|c sub IH]; intros s; simpl.
  - split; [intros _; exists s; reflexivity | reflexivity].
  - destruct s as [|x s]; [split; [discriminate | intros [post H]; discriminate]|].
    rewrite andb_true_iff, IH. split.
    + intros [Hc [post ->]]. apply Ascii.eqb_eq in Hc. subst x. exists post. reflexivity.
    + intros [post [= -> ->]]. split; [apply Ascii.eqb_refl | exists post; reflexivity].
Qed.

Lemma includes_spec (sub s : list ascii) :
  JS.includes_chars sub s = true <-> exists pre post, s = pre ++ sub ++ post.
Proof.
  induction s as [|x s IH]; cbn [JS.includes_chars]; rewrite orb_true_iff, starts_with_spec.
  - split.
    + intros [[post H]|H]; [exists [], post; exact H | discriminate].
    + intros (pre & post & H). left. destruct pre; [exists post; exact H | discriminate].
  - rewrite IH. split.
    + intros [[post H]|(pre & post & ->)]; [exists [], post; exact H|].
      exists (x :: pre), post. reflexivity.
    + intros (pre & post & H). destruct pre as [|y pre].
      * left. exists post. exact H.
      * right. injection H as -> ->. exists pre, post. reflexivity.
Qed.

Lemma drop_while_spec (p : ascii -> bool) (s : list ascii) :
  exists dropped, s = dropped ++ JS.drop_while p s /\ forallb p dropped = true.
Proof.
  induction s as [|c s (dropped & Hs & Hp)]; simpl.
  - exists []. split; reflexivity.
  - destruct (p c) eqn:Hc.
    + exists (c :: dropped). split; [simpl; f_equal; exact Hs | simpl; rewrite Hc; exact Hp].
    + exists []. split; reflexivity.
Qed.

(** A substring that begins with a character outside [p] survives the
    removal of a leading run of [p]. *)
Lemma includes_drop_while (p : ascii -> bool) (c : ascii) (sub s : list ascii) :
  p c = false ->
  JS.includes_chars (c :: sub) s = true ->
  JS.includes_chars (c :: sub) (JS.drop_while p s) = true.
Proof.
  intros Hc. rewrite !includes_spec. intros (pre & post & Hs).
  destruct (drop_while_spec p s) as (dropped & Hd & Hp).
  set (t := JS.drop_while p s) in *.
  rewrite Hd in Hs. apply app_eq_app in Hs as [l [[Hl Ht]|[Hl Ht]]].
  - destruct l as [|x l].
    + exists [], post. simpl in Ht |- *. symmetry. exact Ht.
    + exfalso. simpl in Ht. injection Ht as Hx _. subst x.
      rewrite Hl, forallb_app in Hp. simpl in Hp. rewrite Hc in Hp.
      rewrite andb_false_r in Hp. discriminate.
  - exists l, post. exact Ht.
Qed.

Lemma includes_rev (sub s : list ascii) :
  JS.includes_chars (rev sub) (rev s) = JS.includes_chars sub s.
Proof.
  assert (H : forall a b, JS.includes_chars a b = true -> JS.includes_chars (rev a) (rev b) = true).
  { intros a b. rewrite !includes_spec. intros (pre & post & ->).
    exists (rev post), (rev pre). rewrite !rev_app_distr, app_assoc. reflexivity. }
  destruct (JS.includes_chars sub s) eqn:E.
  - apply H, E.
  - destruct (JS.includes_chars (rev sub) (rev s)) eqn:E'; [|reflexivity].
    apply H in E'. rewrite !rev_involutive in E'. congruence.
Qed.

Lemma chars_str (l : list ascii) : JS.chars (JS.str l) = l.
Proof. apply list_ascii_of_string_of_list_ascii. Qed.

(** A marker that neither begins nor ends with white space is still in
    the line when the line is trimmed. *)
Lemma includes_trim (line marker : string) (first last : ascii) (middle : list ascii) :
  JS.chars marker = first :: middle ->
  List.last (JS.chars marker) first = last ->
  JS.is_space first = false -> JS.is_space last = false ->
  JS.includes line marker = true -> JS.includes (JS.trim line) marker = true.
Proof.
  intros Hm Hlast Hf Hl. unfold JS.includes, JS.trim. rewrite chars_str.
  intros H. rewrite Hm in H |- *.
  apply (includes_drop_while JS.is_space) in H; [|exact Hf].
  rewrite <- includes_rev in H. rewrite <- includes_rev, rev_involutive.
  assert (Hrev : exists rest, rev (first :: middle) = last :: rest).
  { rewrite <- Hm. clear -Hlast Hm.
    destruct (rev (JS.chars marker)) as [|x rest] eqn:E.
    - apply (f_equal (@rev ascii)) in E. rewrite rev_involutive in E. simpl in E.
      rewrite E in Hm. discriminate.
    - exists rest. f_equal. apply (f_equal (@rev ascii)) in E. rewrite rev_involutive in E.
      rewrite E in Hlast. simpl in Hlast. rewrite last_last in Hlast. congruence. }
  destruct Hrev as [rest Hrev]. rewrite Hrev in H |- *.
  apply includes_drop_while; assumption.
Qed.

Lemma is_key_error_line_trim (line : string) :
  is_key_error_line line = true -> is_key_error_line (JS.trim line) = true.
Proof.
  unfold is_key_error_line. rewrite !orb_true_iff.
  intros [[[[H|H]|H]|H]|H].
  - left; left; left; left.
    eapply (includes_trim line "Error:"); try reflexivity; exact H.
  - left; left; left; right.
    eapply (includes_trim line "Exception:"); try reflexivity; exact H.
  - left; left; right.
    eapply (includes_trim line "error:"); try reflexivity; exact H.
  - left; right.
    eapply (includes_trim line "ERROR:"); try reflexivity; exact H.
  - right.
    eapply (includes_trim line "FAILED:"); try reflexivity; exact H.
Qed.

(** X24.  Every message of [extractKeyErrorMessages] is the trimmed form of
    a line of the output and still contains one of the five markers; every
    line with a marker gives a message; there are no more messages than
    lines. *)
Theorem extractKeyErrorMessages_keeps_markers (stderr : string) :
  let messages := extractKeyErrorMessages stderr in
  Forall (fun m => is_key_error_line m = true /\
                   exists line, In line (JS.split "010"%char stderr) /\ m = JS.trim line)
    messages /\
  (length messages <= length (JS.split "010"%char stderr))%nat /\
  (forall line, In line (JS.split "010"%char stderr) -> is_key_error_line line = true ->
                In (JS.trim line) messages).
Proof.
  intros messages. unfold messages, extractKeyErrorMessages. split; [|split].
  - rewrite Forall_forall. intros m Hm. apply list_elem_of_In in Hm.
    apply in_map_iff in Hm as (line & <- & Hline). apply filter_In in Hline as [Hin Hkey].
    split; [apply is_key_error_line_trim, Hkey | exists line; auto].
  - rewrite length_map. apply List.filter_length_le.
  - intros line Hin Hkey. apply in_map. apply filter_In. auto.
Qed.

(** File mappings *)

Definition sound_mapping (tracebackFiles discoveredFiles : list string)
    (fileName found : string) : Prop :=
  In found discoveredFiles /\ found <> fileName /\ found <> "" /\
  JS.includes found (without_extension fileName) = true /\
  exists tracebackFile, In tracebackFile tracebackFiles /\ JS.basename tracebackFile = fileName.

Lemma map_file_sound (seen discoveredFiles : list string) (m : gmap string string)
    (tracebackFile : string) :
  (forall k v, m !! k = Some v -> sound_mapping seen discoveredFiles k v) ->
  forall k v, map_file discoveredFiles m tracebackFile !! k = Some v ->
              sound_mapping (seen ++ [tracebackFile]) discoveredFiles k v.
Proof.
  intros Hm k v.
  assert (Hold : m !! k = Some v -> sound_mapping (seen ++ [tracebackFile]) discoveredFiles k v).
  { intros H. destruct (Hm k v H) as (H1 & H2 & H3 & H4 & tb & Htb & Hb).
    repeat split; auto. exists tb. split; [apply in_or_app; left; exact Htb | exact Hb]. }
  unfold map_file.
  destruct (find_match (JS.basename tracebackFile) discoveredFiles) as [found|] eqn:Hf;
    [|exact Hold].
  destruct (String.eqb_spec found "") as [|Hne]; [exact Hold|].
  destruct (String.eqb_spec (JS.basename tracebackFile) found) as [|Hdiff]; [exact Hold|].
  cbn [negb andb].
  destruct (String.eqb (JS.basename tracebackFile) "__proto__"); [exact Hold|].
  rewrite lookup_insert_Some. intros [[<- <-]|[_ H]]; [|exact (Hold H)].
  unfold find_match in Hf. apply find_some in Hf as [Hin Hp].
  repeat split; auto.
  - apply orb_true_iff in Hp as [Hp|Hp]; [|exact Hp].
    apply String.eqb_eq in Hp. congruence.
  - exists tracebackFile. split; [apply in_or_app; right; left; reflexivity | reflexivity].
Qed.

(** X25.  A mapping made by [createFileMappings] sends the base name of a
    traceback file to a discovered file that is another, non-empty name and
    contains the base name without its extension. *)
Theorem createFileMappings_sound (tracebackFiles discoveredFiles : list string)
    (fileName found : string) :
  createFileMappings tracebackFiles discoveredFiles !! fileName = Some found ->
  In found discoveredFiles /\ found <> fileName /\ found <> "" /\
  JS.includes found (without_extension fileName) = true /\
  exists tracebackFile, In tracebackFile tracebackFiles /\ JS.basename tracebackFile = fileName.
Proof.
  unfold createFileMappings.
  assert (H : forall (todo seen : list string) (m : gmap string string),
            (forall k v, m !! k = Some v -> sound_mapping seen discoveredFiles k v) ->
            forall k v, fold_left (map_file discoveredFiles) todo m !! k = Some v ->
                        sound_mapping (seen ++ todo) discoveredFiles k v).
  { induction todo as [|tb todo IH]; intros seen m Hm k v; simpl.
    - rewrite app_nil_r. apply Hm.
    - intros Hk.
      replace (seen ++ tb :: todo) with ((seen ++ [tb]) ++ todo)
        by (rewrite <- app_assoc; reflexivity).
      eapply IH; [|exact Hk]. apply map_file_sound, Hm. }
  intros Hk. apply (H tracebackFiles [] ∅); [|exact Hk].
  intros k v Hkv. rewrite lookup_empty in Hkv. discriminate.
Qed.

(** X25, witness: [etl.py] of the traceback and [etl_job.py] on disk. *)
Lemma createFileMappings_sound_witness :
  createFileMappings ["/srv/app/etl.py"] ["README.md"; "etl_job.py"] !! "etl.py" =
    Some "etl_job.py" /\
  In "etl_job.py" ["README.md"; "etl_job.py"] /\ "etl_job.py" <> "etl.py" /\
  "etl_job.py" <> "" /\
  JS.includes "etl_job.py" (without_extension "etl.py") = true /\
  exists tracebackFile,
    In tracebackFile ["/srv/app/etl.py"] /\ JS.basename tracebackFile = "etl.py".
Proof.
  split; [vm_compute; reflexivity|].
  apply (createFileMappings_sound ["/srv/app/etl.py"] ["README.md"; "etl_job.py"]
           "etl.py" "etl_job.py").
  vm_compute; reflexivity.
Defined.

End ToolHelpersTheory.

Module WebTheory.
Import Agent Web.

(** Decimal numerals *)

Definition digit_step (acc : Z) (c : ascii) : Z := 10 * acc + Z.of_nat (JS.code c - 48).

Lemma numeral_value_fold (digits : list ascii) :
  numeral_value digits = fold_left digit_step digits 0.
Proof. reflexivity. Qed.

(** A natural number below [2^53] is a double. *)
Lemma to_double_exact (n : Z) : 0 <= n < 2 ^ 53 -> to_double n = n.
Proof.
  intros Hn. unfold to_double.
  assert (Hbits : Z.log2 n + 1 <= 53).
  { destruct (Z.eq_dec n 0) as [->|Hz]; [simpl; lia|].
    assert (Z.log2 n < 53) by (apply Z.log2_lt_pow2; lia). lia. }
  apply Z.leb_le in Hbits. rewrite Hbits. reflexivity.
Qed.

Lemma pretty_N_char_digit (d : N) :
  (d < 10)%N ->
  JS.is_digit (pretty_N_char d) = true /\
  Z.of_nat (JS.code (pretty_N_char d) - 48) = Z.of_N d.
Proof.
  intros Hd.
  assert (H : (d = 0 \/ d = 1 \/ d = 2 \/ d = 3 \/ d = 4 \/ d = 5 \/ d = 6 \/ d = 7 \/
               d = 8 \/ d = 9)%N) by lia.
  repeat (destruct H as [->|H]; [split; reflexivity|]). subst d. split; reflexivity.
Qed.

Lemma chars_String (c : ascii) (s : string) : JS.chars (String c s) = c :: JS.chars s.
Proof. reflexivity. Qed.

(** The numeral of [x] written in front of [s]: digits only, and read back
    it is [x]. *)
Lemma pretty_N_go_numeral (x : N) :
  exists ds,
    (forall s, JS.chars (pretty_N_go x s) = ds ++ JS.chars s) /\
    forallb JS.is_digit ds = true /\
    ((0 < x)%N -> ds <> []) /\
    exists k, forall a, fold_left digit_step ds a = a * k + Z.of_N x.
Proof.
  induction (N.lt_wf_0 x) as [x _ IH].
  destruct (N.eq_dec x 0%N) as [->|Hx].
  - exists []. split; [intros s; rewrite pretty_N_go_0; reflexivity|].
    split; [reflexivity|]. split; [lia|]. exists 1. intros a. simpl. lia.
  - assert (Hpos : (0 < x)%N) by lia.
    destruct (IH (x `div` 10)%N) as (ds & Hds & Hdig & _ & k & Hk).
    { apply N.div_lt; lia. }
    destruct (pretty_N_char_digit (x `mod` 10)%N) as [Hc1 Hc2].
    { apply N.mod_lt. lia. }
    exists (ds ++ [pretty_N_char (x `mod` 10)]). split.
    { intros s. rewrite (pretty_N_go_step x s Hpos), Hds, chars_String, <- app_assoc.
      reflexivity. }
    split.
    { rewrite forallb_app, Hdig. simpl. rewrite Hc1. reflexivity. }
    split.
    { intros _ H. apply app_eq_nil in H as [_ H]. discriminate. }
    exists (10 * k). intros a. rewrite fold_left_app, Hk. simpl. unfold digit_step at 1.
    rewrite Hc2.
    pose proof (N.div_mod x 10 ltac:(lia)) as Hdm.
    assert (Hz : Z.of_N x = 10 * Z.of_N (x `div` 10) + Z.of_N (x `mod` 10)) by lia.
    lia.
Qed.

Lemma pretty_N_numeral (x : N) :
  exists ds,
    JS.chars (pretty x) = ds /\ ds <> [] /\ forallb JS.is_digit ds = true /\
    numeral_value ds = Z.of_N x.
Proof.
  unfold pretty, pretty_N. destruct (decide (x = 0%N)) as [->|Hx].
  - exists ["0"%char]. repeat split; try reflexivity. discriminate.
  - destruct (pretty_N_go_numeral x) as (ds & Hds & Hdig & Hne & k & Hk).
    exists ds. split; [rewrite Hds; apply app_nil_r|]. split; [apply Hne; lia|].
    split; [exact Hdig|]. rewrite numeral_value_fold, Hk. lia.
Qed.

(** Scanning *)

Lemma span_digits (ds rest : list ascii) :
  forallb JS.is_digit ds = true ->
  match rest with [] => True | c :: _ => JS.is_digit c = false end ->
  JS.span JS.is_digit (ds ++ rest) = (ds, rest).
Proof.
  intros Hds Hrest. induction ds as [|d ds IH]; simpl.
  - destruct rest as [|c rest]; [reflexivity|]. simpl. rewrite Hrest. reflexivity.
  - simpl in Hds. apply andb_true_iff in Hds as [Hd Hds]. rewrite Hd, IH by exact Hds.
    reflexivity.
Qed.

Lemma span_no_digit (l rest : list ascii) :
  fst (JS.span JS.is_digit l) = [] ->
  match rest with [] => True | c :: _ => JS.is_digit c = false end ->
  fst (JS.span JS.is_digit (l ++ rest)) = [].
Proof.
  intros Hl Hrest. destruct l as [|x l]; simpl in *.
  - destruct rest as [|c rest]; [reflexivity|]. simpl. rewrite Hrest. reflexivity.
  - destruct (JS.is_digit x); [|reflexivity].
    destruct (JS.span JS.is_digit l). discriminate.
Qed.

Lemma port_digits_skip (pre rest : list ascii) :
  port_digits pre = None ->
  match rest with [] => True | c :: _ => JS.is_digit c = false end ->
  port_digits (pre ++ rest) = port_digits rest.
Proof.
  intros Hpre Hrest. induction pre as [|c pre IH]; [reflexivity|].
  simpl in Hpre |- *. destruct (Ascii.eqb c ":").
  - destruct (fst (JS.span JS.is_digit pre)) eqn:Hs; [|discriminate].
    rewrite (span_no_digit pre rest Hs Hrest). apply IH, Hpre.
  - apply IH, Hpre.
Qed.

Lemma chars_append (a b : string) : JS.chars (a +:+ b) = JS.chars a ++ JS.chars b.
Proof. induction a as [|c a IH]; simpl; [reflexivity|]. unfold JS.chars in *. simpl. rewrite IH. reflexivity. Qed.

(** X26.  For an origin in which no colon is followed by a digit and a path
    that does not begin with a digit, [extractPortFromUrl] reads back the
    port written in decimal between them, when the port is below [2^53]
    (from there on [parseInt] answers a rounded number). *)
Theorem extractPortFromUrl_reads_port (origin path : string) (port : N) :
  port_digits (JS.chars origin) = None ->
  match JS.chars path with [] => True | c :: _ => JS.is_digit c = false end ->
  (port < 2 ^ 53)%N ->
  extractPortFromUrl (origin +:+ ":" +:+ pretty port +:+ path) = Some (Z.of_N port).
Proof.
  intros Horigin Hpath Hport. unfold extractPortFromUrl.
  destruct (pretty_N_numeral port) as (ds & Hds & Hne & Hdig & Hval).
  assert (Hchars : JS.chars (origin +:+ ":" +:+ pretty port +:+ path) =
                   JS.chars origin ++ ":"%char :: ds ++ JS.chars path).
  { rewrite !chars_append, Hds. reflexivity. }
  destruct (String.eqb_spec (origin +:+ ":" +:+ pretty port +:+ path) "") as [He|_].
  { exfalso. rewrite He in Hchars. destruct (JS.chars origin); discriminate. }
  rewrite Hchars, port_digits_skip by (exact Horigin || reflexivity).
  cbn [port_digits]. rewrite Ascii.eqb_refl, span_digits by assumption. cbn [fst].
  destruct ds as [|d ds]; [contradiction|]. cbn [option_map]. unfold parseInt.
  rewrite Hval, to_double_exact; [reflexivity|].
  split; [lia|]. change (2 ^ 53) with (Z.of_N (2 ^ 53)%N). lia.
Qed.

(** X26, witness: [http://localhost:3000/api/users]. *)
Lemma extractPortFromUrl_reads_port_witness :
  port_digits (JS.chars "http://localhost") = None /\
  match JS.chars "/api/users" with [] => True | c :: _ => JS.is_digit c = false end /\
  (3000 < 2 ^ 53)%N /\
  extractPortFromUrl ("http://localhost" +:+ ":" +:+ pretty 3000%N +:+ "/api/users") =
    Some (Z.of_N 3000).
Proof.
  split; [reflexivity|]. split; [reflexivity|]. split; [reflexivity|].
  apply (extractPortFromUrl_reads_port "http://localhost" "/api/users" 3000);
    reflexivity.
Defined.

End WebTheory.
